(** * Audit event logging: a shallow embedding of
      security/compliance/audit_logger.py

    The development follows the Python module top to bottom: the four
    enumerations, [AuditEvent] with its compliance derivation and its
    serialisation, [AuditFilter], the two storage backends
    ([FileAuditStorage], [DatabaseAuditStorage]) behind the [AuditStorage]
    interface, and [AuditLogger].

    Conventions.
    - A Python call that can raise is a function into [outcome]; a
      [try ... except Exception] block is [try_except].
    - [str] is [string]; every character is a code point below 256.
    - A naive [datetime] is the record of its seven fields.
    - A [set] is the list of its members in the order Python iterates it
      (here: the order of insertion); a [dict] is the list of its items in
      insertion order.  No function of the module sorts either. *)

From Stdlib Require Import ZArith Lia Bool List String Ascii.
From Stdlib Require Import ListSet Permutation.
From Stdlib Require Import DecimalString.
Import ListNotations.

Local Open Scope string_scope.
Local Open Scope Z_scope.

(** ** Exceptions *)

Inductive exn : Type :=
| ValueError | TypeError | KeyError | OSError
| InvalidToken
| ProgrammingError | IntegrityError | OperationalError
| OverflowError
| QueueFull.

Inductive outcome (A : Type) : Type :=
| Return (a : A)
| Raise (e : exn).
Arguments Return {A} a.
Arguments Raise {A} e.

Definition bind {A B : Type} (m : outcome A) (k : A -> outcome B) : outcome B :=
  match m with
  | Return a => k a
  | Raise e => Raise e
  end.

Notation "x <- m ;; k" := (bind m (fun x => k))
  (at level 61, m at next level, right associativity).
Notation "m ;;; k" := (bind m (fun _ => k))
  (at level 61, right associativity).

Definition exn_name (e : exn) : string :=
  match e with
  | ValueError => "ValueError" | TypeError => "TypeError"
  | KeyError => "KeyError" | OSError => "OSError"
  | InvalidToken => "InvalidToken"
  | ProgrammingError => "ProgrammingError"
  | IntegrityError => "IntegrityError"
  | OperationalError => "OperationalError"
  | OverflowError => "OverflowError"
  | QueueFull => "Full"
  end.

(** [try: body  except Exception as e: handler e] *)
Definition try_except {A : Type} (body : outcome A) (handler : exn -> A) : A :=
  match body with
  | Return a => a
  | Raise e => handler e
  end.

(** ** The enumerations *)

Inductive AuditLevel : Type :=
| DEBUG | INFO | WARNING | ERROR | CRITICAL | SECURITY | COMPLIANCE.

Inductive AuditCategory : Type :=
| AUTHENTICATION | AUTHORIZATION | DATA_ACCESS | DATA_MODIFICATION
| SYSTEM_CONFIGURATION | USER_MANAGEMENT | SECURITY_EVENT | COMPLIANCE_EVENT
| BUSINESS_PROCESS | NETWORK_ACTIVITY | FILE_SYSTEM | DATABASE | API_CALL
| PERFORMANCE | ERROR_EVENT.

Inductive AuditAction : Type :=
| CREATE | READ | UPDATE | DELETE | LOGIN | LOGOUT | ACCESS_GRANTED
| ACCESS_DENIED | PERMISSION_CHANGED | CONFIGURATION_CHANGED
| PASSWORD_CHANGED | ACCOUNT_LOCKED | ACCOUNT_UNLOCKED | BACKUP_CREATED
| BACKUP_RESTORED | SYSTEM_STARTUP | SYSTEM_SHUTDOWN | EXPORT | IMPORT
| APPROVE | REJECT.

Inductive ComplianceFramework : Type :=
| SOX | GDPR | HIPAA | PCI_DSS | ISO27001 | SOC2 | FISMA | NIST | COBIT.

Scheme Equality for AuditLevel.
Scheme Equality for AuditCategory.
Scheme Equality for AuditAction.
Scheme Equality for ComplianceFramework.

(** [member.value] *)
Definition AuditLevel_value (l : AuditLevel) : string :=
  match l with
  | DEBUG => "debug" | INFO => "info" | WARNING => "warning"
  | ERROR => "error" | CRITICAL => "critical" | SECURITY => "security"
  | COMPLIANCE => "compliance"
  end.

Definition AuditCategory_value (c : AuditCategory) : string :=
  match c with
  | AUTHENTICATION => "authentication" | AUTHORIZATION => "authorization"
  | DATA_ACCESS => "data_access" | DATA_MODIFICATION => "data_modification"
  | SYSTEM_CONFIGURATION => "system_configuration"
  | USER_MANAGEMENT => "user_management"
  | SECURITY_EVENT => "security_event"
  | COMPLIANCE_EVENT => "compliance_event"
  | BUSINESS_PROCESS => "business_process"
  | NETWORK_ACTIVITY => "network_activity"
  | FILE_SYSTEM => "file_system" | DATABASE => "database"
  | API_CALL => "api_call" | PERFORMANCE => "performance"
  | ERROR_EVENT => "error_event"
  end.

Definition AuditAction_value (a : AuditAction) : string :=
  match a with
  | CREATE => "create" | READ => "read" | UPDATE => "update"
  | DELETE => "delete" | LOGIN => "login" | LOGOUT => "logout"
  | ACCESS_GRANTED => "access_granted" | ACCESS_DENIED => "access_denied"
  | PERMISSION_CHANGED => "permission_changed"
  | CONFIGURATION_CHANGED => "configuration_changed"
  | PASSWORD_CHANGED => "password_changed"
  | ACCOUNT_LOCKED => "account_locked"
  | ACCOUNT_UNLOCKED => "account_unlocked"
  | BACKUP_CREATED => "backup_created"
  | BACKUP_RESTORED => "backup_restored"
  | SYSTEM_STARTUP => "system_startup"
  | SYSTEM_SHUTDOWN => "system_shutdown"
  | EXPORT => "export" | IMPORT => "import" | APPROVE => "approve"
  | REJECT => "reject"
  end.

Definition ComplianceFramework_value (f : ComplianceFramework) : string :=
  match f with
  | SOX => "sox" | GDPR => "gdpr" | HIPAA => "hipaa" | PCI_DSS => "pci_dss"
  | ISO27001 => "iso27001" | SOC2 => "soc2" | FISMA => "fisma"
  | NIST => "nist" | COBIT => "cobit"
  end.

(** The members in definition order, as iterating the class yields them. *)
Definition all_AuditLevel : list AuditLevel :=
  [DEBUG; INFO; WARNING; ERROR; CRITICAL; SECURITY; COMPLIANCE].

Definition all_AuditCategory : list AuditCategory :=
  [AUTHENTICATION; AUTHORIZATION; DATA_ACCESS; DATA_MODIFICATION;
   SYSTEM_CONFIGURATION; USER_MANAGEMENT; SECURITY_EVENT; COMPLIANCE_EVENT;
   BUSINESS_PROCESS; NETWORK_ACTIVITY; FILE_SYSTEM; DATABASE; API_CALL;
   PERFORMANCE; ERROR_EVENT].

Definition all_AuditAction : list AuditAction :=
  [CREATE; READ; UPDATE; DELETE; LOGIN; LOGOUT; ACCESS_GRANTED;
   ACCESS_DENIED; PERMISSION_CHANGED; CONFIGURATION_CHANGED;
   PASSWORD_CHANGED; ACCOUNT_LOCKED; ACCOUNT_UNLOCKED; BACKUP_CREATED;
   BACKUP_RESTORED; SYSTEM_STARTUP; SYSTEM_SHUTDOWN; EXPORT; IMPORT;
   APPROVE; REJECT].

Definition all_ComplianceFramework : list ComplianceFramework :=
  [SOX; GDPR; HIPAA; PCI_DSS; ISO27001; SOC2; FISMA; NIST; COBIT].

(** [Enum(value)]: the member with that value, [ValueError] when none has. *)
Definition by_value {A : Type} (value_of : A -> string) (members : list A)
    (s : string) : outcome A :=
  match find (fun m => String.eqb (value_of m) s) members with
  | Some m => Return m
  | None => Raise ValueError
  end.

Definition AuditLevel_of := by_value AuditLevel_value all_AuditLevel.
Definition AuditCategory_of := by_value AuditCategory_value all_AuditCategory.
Definition AuditAction_of := by_value AuditAction_value all_AuditAction.
Definition ComplianceFramework_of :=
  by_value ComplianceFramework_value all_ComplianceFramework.

(** ** Text helpers *)

(** [str.lower()] on one code point below 256: the letters A..Z and the
    Latin-1 capitals (192..222 but the multiplication sign 215) move up
    by 32. *)
Definition lower_ascii (c : ascii) : ascii :=
  let n := nat_of_ascii c in
  if orb (andb (Nat.leb 65 n) (Nat.leb n 90))
         (andb (andb (Nat.leb 192 n) (Nat.leb n 222)) (negb (Nat.eqb n 215)))
  then ascii_of_nat (n + 32) else c.

Fixpoint lower (s : string) : string :=
  match s with
  | EmptyString => EmptyString
  | String c r => String (lower_ascii c) (lower r)
  end.

(** [needle in haystack] for two strings. *)
Fixpoint contains (needle haystack : string) : bool :=
  if String.prefix needle haystack then true
  else match haystack with
       | EmptyString => false
       | String _ r => contains needle r
       end.

Definition digit (d : Z) : ascii := ascii_of_nat (48 + Z.to_nat d).

(** [x] written in exactly [w] decimal digits, as ["%0wd"] does for
    [0 <= x < 10^w]. *)
Fixpoint zpad (w : nat) (x : Z) : string :=
  match w with
  | O => EmptyString
  | S w' => String (digit (x / 10 ^ Z.of_nat w')) (zpad w' (x mod 10 ^ Z.of_nat w'))
  end.

Definition digit_value (c : ascii) : option Z :=
  let n := nat_of_ascii c in
  if andb (Nat.leb 48 n) (Nat.leb n 57) then Some (Z.of_nat n - 48) else None.

(** Reads exactly [w] decimal digits off the front of [s]. *)
Fixpoint read_digits (w : nat) (acc : Z) (s : string) : option (Z * string) :=
  match w with
  | O => Some (acc, s)
  | S w' =>
      match s with
      | EmptyString => None
      | String c r =>
          match digit_value c with
          | Some d => read_digits w' (10 * acc + d) r
          | None => None
          end
      end
  end.

Definition expect (c : ascii) (s : string) : option string :=
  match s with
  | String c' r => if Ascii.eqb c c' then Some r else None
  | EmptyString => None
  end.

(** ** Naive datetimes *)

Record datetime : Type := mkdatetime {
  year : Z; month : Z; day : Z;
  hour : Z; minute : Z; second : Z; microsecond : Z
}.

Definition is_leap (y : Z) : bool :=
  andb (y mod 4 =? 0) (orb (negb (y mod 100 =? 0)) (y mod 400 =? 0)).

Definition days_in_month (y m : Z) : Z :=
  if m =? 2 then (if is_leap y then 29 else 28)
  else if orb (orb (m =? 4) (m =? 6)) (orb (m =? 9) (m =? 11)) then 30
  else 31.

(** The field ranges the [datetime] constructor enforces. *)
Definition valid_datetime (d : datetime) : Prop :=
  1 <= year d <= 9999 /\ 1 <= month d <= 12 /\
  1 <= day d <= days_in_month (year d) (month d) /\
  0 <= hour d <= 23 /\ 0 <= minute d <= 59 /\ 0 <= second d <= 59 /\
  0 <= microsecond d <= 999999.

Definition valid_datetimeb (d : datetime) : bool :=
  (1 <=? year d) && (year d <=? 9999) && (1 <=? month d) && (month d <=? 12)
  && (1 <=? day d) && (day d <=? days_in_month (year d) (month d))
  && (0 <=? hour d) && (hour d <=? 23) && (0 <=? minute d) && (minute d <=? 59)
  && (0 <=? second d) && (second d <=? 59)
  && (0 <=? microsecond d) && (microsecond d <=? 999999).

Definition lex (c1 c2 : comparison) : comparison :=
  match c1 with
  | Eq => c2
  | _ => c1
  end.

(** Comparison of two naive datetimes: field by field, year first. *)
Definition datetime_compare (a b : datetime) : comparison :=
  lex (year a ?= year b)
  (lex (month a ?= month b)
  (lex (day a ?= day b)
  (lex (hour a ?= hour b)
  (lex (minute a ?= minute b)
  (lex (second a ?= second b)
       (microsecond a ?= microsecond b)))))).

Definition datetime_ltb (a b : datetime) : bool :=
  match datetime_compare a b with Lt => true | _ => false end.

Definition datetime_leb (a b : datetime) : bool :=
  match datetime_compare a b with Gt => false | _ => true end.

(** [datetime.isoformat()]: the fraction is written only when the
    microsecond is not zero. *)
Definition isoformat (d : datetime) : string :=
  zpad 4 (year d) ++ "-" ++ zpad 2 (month d) ++ "-" ++ zpad 2 (day d) ++ "T"
  ++ zpad 2 (hour d) ++ ":" ++ zpad 2 (minute d) ++ ":" ++ zpad 2 (second d)
  ++ (if microsecond d =? 0 then "" else "." ++ zpad 6 (microsecond d)).

Definition opt_bind {A B : Type} (o : option A) (k : A -> option B) : option B :=
  match o with
  | Some a => k a
  | None => None
  end.

(** [datetime.fromisoformat] on the two layouts [isoformat] writes for a
    naive datetime, [YYYY-MM-DDTHH:MM:SS] and [YYYY-MM-DDTHH:MM:SS.ffffff];
    field values outside their range, and every other text, raise
    [ValueError]. *)
Definition read_isoformat (s : string) : option datetime :=
  opt_bind (read_digits 4 0 s) (fun '(y, s) =>
  opt_bind (expect "-" s) (fun s =>
  opt_bind (read_digits 2 0 s) (fun '(mo, s) =>
  opt_bind (expect "-" s) (fun s =>
  opt_bind (read_digits 2 0 s) (fun '(d, s) =>
  opt_bind (expect "T" s) (fun s =>
  opt_bind (read_digits 2 0 s) (fun '(h, s) =>
  opt_bind (expect ":" s) (fun s =>
  opt_bind (read_digits 2 0 s) (fun '(mi, s) =>
  opt_bind (expect ":" s) (fun s =>
  opt_bind (read_digits 2 0 s) (fun '(se, s) =>
  match s with
  | EmptyString => Some (mkdatetime y mo d h mi se 0)
  | String c r =>
      if Ascii.eqb c "." then
        opt_bind (read_digits 6 0 r) (fun '(us, r') =>
        match r' with
        | EmptyString => Some (mkdatetime y mo d h mi se us)
        | _ => None
        end)
      else None
  end))))))))))).

Definition fromisoformat (s : string) : outcome datetime :=
  match read_isoformat s with
  | Some d => if valid_datetimeb d then Return d else Raise ValueError
  | None => Raise ValueError
  end.

(** [strftime("%Y%m%d_%H%M%S")] *)
Definition strftime_compact (d : datetime) : string :=
  zpad 4 (year d) ++ zpad 2 (month d) ++ zpad 2 (day d) ++ "_"
  ++ zpad 2 (hour d) ++ zpad 2 (minute d) ++ zpad 2 (second d).

(** ** Python values and JSON text *)

(** The values an event's [details] may hold.  [PObj s] stands for any
    object [json] cannot encode on its own (a [datetime], a [set], ...),
    with [s] the text [str] gives for it.  Floats are left out. *)
#[warnings="-register-all"]
Inductive pyval : Type :=
| PNone
| PBool (b : bool)
| PInt (z : Z)
| PStr (s : string)
| PList (items : list pyval)
| PDict (items : list (string * pyval))
| PObj (s : string).

Definition pydict : Type := list (string * pyval).

(** [d.get(k)] / [d[k]] on the items of a dict. *)
Fixpoint lookup {A : Type} (k : string) (items : list (string * A)) : option A :=
  match items with
  | [] => None
  | (k', v) :: r => if String.eqb k k' then Some v else lookup k r
  end.

(** Values that JSON represents as they are. *)
Fixpoint json_native (v : pyval) : bool :=
  match v with
  | PObj _ => false
  | PList items => forallb json_native items
  | PDict items => forallb (fun kv => json_native (snd kv)) items
  | _ => true
  end.

(** What [json.loads(json.dumps(v, default=str))] returns: [default]
    turns every object the encoder does not know into its [str]. *)
Fixpoint json_default_str (v : pyval) : pyval :=
  match v with
  | PObj s => PStr s
  | PList items => PList (map json_default_str items)
  | PDict items => PDict (map (fun kv => (fst kv, json_default_str (snd kv))) items)
  | _ => v
  end.

Definition hex_digit (n : nat) : ascii :=
  if Nat.ltb n 10 then ascii_of_nat (48 + n) else ascii_of_nat (87 + n).

Definition dquote : ascii := ascii_of_nat 34.
Definition backslash : ascii := ascii_of_nat 92.

Definition escaped (c : string) : string := String backslash c.

(** One character of a JSON string under [ensure_ascii=True]: the quote,
    the backslash and the five short escapes, printable ASCII as it is,
    every other code point as a four-digit [u] escape. *)
Definition json_escape_char (c : ascii) : string :=
  let n := nat_of_ascii c in
  if Nat.eqb n 34 then escaped (String dquote "")
  else if Nat.eqb n 92 then escaped (String backslash "")
  else if Nat.eqb n 10 then escaped "n"
  else if Nat.eqb n 13 then escaped "r"
  else if Nat.eqb n 9 then escaped "t"
  else if Nat.eqb n 8 then escaped "b"
  else if Nat.eqb n 12 then escaped "f"
  else if andb (Nat.leb 32 n) (Nat.leb n 126) then String c ""
  else escaped ("u00" ++ String (hex_digit (Nat.div n 16))
                           (String (hex_digit (Nat.modulo n 16)) "")).

Fixpoint json_escape (s : string) : string :=
  match s with
  | EmptyString => EmptyString
  | String c r => json_escape_char c ++ json_escape r
  end.

Definition json_string (s : string) : string :=
  String dquote (json_escape s ++ String dquote "").

(** [", ".join(parts)] *)
Fixpoint join (sep : string) (parts : list string) : string :=
  match parts with
  | [] => ""
  | [p] => p
  | p :: r => p ++ sep ++ join sep r
  end.

Definition string_of_Z (z : Z) : string :=
  NilZero.string_of_int (Z.to_int z).

(** The text [json.dumps(v, default=str)] writes, with the default
    separators. *)
Fixpoint json_text (v : pyval) : string :=
  match v with
  | PNone => "null"
  | PBool true => "true"
  | PBool false => "false"
  | PInt z => string_of_Z z
  | PStr s => json_string s
  | PObj s => json_string s
  | PList items => "[" ++ join ", " (map json_text items) ++ "]"
  | PDict items =>
      "{" ++ join ", " (map (fun kv => json_string (fst kv) ++ ": " ++ json_text (snd kv)) items)
      ++ "}"
  end.

(** A text handed to [json.loads]: either one that [json.dumps] wrote for
    a value, held as the value read back from it, or a text that is not
    JSON. *)
Inductive document : Type :=
| Dumped (v : pyval)
| Garbled (s : string).

(** [json.dumps(v, default=str)] *)
Definition json_dumps_default_str (v : pyval) : document :=
  Dumped (json_default_str v).

(** [json.dumps(v)]: a value the encoder does not know raises. *)
Definition json_dumps (v : pyval) : outcome document :=
  if json_native v then Return (Dumped v) else Raise TypeError.

(** [json.loads(text)]: [JSONDecodeError] is a [ValueError]. *)
Definition json_loads (d : document) : outcome pyval :=
  match d with
  | Dumped v => Return (json_default_str v)
  | Garbled _ => Raise ValueError
  end.

(** The characters of a document. *)
Definition document_text (d : document) : string :=
  match d with
  | Dumped v => json_text v
  | Garbled s => s
  end.

(** ** AuditEvent *)

Definition framework_set : Type := set ComplianceFramework.

Definition fw_add : ComplianceFramework -> framework_set -> framework_set :=
  set_add ComplianceFramework_eq_dec.

Definition fw_mem : ComplianceFramework -> framework_set -> bool :=
  set_mem ComplianceFramework_eq_dec.

(** [s.update(items)] *)
Definition fw_update (items : list ComplianceFramework) (s : framework_set)
    : framework_set :=
  fold_left (fun acc f => fw_add f acc) items s.

(** [set(items)] and the set comprehension over a list. *)
Definition fw_of_list (items : list ComplianceFramework) : framework_set :=
  fw_update items [].

(** What the field [sensitive_data] holds.  It is annotated [bool] and
    nothing checks it: an event built by a caller holds the bool given,
    one read back from the database the INTEGER sqlite keeps for a
    BOOLEAN column. *)
Inductive flag : Type :=
| Flag (b : bool)
| Stored (n : Z).

(** [bool(x)] *)
Definition truth (x : flag) : bool :=
  match x with
  | Flag b => b
  | Stored n => negb (n =? 0)
  end.

(** The number Python compares it as, which is the INTEGER sqlite binds
    for it: [True == 1] and [False == 0]. *)
Definition flag_integer (x : flag) : Z :=
  match x with
  | Flag b => Z.b2z b
  | Stored n => n
  end.

Record AuditEvent : Type := mkAuditEvent {
  event_id : string;
  timestamp : datetime;
  level : AuditLevel;
  category : AuditCategory;
  action : AuditAction;
  actor : string;
  target : string;
  result : string;
  message : string;
  details : pydict;
  source_ip : option string;
  user_agent : option string;
  session_id : option string;
  correlation_id : option string;
  compliance_frameworks : framework_set;
  risk_score : Z;
  sensitive_data : flag
}.

Definition with_event_id (e : AuditEvent) (i : string) : AuditEvent :=
  mkAuditEvent i (timestamp e) (level e) (category e) (action e) (actor e)
    (target e) (result e) (message e) (details e) (source_ip e)
    (user_agent e) (session_id e) (correlation_id e)
    (compliance_frameworks e) (risk_score e) (sensitive_data e).

Definition with_compliance_frameworks (e : AuditEvent) (s : framework_set)
    : AuditEvent :=
  mkAuditEvent (event_id e) (timestamp e) (level e) (category e) (action e)
    (actor e) (target e) (result e) (message e) (details e) (source_ip e)
    (user_agent e) (session_id e) (correlation_id e) s (risk_score e)
    (sensitive_data e).

Definition category_is (c : AuditCategory) (e : AuditEvent) : bool :=
  AuditCategory_beq (category e) c.

(** The four rules of [_assign_compliance_frameworks], applied in turn to
    the set the event holds. *)
Definition assign_frameworks (e : AuditEvent) (s : framework_set) : framework_set :=
  let s1 :=
    if orb (category_is DATA_ACCESS e) (category_is DATA_MODIFICATION e)
    then fw_add GDPR s else s in
  let s2 :=
    if orb (contains "financial" (lower (target e)))
           (category_is SYSTEM_CONFIGURATION e)
    then fw_add SOX s1 else s1 in
  let s3 :=
    if category_is SECURITY_EVENT e
    then fw_update [ISO27001; SOC2; NIST] s2 else s2 in
  if category_is AUTHENTICATION e
  then fw_update [SOC2; ISO27001; PCI_DSS] s3 else s3.

Definition _assign_compliance_frameworks (e : AuditEvent) : AuditEvent :=
  with_compliance_frameworks e (assign_frameworks e (compliance_frameworks e)).

(** [__post_init__]; [uuid4] is the token [uuid.uuid4()] would draw. *)
Definition __post_init__ (uuid4 : string) (e : AuditEvent) : AuditEvent :=
  let e1 := if String.eqb (event_id e) "" then with_event_id e uuid4 else e in
  _assign_compliance_frameworks e1.

(** [AuditEvent(...)]: the generated [__init__] stores the fields and runs
    [__post_init__]. *)
Definition new_AuditEvent (uuid4 : string)
    (event_id : string) (timestamp : datetime) (level : AuditLevel)
    (category : AuditCategory) (action : AuditAction)
    (actor target result message : string) (details : pydict)
    (source_ip user_agent session_id correlation_id : option string)
    (compliance_frameworks : framework_set) (risk_score : Z)
    (sensitive_data : flag) : AuditEvent :=
  __post_init__ uuid4
    (mkAuditEvent event_id timestamp level category action actor target
       result message details source_ip user_agent session_id
       correlation_id compliance_frameworks risk_score sensitive_data).

Definition opt_str (o : option string) : pyval :=
  match o with
  | Some s => PStr s
  | None => PNone
  end.

(** [to_dict]: [asdict] lists the fields in declaration order; the five
    overwritten keys keep their place.  The framework array is written
    here in the order the set was built; the order CPython lists a set
    in is that of its hash table, which [to_dict_listed] takes as an
    argument and [PySet.listing] computes. *)
Definition to_dict (e : AuditEvent) : pydict :=
  [ ("event_id", PStr (event_id e));
    ("timestamp", PStr (isoformat (timestamp e)));
    ("level", PStr (AuditLevel_value (level e)));
    ("category", PStr (AuditCategory_value (category e)));
    ("action", PStr (AuditAction_value (action e)));
    ("actor", PStr (actor e));
    ("target", PStr (target e));
    ("result", PStr (result e));
    ("message", PStr (message e));
    ("details", PDict (details e));
    ("source_ip", opt_str (source_ip e));
    ("user_agent", opt_str (user_agent e));
    ("session_id", opt_str (session_id e));
    ("correlation_id", opt_str (correlation_id e));
    ("compliance_frameworks",
       PList (map (fun f => PStr (ComplianceFramework_value f))
                  (compliance_frameworks e)));
    ("risk_score", PInt (risk_score e));
    ("sensitive_data",
       match sensitive_data e with
       | Flag b => PBool b
       | Stored n => PInt n
       end) ].

Definition to_json (e : AuditEvent) : document :=
  json_dumps_default_str (PDict (to_dict e)).

(** ** SHA-256 ([hashlib.sha256]) on 32-bit words held in [Z] *)

Module SHA256.

Definition wrap (x : Z) : Z := x mod 2 ^ 32.
Definition add32 (a b : Z) : Z := wrap (a + b).
Definition rotr (n x : Z) : Z :=
  Z.lor (Z.shiftr x n) (wrap (Z.shiftl x (32 - n))).
Definition not32 (x : Z) : Z := Z.lxor x (2 ^ 32 - 1).

Definition Ch (x y z : Z) : Z := Z.lxor (Z.land x y) (Z.land (not32 x) z).
Definition Maj (x y z : Z) : Z :=
  Z.lxor (Z.lxor (Z.land x y) (Z.land x z)) (Z.land y z).
Definition Sigma0 (x : Z) : Z := Z.lxor (Z.lxor (rotr 2 x) (rotr 13 x)) (rotr 22 x).
Definition Sigma1 (x : Z) : Z := Z.lxor (Z.lxor (rotr 6 x) (rotr 11 x)) (rotr 25 x).
Definition sigma0 (x : Z) : Z := Z.lxor (Z.lxor (rotr 7 x) (rotr 18 x)) (Z.shiftr x 3).
Definition sigma1 (x : Z) : Z := Z.lxor (Z.lxor (rotr 17 x) (rotr 19 x)) (Z.shiftr x 10).

Definition primes : list Z :=
  [2; 3; 5; 7; 11; 13; 17; 19; 23; 29; 31; 37; 41; 43; 47; 53; 59; 61; 67; 71;
   73; 79; 83; 89; 97; 101; 103; 107; 109; 113; 127; 131; 137; 139; 149; 151;
   157; 163; 167; 173; 179; 181; 191; 193; 197; 199; 211; 223; 227; 229; 233;
   239; 241; 251; 257; 263; 269; 271; 277; 281; 283; 293; 307; 311].

(** Integer cube root, one bit at a time from bit [i] down. *)
Fixpoint cube_root_bits (i : nat) (n x : Z) : Z :=
  let y := x + 2 ^ Z.of_nat i in
  let x' := if y * y * y <=? n then y else x in
  match i with
  | O => x'
  | S j => cube_root_bits j n x'
  end.

(** The first 32 bits of the fractional parts of the cube roots of the
    first 64 primes. *)
Definition K : list Z :=
  Eval vm_compute in
    map (fun p => wrap (cube_root_bits 35 (p * 2 ^ 96) 0)) primes.

(** The first 32 bits of the fractional parts of the square roots of the
    first 8 primes. *)
Definition H0 : list Z :=
  Eval vm_compute in
    map (fun p => wrap (Z.sqrt (p * 2 ^ 64))) (firstn 8 primes).

Definition byte_of (c : ascii) : Z := Z.of_nat (nat_of_ascii c).

Fixpoint bytes_of (s : string) : list Z :=
  match s with
  | EmptyString => []
  | String c r => byte_of c :: bytes_of r
  end.

(** The big-endian bytes of [x], [n] of them. *)
Fixpoint be_bytes (n : nat) (x : Z) : list Z :=
  match n with
  | O => []
  | S m => (x / 256 ^ Z.of_nat m) mod 256 :: be_bytes m x
  end.

Definition pad (msg : list Z) : list Z :=
  let len := Z.of_nat (List.length msg) in
  let zeros := Z.to_nat ((55 - len) mod 64) in
  msg ++ [128] ++ repeat 0 zeros ++ be_bytes 8 (8 * len).

Fixpoint words (fuel : nat) (bytes : list Z) : list Z :=
  match fuel, bytes with
  | S f, a :: b :: c :: d :: r =>
      (((a * 256 + b) * 256 + c) * 256 + d) :: words f r
  | _, _ => []
  end.

(** The message schedule, newest word first. *)
Fixpoint schedule (n : nat) (w : list Z) : list Z :=
  match n with
  | O => w
  | S m =>
      let x := add32 (add32 (sigma1 (nth 1 w 0)) (nth 6 w 0))
                     (add32 (sigma0 (nth 14 w 0)) (nth 15 w 0)) in
      schedule m (x :: w)
  end.

Record regs : Type := mkregs { ra : Z; rb : Z; rc : Z; rd : Z; re : Z; rf : Z; rg : Z; rh : Z }.

Definition round (s : regs) (kw : Z * Z) : regs :=
  let t1 := add32 (add32 (add32 (rh s) (Sigma1 (re s))) (Ch (re s) (rf s) (rg s)))
                  (add32 (fst kw) (snd kw)) in
  let t2 := add32 (Sigma0 (ra s)) (Maj (ra s) (rb s) (rc s)) in
  mkregs (add32 t1 t2) (ra s) (rb s) (rc s) (add32 (rd s) t1) (re s) (rf s) (rg s).

Definition compress (h : regs) (block : list Z) : regs :=
  let w := rev (schedule 48 (rev block)) in
  let s := fold_left round (combine K w) h in
  mkregs (add32 (ra h) (ra s)) (add32 (rb h) (rb s)) (add32 (rc h) (rc s))
         (add32 (rd h) (rd s)) (add32 (re h) (re s)) (add32 (rf h) (rf s))
         (add32 (rg h) (rg s)) (add32 (rh h) (rh s)).

Fixpoint blocks (fuel : nat) (h : regs) (ws : list Z) : regs :=
  match fuel, ws with
  | S f, _ :: _ => blocks f (compress h (firstn 16 ws)) (skipn 16 ws)
  | _, _ => h
  end.

Definition initial : regs :=
  mkregs (nth 0 H0 0) (nth 1 H0 0) (nth 2 H0 0) (nth 3 H0 0)
         (nth 4 H0 0) (nth 5 H0 0) (nth 6 H0 0) (nth 7 H0 0).

Definition hex_nibble (n : Z) : ascii :=
  if n <? 10 then ascii_of_nat (48 + Z.to_nat n) else ascii_of_nat (87 + Z.to_nat n).

Fixpoint hex (n : nat) (x : Z) : string :=
  match n with
  | O => EmptyString
  | S m => String (hex_nibble ((x / 16 ^ Z.of_nat m) mod 16)) (hex m x)
  end.

(** [hashlib.sha256(data).hexdigest()] *)
Definition hexdigest (data : string) : string :=
  let bytes := pad (bytes_of data) in
  let ws := words (List.length bytes) bytes in
  let h := blocks (List.length ws) initial ws in
  hex 8 (ra h) ++ hex 8 (rb h) ++ hex 8 (rc h) ++ hex 8 (rd h)
  ++ hex 8 (re h) ++ hex 8 (rf h) ++ hex 8 (rg h) ++ hex 8 (rh h).

End SHA256.

(** [calculate_checksum] *)
Definition calculate_checksum (e : AuditEvent) : string :=
  SHA256.hexdigest (document_text (to_json e)).

(** ** Reading an event back from a decoded record *)

Definition event_fields : list string :=
  ["event_id"; "timestamp"; "level"; "category"; "action"; "actor"; "target";
   "result"; "message"; "details"; "source_ip"; "user_agent"; "session_id";
   "correlation_id"; "compliance_frameworks"; "risk_score"; "sensitive_data"].

(** [data[k]] *)
Definition item (k : string) (data : pydict) : outcome pyval :=
  match lookup k data with
  | Some v => Return v
  | None => Raise KeyError
  end.

Definition as_str (v : pyval) : outcome string :=
  match v with
  | PStr s => Return s
  | _ => Raise TypeError
  end.

(** [Enum(v)] for a decoded value: anything but the value of a member is a
    [ValueError]. *)
Definition enum_of {A : Type} (of_value : string -> outcome A) (v : pyval)
    : outcome A :=
  match v with
  | PStr s => of_value s
  | _ => Raise ValueError
  end.

(** [for f in v]: a list yields its items, a string its characters, a
    dict its keys; nothing else iterates. *)
Fixpoint chars (s : string) : list pyval :=
  match s with
  | EmptyString => []
  | String c r => PStr (String c "") :: chars r
  end.

Definition iterate (v : pyval) : outcome (list pyval) :=
  match v with
  | PList items => Return items
  | PStr s => Return (chars s)
  | PDict items => Return (map (fun kv => PStr (fst kv)) items)
  | _ => Raise TypeError
  end.

(** The set comprehension [{ComplianceFramework(f) for f in items}]. *)
Fixpoint frameworks_of (items : list pyval) (acc : framework_set)
    : outcome framework_set :=
  match items with
  | [] => Return acc
  | v :: r =>
      f <- enum_of ComplianceFramework_of v ;;
      frameworks_of r (fw_add f acc)
  end.

(** A required [str] argument of the call that unpacks [data] into
    [AuditEvent]: leaving it out is a
    [TypeError].  The fields of [AuditEvent] are typed here, so a record
    that holds another kind of value for one is refused with [TypeError]
    as well (Python would build the event with that value). *)
Definition required_str (k : string) (data : pydict) : outcome string :=
  match lookup k data with
  | Some v => as_str v
  | None => Raise TypeError
  end.

Definition optional_str (k : string) (data : pydict) : outcome (option string) :=
  match lookup k data with
  | None | Some PNone => Return None
  | Some (PStr s) => Return (Some s)
  | Some _ => Raise TypeError
  end.

Definition optional_dict (k : string) (data : pydict) : outcome pydict :=
  match lookup k data with
  | None => Return []
  | Some (PDict items) => Return items
  | Some _ => Raise TypeError
  end.

Definition optional_int (k : string) (data : pydict) : outcome Z :=
  match lookup k data with
  | None => Return 0
  | Some (PInt z) => Return z
  | Some _ => Raise TypeError
  end.

Definition optional_flag (k : string) (data : pydict) : outcome flag :=
  match lookup k data with
  | None => Return (Flag false)
  | Some (PBool b) => Return (Flag b)
  | Some (PInt n) => Return (Stored n)
  | Some _ => Raise TypeError
  end.

Definition known_field (k : string) : bool :=
  existsb (String.eqb k) event_fields.

(** [_dict_to_event]: the four conversions in source order, the framework
    set rebuilt from the array, then [data] unpacked into [AuditEvent],
    which refuses a key that is no field. *)
Definition dict_to_event (uuid4 : string) (data : pydict) : outcome AuditEvent :=
  lv <- (v <- item "level" data ;; enum_of AuditLevel_of v) ;;
  cat <- (v <- item "category" data ;; enum_of AuditCategory_of v) ;;
  act <- (v <- item "action" data ;; enum_of AuditAction_of v) ;;
  ts <- (v <- item "timestamp" data ;; s <- as_str v ;; fromisoformat s) ;;
  fws <- (items <- match lookup "compliance_frameworks" data with
                   | Some v => iterate v
                   | None => Return []
                   end ;;
          frameworks_of items []) ;;
  (if forallb (fun kv => known_field (fst kv)) data
   then Return tt else Raise TypeError) ;;;
  eid <- required_str "event_id" data ;;
  act_or <- required_str "actor" data ;;
  tgt <- required_str "target" data ;;
  res <- required_str "result" data ;;
  msg <- required_str "message" data ;;
  det <- optional_dict "details" data ;;
  ip <- optional_str "source_ip" data ;;
  ua <- optional_str "user_agent" data ;;
  sid <- optional_str "session_id" data ;;
  cid <- optional_str "correlation_id" data ;;
  rs <- optional_int "risk_score" data ;;
  sd <- optional_flag "sensitive_data" data ;;
  Return (new_AuditEvent uuid4 eid ts lv cat act act_or tgt res msg det
            ip ua sid cid fws rs sd).

(** [_dict_to_event] is called on whatever [json.loads] returned;
    subscripting anything but a dict with a string raises. *)
Definition _dict_to_event (uuid4 : string) (data : pyval) : outcome AuditEvent :=
  match data with
  | PDict items => dict_to_event uuid4 items
  | _ => Raise TypeError
  end.

(** ** AuditFilter *)

Record AuditFilter : Type := mkAuditFilter {
  min_level : option AuditLevel;
  categories : option (list AuditCategory);
  actors : option (list string);
  exclude_actors : list string;
  filter_frameworks : option framework_set;
  time_range : option (datetime * datetime)
}.

(** A keyword argument that has a default other than [None]. *)
Inductive keyword (A : Type) : Type :=
| Omitted
| Given (a : A).
Arguments Omitted {A}.
Arguments Given {A} a.

Definition keyword_or {A : Type} (default : A) (k : keyword A) : A :=
  match k with
  | Omitted => default
  | Given a => a
  end.

(** [AuditFilter.__init__]: [min_level] defaults to [AuditLevel.INFO],
    every other argument to [None]; [exclude_actors or set()]. *)
Definition new_AuditFilter
    (min_level : keyword (option AuditLevel))
    (categories : option (list AuditCategory))
    (actors : option (list string))
    (exclude_actors : option (list string))
    (compliance_frameworks : option framework_set)
    (time_range : option (datetime * datetime)) : AuditFilter :=
  mkAuditFilter (keyword_or (Some INFO) min_level) categories actors
    (match exclude_actors with
     | Some s => s
     | None => []
     end)
    compliance_frameworks time_range.

(** The dict [level_priority] of [should_log]. *)
Definition level_priority : list (AuditLevel * Z) :=
  [ (DEBUG, 0); (INFO, 1); (WARNING, 2); (ERROR, 3); (CRITICAL, 4);
    (SECURITY, 5); (COMPLIANCE, 5) ].

(** [level_priority.get(key, 0)]; the key may be [None]. *)
Definition priority_get (key : option AuditLevel) : Z :=
  match key with
  | None => 0
  | Some l =>
      match find (fun kv => AuditLevel_beq (fst kv) l) level_priority with
      | Some kv => snd kv
      | None => 0
      end
  end.

Definition mem_str (s : string) (l : list string) : bool :=
  existsb (String.eqb s) l.

Definition mem_category (c : AuditCategory) (l : list AuditCategory) : bool :=
  existsb (AuditCategory_beq c) l.

(** A set is true when it is neither [None] nor empty. *)
Definition truthy {A : Type} (o : option (list A)) : option (list A) :=
  match o with
  | Some (x :: r) => Some (x :: r)
  | _ => None
  end.

(** [a.intersection(b)] *)
Definition fw_inter (a b : framework_set) : framework_set :=
  set_inter ComplianceFramework_eq_dec a b.

Definition is_empty {A : Type} (l : list A) : bool :=
  match l with
  | [] => true
  | _ => false
  end.

Definition should_log (f : AuditFilter) (event : AuditEvent) : bool :=
  if priority_get (Some (level event)) <? priority_get (min_level f) then false
  else if match truthy (categories f) with
          | Some cs => negb (mem_category (category event) cs)
          | None => false
          end then false
  else if match truthy (actors f) with
          | Some acs => negb (mem_str (actor event) acs)
          | None => false
          end then false
  else if mem_str (actor event) (exclude_actors f) then false
  else if match truthy (filter_frameworks f) with
          | Some fws => is_empty (fw_inter (compliance_frameworks event) fws)
          | None => false
          end then false
  else match time_range f with
       | Some (start_time, end_time) =>
           if negb (andb (datetime_leb start_time (timestamp event))
                         (datetime_leb (timestamp event) end_time))
           then false else true
       | None => true
       end.

(** [not filter or filter.should_log(event)] of the readers. *)
Definition passes (filter : option AuditFilter) (event : AuditEvent) : bool :=
  match filter with
  | None => true
  | Some f => should_log f event
  end.

(** ** Programs over a backend: state and exceptions *)

Definition prog (S A : Type) : Type := S -> outcome A * S.

Definition ret {S A : Type} (a : A) : prog S A := fun s => (Return a, s).

Definition raise {S A : Type} (e : exn) : prog S A := fun s => (Raise e, s).

Definition pbind {S A B : Type} (m : prog S A) (k : A -> prog S B) : prog S B :=
  fun s =>
    match m s with
    | (Return a, s') => k a s'
    | (Raise e, s') => (Raise e, s')
    end.

Definition get {S : Type} : prog S S := fun s => (Return s, s).

Definition modify {S : Type} (f : S -> S) : prog S unit :=
  fun s => (Return tt, f s).

Notation "x <-- m ;; k" := (pbind m (fun x => k))
  (at level 61, m at next level, right associativity).
Notation "m >> k" := (pbind m (fun _ => k))
  (at level 61, right associativity).

(** [try: body  except Exception as e: handler e], the state kept as the
    body left it when it raised. *)
Definition try_catch {S A : Type} (body : prog S A) (handler : exn -> prog S A)
    : prog S A :=
  fun s =>
    match body s with
    | (Return a, s') => (Return a, s')
    | (Raise e, s') => handler e s'
    end.

(** [when c m]: [if c: m]. *)
Definition when {S : Type} (c : bool) (m : prog S unit) : prog S unit :=
  if c then m else ret tt.

(** [sorted(l, key=..., reverse=True)]: stable, largest key first;
    [leb a b] compares the keys. *)
Section Sorting.
Context {A : Type} (leb : A -> A -> bool).

Fixpoint insert_desc (x : A) (l : list A) : list A :=
  match l with
  | [] => [x]
  | y :: r => if leb y x then x :: y :: r else y :: insert_desc x r
  end.

Definition sort_desc (l : list A) : list A := fold_right insert_desc [] l.
End Sorting.

(** [l[i:]] for a Python index [i]. *)
Definition slice_from {A : Type} (i : Z) (l : list A) : list A :=
  let n := Z.of_nat (List.length l) in
  skipn (Z.to_nat (if i <? 0 then Z.max 0 (n + i) else i)) l.

(** ** The AuditStorage interface *)

(** The four abstract methods.  [now] is the clock at the call; [uuid4]
    is the token [uuid.uuid4()] draws for a stored record that has no
    id. *)
Class AuditStorage (S : Type) : Type := {
  store_event : datetime -> AuditEvent -> prog S bool;
  retrieve_events : string -> option AuditFilter -> Z -> prog S (list AuditEvent);
  get_event_count : string -> option AuditFilter -> prog S Z;
  cleanup_old_events : datetime -> prog S Z
}.

(** ** FileAuditStorage *)

Definition fernet_key : Type := nat.

(** One line of a log file: a text, or the Fernet token of a text (with
    its newline) under a key. *)
Inductive line : Type :=
| Plain (d : document)
| Token (k : fernet_key) (d : document).

(** What the bytes of a file are: text, a gzip stream of text, or
    neither. *)
Inductive encoding : Type := Utf8 | Gzip | Undecodable.

Record log_file : Type := mklog_file {
  path_name : string;
  st_mtime : datetime;     (* as [datetime.fromtimestamp] reads it *)
  st_size : Z;
  st_encoding : encoding;
  file_lines : list line
}.

Record FileAuditStorage : Type := mkFileAuditStorage {
  log_directory : list log_file;     (* the files, in the order [glob] yields them *)
  max_file_size : Z;
  max_files : Z;
  compress_old_files : bool;
  encrypt_files : bool;
  cipher_suite : fernet_key;
  current_file : string;
  disk_fault : bool;                 (* writing to the directory raises [OSError] *)
  file_errors : list string          (* what [logging.error] received *)
}.

Definition with_directory (st : FileAuditStorage) (d : list log_file)
    : FileAuditStorage :=
  mkFileAuditStorage d (max_file_size st) (max_files st)
    (compress_old_files st) (encrypt_files st) (cipher_suite st)
    (current_file st) (disk_fault st) (file_errors st).

Definition with_current_file (st : FileAuditStorage) (n : string)
    : FileAuditStorage :=
  mkFileAuditStorage (log_directory st) (max_file_size st) (max_files st)
    (compress_old_files st) (encrypt_files st) (cipher_suite st)
    n (disk_fault st) (file_errors st).

Definition file_log_error (msg : string) : prog FileAuditStorage unit :=
  modify (fun st =>
    mkFileAuditStorage (log_directory st) (max_file_size st) (max_files st)
      (compress_old_files st) (encrypt_files st) (cipher_suite st)
      (current_file st) (disk_fault st) (file_errors st ++ [msg])).

Fixpoint ends_with (suffix s : string) : bool :=
  if String.eqb suffix s then true
  else match s with
       | EmptyString => false
       | String _ r => ends_with suffix r
       end.

(** [log_file.suffix == '.gz'] *)
Definition is_gz (n : string) : bool :=
  andb (ends_with ".gz" n) (Nat.ltb 3 (String.length n)).

(** [fnmatch(name, "audit_*.log*")] *)
Definition matches_pattern (n : string) : bool :=
  andb (String.prefix "audit_" n)
       (contains ".log" (String.substring 6 (String.length n - 6) n)).

(** [list(self.log_directory.glob("audit_*.log*"))] *)
Definition glob (st : FileAuditStorage) : list log_file :=
  filter (fun f => matches_pattern (path_name f)) (log_directory st).

Definition mtime_leb (a b : log_file) : bool :=
  datetime_leb (st_mtime a) (st_mtime b).

Definition find_file (n : string) (d : list log_file) : option log_file :=
  find (fun f => String.eqb (path_name f) n) d.

(** [path.unlink()] *)
Definition unlink (n : string) (d : list log_file) : list log_file :=
  filter (fun f => negb (String.eqb (path_name f) n)) d.

(** Creating or replacing the file of that name. *)
Definition put_file (f : log_file) (d : list log_file) : list log_file :=
  match find_file (path_name f) d with
  | Some _ => map (fun g => if String.eqb (path_name g) (path_name f) then f else g) d
  | None => d ++ [f]
  end.

Definition text_bytes (d : document) : Z :=
  Z.of_nat (String.length (document_text d)).

(** The length of a Fernet token of [n] bytes: base64 of version,
    timestamp, IV, the padded ciphertext and the HMAC. *)
Definition fernet_length (n : Z) : Z :=
  4 * ((73 + 16 * (n / 16) + 2) / 3).

(** The bytes one line takes, newline included. *)
Definition line_bytes (l : line) : Z :=
  match l with
  | Plain d => text_bytes d + 1
  | Token _ d => fernet_length (text_bytes d + 1) + 1
  end.

(** [_initialize_current_file] *)
Definition _initialize_current_file (now : datetime) : prog FileAuditStorage unit :=
  modify (fun st =>
    with_current_file st ("audit_" ++ strftime_compact now ++ ".log")).

(** A write to the directory. *)
Definition write_guard : prog FileAuditStorage unit :=
  st <-- get ;;
  if disk_fault st then raise OSError else ret tt.

(** [_compress_file]: the bytes copied through gzip into the file named
    with [.gz] appended, the original removed.  The size kept for the copy
    is the size of the original; no decision reads it. *)
Definition _compress_file (now : datetime) (f : log_file) : prog FileAuditStorage unit :=
  write_guard >>
  let copy :=
    mklog_file (path_name f ++ ".gz") now (st_size f)
      (match st_encoding f with Utf8 => Gzip | _ => Undecodable end)
      (file_lines f) in
  modify (fun st =>
    with_directory st (unlink (path_name f) (put_file copy (log_directory st)))).

(** [path.unlink()] on a file of the directory: a write to it. *)
Definition unlink_file (n : string) : prog FileAuditStorage unit :=
  write_guard >>
  modify (fun st => with_directory st (unlink n (log_directory st))).

(** [for old_file in ...: old_file.unlink()] *)
Fixpoint unlink_each (fs : list log_file) : prog FileAuditStorage unit :=
  match fs with
  | [] => ret tt
  | old_file :: r => unlink_file (path_name old_file) >> unlink_each r
  end.

(** [_cleanup_old_files]; nothing here catches what [unlink] raises. *)
Definition _cleanup_old_files : prog FileAuditStorage unit :=
  st <-- get ;;
  let log_files := sort_desc mtime_leb (glob st) in
  unlink_each (slice_from (max_files st) log_files).

(** [_rotate_file_if_needed] *)
Definition _rotate_file_if_needed (now : datetime) : prog FileAuditStorage unit :=
  st <-- get ;;
  match find_file (current_file st) (log_directory st) with
  | Some f =>
      if st_size f >=? max_file_size st then
        when (compress_old_files st) (_compress_file now f) >>
        _initialize_current_file now >>
        _cleanup_old_files
      else ret tt
  | None => ret tt
  end.

(** [open(path, 'a')] and [f.write(entry)]: the file is created when it
    is not there; its size and modification time move.  The time kept is
    the clock of the call as [datetime.fromtimestamp] will read it, which
    is [now], the clock [datetime.utcnow] reads, in a process whose local
    time is UTC; the stores built below by [store_event] are stores of
    such a process. *)
Definition append_line (now : datetime) (n : string) (l : line)
    : prog FileAuditStorage unit :=
  write_guard >>
  modify (fun st =>
    let f :=
      match find_file n (log_directory st) with
      | Some f =>
          mklog_file n now (st_size f + line_bytes l)
            (match st_encoding f with Utf8 => Utf8 | _ => Undecodable end)
            (file_lines f ++ [l])
      | None => mklog_file n now (line_bytes l) Utf8 [l]
      end in
    with_directory st (put_file f (log_directory st))).

Definition file_store_event (now : datetime) (event : AuditEvent)
    : prog FileAuditStorage bool :=
  try_catch
    (_rotate_file_if_needed now >>
     st <-- get ;;
     let log_entry := to_json event in
     let entry :=
       if encrypt_files st then Token (cipher_suite st) log_entry
       else Plain log_entry in
     append_line now (current_file st) entry >>
     ret true)
    (fun e =>
       file_log_error ("Failed to store audit event: " ++ exn_name e) >>
       ret false).

(** The body of the inner [try] of both readers: decrypt when the backend
    encrypts, decode, rebuild the event. *)
Definition decode_line (st : FileAuditStorage) (uuid4 : string) (l : line)
    : outcome AuditEvent :=
  text <- (if encrypt_files st then
             match l with
             | Token k d =>
                 if Nat.eqb k (cipher_suite st) then Return d
                 else Raise InvalidToken
             | Plain _ => Raise InvalidToken
             end
           else
             match l with
             | Plain d => Return d
             | Token _ _ => Raise ValueError
             end) ;;
  event_data <- json_loads text ;;
  _dict_to_event uuid4 event_data.

(** The opener picked by the suffix reads the bytes of the file. *)
Definition readable (f : log_file) : bool :=
  match st_encoding f with
  | Gzip => is_gz (path_name f)
  | Utf8 => negb (is_gz (path_name f))
  | Undecodable => false
  end.

Definition len {A : Type} (l : list A) : Z := Z.of_nat (List.length l).

(** [for line in f] of [retrieve_events]. *)
Fixpoint retrieve_lines (st : FileAuditStorage) (uuid4 : string)
    (filter : option AuditFilter) (limit : Z) (ls : list line)
    (events : list AuditEvent) : list AuditEvent :=
  match ls with
  | [] => events
  | l :: r =>
      if len events >=? limit then events
      else
        match decode_line st uuid4 l with
        | Return event =>
            retrieve_lines st uuid4 filter limit r
              (if passes filter event then events ++ [event] else events)
        | Raise _ => retrieve_lines st uuid4 filter limit r events
        end
  end.

(** [for log_file in log_files] of [retrieve_events]; the second
    component collects the messages of the outer [except]. *)
Fixpoint retrieve_files (st : FileAuditStorage) (uuid4 : string)
    (filter : option AuditFilter) (limit : Z) (fs : list log_file)
    (events : list AuditEvent) (errs : list string)
    : list AuditEvent * list string :=
  match fs with
  | [] => (events, errs)
  | f :: r =>
      if len events >=? limit then (events, errs)
      else if readable f then
        retrieve_files st uuid4 filter limit r
          (retrieve_lines st uuid4 filter limit (file_lines f) events) errs
      else
        retrieve_files st uuid4 filter limit r events
          (errs ++ ["Error reading audit file " ++ path_name f])
  end.

Definition log_errors (errs : list string) : prog FileAuditStorage unit :=
  fold_left (fun m msg => m >> file_log_error msg) errs (ret tt).

Definition file_retrieve_events (uuid4 : string) (filter : option AuditFilter)
    (limit : Z) : prog FileAuditStorage (list AuditEvent) :=
  st <-- get ;;
  let log_files := sort_desc mtime_leb (glob st) in
  let '(events, errs) := retrieve_files st uuid4 filter limit log_files [] [] in
  log_errors errs >>
  ret events.

(** [for line in f] of [get_event_count]. *)
Fixpoint count_lines (st : FileAuditStorage) (uuid4 : string)
    (filter : option AuditFilter) (ls : list line) (count : Z) : Z :=
  match ls with
  | [] => count
  | l :: r =>
      match decode_line st uuid4 l with
      | Return event =>
          count_lines st uuid4 filter r
            (if passes filter event then count + 1 else count)
      | Raise _ => count_lines st uuid4 filter r count
      end
  end.

Fixpoint count_files (st : FileAuditStorage) (uuid4 : string)
    (filter : option AuditFilter) (fs : list log_file) (count : Z)
    (errs : list string) : Z * list string :=
  match fs with
  | [] => (count, errs)
  | f :: r =>
      if readable f then
        count_files st uuid4 filter r
          (count_lines st uuid4 filter (file_lines f) count) errs
      else
        count_files st uuid4 filter r count
          (errs ++ ["Error reading audit file " ++ path_name f])
  end.

Definition file_get_event_count (uuid4 : string) (filter : option AuditFilter)
    : prog FileAuditStorage Z :=
  st <-- get ;;
  let '(count, errs) := count_files st uuid4 filter (glob st) 0 [] in
  log_errors errs >>
  ret count.

(** [cleanup_old_events]: "we clean up entire files based on modification
    time".  The loop has no [try]: what [unlink] raises leaves the call. *)
Fixpoint cleanup_files (older_than : datetime) (fs : list log_file)
    (cleaned_count : Z) : prog FileAuditStorage Z :=
  match fs with
  | [] => ret cleaned_count
  | log_file :: r =>
      if datetime_ltb (st_mtime log_file) older_than
      then unlink_file (path_name log_file) >>
           cleanup_files older_than r (cleaned_count + 1)
      else cleanup_files older_than r cleaned_count
  end.

Definition file_cleanup_old_events (older_than : datetime)
    : prog FileAuditStorage Z :=
  st <-- get ;;
  cleanup_files older_than (glob st) 0.

#[export] Instance FileAuditStorage_storage : AuditStorage FileAuditStorage := {
  store_event := file_store_event;
  retrieve_events := file_retrieve_events;
  get_event_count := file_get_event_count;
  cleanup_old_events := file_cleanup_old_events
}.

(** [FileAuditStorage.__init__] over a directory that holds [d]. *)
Definition new_FileAuditStorage (now : datetime) (d : list log_file)
    (max_file_size max_files : Z) (compress_old_files encrypt_files : bool)
    (encryption_key : option fernet_key) (generated_key : fernet_key)
    : FileAuditStorage :=
  let key := match encryption_key with Some k => k | None => generated_key end in
  snd (_initialize_current_file now
         (mkFileAuditStorage d max_file_size max_files compress_old_files
            encrypt_files key "" false [])).

(** ** DatabaseAuditStorage *)

(** One row of the table [audit_events]; a column that may be NULL is an
    option.  The two columns that hold JSON text are documents. *)
Record row : Type := mkrow {
  c_event_id : string;
  c_timestamp : string;
  c_level : string;
  c_category : string;
  c_action : string;
  c_actor : string;
  c_target : string;
  c_result : string;
  c_message : string;
  c_details : option document;
  c_source_ip : option string;
  c_user_agent : option string;
  c_session_id : option string;
  c_correlation_id : option string;
  c_compliance_frameworks : option document;
  c_risk_score : Z;
  c_sensitive_data : Z;           (* BOOLEAN: sqlite keeps the INTEGER 1 or 0 *)
  c_checksum : option string
}.

(** The statements the module sends, as far as their WHERE clause goes. *)
Inductive sqlvalue : Type :=
| SText (s : string)
| SInteger (z : Z).

Inductive column : Type := col_level | col_category | col_actor | col_timestamp.

Inductive condition : Type :=
| IN (c : column) (placeholders : nat)     (* "c IN (?, ..., ?)" *)
| BETWEEN (c : column).                    (* "c BETWEEN ? AND ?" *)

(** The order in which the engine comes upon the rows a SELECT keeps, as
    a listing of their positions in rowid order.  It follows the plan the
    engine picks for the clause (a walk of an index, a scan of the table)
    and decides nothing but the order of rows that ORDER BY leaves
    tied. *)
Definition engine_order : Type := list condition -> nat -> list nat.

Record DatabaseAuditStorage : Type := mkDatabaseAuditStorage {
  audit_events : list row;       (* the table, in rowid order *)
  row_order : engine_order;      (* how the engine orders tied rows *)
  db_fault : bool;               (* connecting raises [OperationalError] *)
  db_errors : list string        (* what [logging.error] received *)
}.

Definition db_log_error (msg : string) : prog DatabaseAuditStorage unit :=
  modify (fun db =>
    mkDatabaseAuditStorage (audit_events db) (row_order db) (db_fault db)
      (db_errors db ++ [msg])).

Definition with_rows (db : DatabaseAuditStorage) (rows : list row)
    : DatabaseAuditStorage :=
  mkDatabaseAuditStorage rows (row_order db) (db_fault db) (db_errors db).

(** [sqlite3.connect(self.db_path)] *)
Definition connect : prog DatabaseAuditStorage unit :=
  db <-- get ;;
  if db_fault db then raise OperationalError else ret tt.

(** An [outcome] inside a program. *)
Definition lift {S A : Type} (o : outcome A) : prog S A := fun s => (o, s).

Definition placeholders_of (w : condition) : nat :=
  match w with
  | IN _ n => n
  | BETWEEN _ => 2%nat
  end.

Definition column_of (c : column) (r : row) : string :=
  match c with
  | col_level => c_level r
  | col_category => c_category r
  | col_actor => c_actor r
  | col_timestamp => c_timestamp r
  end.

(** TEXT against a bound value, under the BINARY collation. *)
Definition text_eq (s : string) (v : sqlvalue) : bool :=
  match v with
  | SText t => String.eqb s t
  | SInteger _ => false
  end.

(** [lo <= s] and [s <= hi]; an INTEGER sorts before every TEXT. *)
Definition text_ge (s : string) (v : sqlvalue) : bool :=
  match v with
  | SText t => String.leb t s
  | SInteger _ => true
  end.

Definition text_le (s : string) (v : sqlvalue) : bool :=
  match v with
  | SText t => String.leb s t
  | SInteger _ => false
  end.

(** The conjunction of the conditions on one row, the parameters bound to
    the placeholders from left to right. *)
Fixpoint where_holds (ws : list condition) (params : list sqlvalue) (r : row)
    : bool :=
  match ws with
  | [] => true
  | IN c n :: ws' =>
      andb (existsb (text_eq (column_of c r)) (firstn n params))
           (where_holds ws' (skipn n params) r)
  | BETWEEN c :: ws' =>
      match params with
      | lo :: hi :: params' =>
          andb (andb (text_ge (column_of c r) lo) (text_le (column_of c r) hi))
               (where_holds ws' params' r)
      | _ => false
      end
  end.

Definition placeholders_total (ws : list condition) : nat :=
  fold_right (fun w n => (placeholders_of w + n)%nat) 0%nat ws.

(** [conn.execute(query, params)]: as many values as placeholders, or
    [sqlite3.ProgrammingError]. *)
Definition check_bindings (placeholders : nat) (params : list sqlvalue)
    : outcome unit :=
  if Nat.eqb placeholders (List.length params) then Return tt
  else Raise ProgrammingError.

(** A Python int is bound as a 64-bit INTEGER; one that does not fit
    raises [OverflowError]. *)
Definition int64 (n : Z) : bool :=
  andb (- 2 ^ 63 <=? n) (n <? 2 ^ 63).

Definition bind_value (v : sqlvalue) : bool :=
  match v with
  | SText _ => true
  | SInteger n => int64 n
  end.

(** The values are bound once their number is found right. *)
Definition bind_parameters (params : list sqlvalue) : outcome unit :=
  if forallb bind_value params then Return tt else Raise OverflowError.

Definition timestamp_leb (a b : row) : bool :=
  String.leb (c_timestamp a) (c_timestamp b).

(** The rows at the positions listed, in the order of the listing. *)
Definition visit {A : Type} (positions : list nat) (rows : list A) : list A :=
  flat_map (fun i => match nth_error rows i with
                     | Some r => [r]
                     | None => []
                     end)
           positions.

(** [LIMIT n]: a negative [n] is no limit. *)
Definition sql_limit {A : Type} (v : sqlvalue) (rows : list A) : list A :=
  match v with
  | SInteger n => if n <? 0 then rows else firstn (Z.to_nat n) rows
  | SText _ => rows
  end.

(** [SELECT * FROM audit_events WHERE ... ORDER BY timestamp DESC LIMIT ?].
    The rows the clause keeps are sorted as the engine comes upon them:
    rows with the same timestamp stay in the engine's order. *)
Definition select_events (order : engine_order) (ws : list condition)
    (params : list sqlvalue) (rows : list row) : outcome (list row) :=
  check_bindings (placeholders_total ws + 1) params ;;;
  bind_parameters params ;;;
  let n := placeholders_total ws in
  let kept := filter (where_holds ws (firstn n params)) rows in
  Return (sql_limit (nth n params (SInteger (-1)))
            (sort_desc timestamp_leb (visit (order ws (List.length kept)) kept))).

(** [SELECT COUNT( * ) FROM audit_events WHERE ...] *)
Definition select_count (ws : list condition) (params : list sqlvalue)
    (rows : list row) : outcome Z :=
  check_bindings (placeholders_total ws) params ;;;
  Return (len (filter (where_holds ws params) rows)).

(** The dict [level_hierarchy] of [retrieve_events]. *)
Definition level_hierarchy (l : AuditLevel) : list string :=
  match l with
  | DEBUG => ["COMPLIANCE"; "SECURITY"; "CRITICAL"; "ERROR"; "WARNING"; "INFO"; "DEBUG"]
  | INFO => ["COMPLIANCE"; "SECURITY"; "CRITICAL"; "ERROR"; "WARNING"; "INFO"]
  | WARNING => ["COMPLIANCE"; "SECURITY"; "CRITICAL"; "ERROR"; "WARNING"]
  | ERROR => ["COMPLIANCE"; "SECURITY"; "CRITICAL"; "ERROR"]
  | CRITICAL => ["COMPLIANCE"; "SECURITY"; "CRITICAL"]
  | SECURITY => ["COMPLIANCE"; "SECURITY"]
  | COMPLIANCE => ["COMPLIANCE"]
  end.

Definition query : Type := list condition * list sqlvalue.

Definition and_where (q : query) (w : condition) (params : list sqlvalue) : query :=
  ((fst q ++ [w])%list, (snd q ++ params)%list).

Definition where_categories (f : AuditFilter) (q : query) : query :=
  match truthy (categories f) with
  | Some cs =>
      and_where q (IN col_category (List.length cs))
        (map (fun cat => SText (AuditCategory_value cat)) cs)
  | None => q
  end.

Definition where_actors (f : AuditFilter) (q : query) : query :=
  match truthy (actors f) with
  | Some acs => and_where q (IN col_actor (List.length acs)) (map SText acs)
  | None => q
  end.

(** The WHERE clause [retrieve_events] builds. *)
Definition retrieve_query (filter : option AuditFilter) : query :=
  match filter with
  | None => ([], [])
  | Some f =>
      let q1 :=
        match min_level f with
        | Some l =>
            and_where ([], []) (IN col_level 5)
              (map SText (firstn 5 (level_hierarchy l)))
        | None => ([], [])
        end in
      let q3 := where_actors f (where_categories f q1) in
      match time_range f with
      | Some (start_time, end_time) =>
          and_where q3 (BETWEEN col_timestamp)
            [SText (isoformat start_time); SText (isoformat end_time)]
      | None => q3
      end
  end.

(** The WHERE clause [get_event_count] builds. *)
Definition count_query (filter : option AuditFilter) : query :=
  match filter with
  | None => ([], [])
  | Some f => where_actors f (where_categories f ([], []))
  end.

(** [_row_to_event] *)
Definition _row_to_event (uuid4 : string) (r : row) : outcome AuditEvent :=
  lv <- AuditLevel_of (c_level r) ;;
  cat <- AuditCategory_of (c_category r) ;;
  act <- AuditAction_of (c_action r) ;;
  ts <- fromisoformat (c_timestamp r) ;;
  det <- json_loads (match c_details r with
                     | None | Some (Garbled EmptyString) => Dumped (PDict [])
                     | Some d => d
                     end) ;;
  compliance_frameworks_data <-
    match c_compliance_frameworks r with
    | Some d => json_loads d
    | None => Raise TypeError
    end ;;
  fws <- (items <- iterate compliance_frameworks_data ;; frameworks_of items []) ;;
  det_items <- match det with PDict items => Return items | _ => Raise TypeError end ;;
  Return (new_AuditEvent uuid4 (c_event_id r) ts lv cat act (c_actor r)
            (c_target r) (c_result r) (c_message r) det_items
            (c_source_ip r) (c_user_agent r) (c_session_id r)
            (c_correlation_id r) fws (c_risk_score r)
            (Stored (c_sensitive_data r))).

(** [for row in rows: events.append(self._row_to_event(...))] *)
Fixpoint rows_to_events (uuid4 : string) (rows : list row)
    : outcome (list AuditEvent) :=
  match rows with
  | [] => Return []
  | r :: rest =>
      event <- _row_to_event uuid4 r ;;
      events <- rows_to_events uuid4 rest ;;
      Return (event :: events)
  end.

Definition event_row (event : AuditEvent) (details frameworks : document) : row :=
  mkrow (event_id event) (isoformat (timestamp event))
    (AuditLevel_value (level event)) (AuditCategory_value (category event))
    (AuditAction_value (action event)) (actor event) (target event)
    (result event) (message event) (Some details) (source_ip event)
    (user_agent event) (session_id event) (correlation_id event)
    (Some frameworks) (risk_score event)
    (flag_integer (sensitive_data event))
    (Some (calculate_checksum event)).

(** [INSERT INTO audit_events ...]: the integers are bound first, then
    the row is added; [event_id] is the primary key. *)
Definition insert (r : row) : prog DatabaseAuditStorage unit :=
  lift (bind_parameters [SInteger (c_risk_score r);
                         SInteger (c_sensitive_data r)]) >>
  db <-- get ;;
  if existsb (fun r' => String.eqb (c_event_id r') (c_event_id r)) (audit_events db)
  then raise IntegrityError
  else modify (fun db => with_rows db (audit_events db ++ [r])).

Definition db_store_event (now : datetime) (event : AuditEvent)
    : prog DatabaseAuditStorage bool :=
  try_catch
    (connect >>
     compliance_frameworks <--
       lift (json_dumps (PList (map (fun f => PStr (ComplianceFramework_value f))
                                    (compliance_frameworks event)))) ;;
     details <-- lift (json_dumps (PDict (details event))) ;;
     insert (event_row event details compliance_frameworks) >>
     ret true)
    (fun e =>
       db_log_error ("Failed to store audit event: " ++ exn_name e) >>
       ret false).

Definition db_retrieve_events (uuid4 : string) (filter : option AuditFilter)
    (limit : Z) : prog DatabaseAuditStorage (list AuditEvent) :=
  try_catch
    (connect >>
     db <-- get ;;
     let '(ws, params) := retrieve_query filter in
     rows <-- lift (select_events (row_order db) ws (params ++ [SInteger limit])
                      (audit_events db)) ;;
     lift (rows_to_events uuid4 rows))
    (fun e =>
       db_log_error ("Failed to retrieve audit events: " ++ exn_name e) >>
       ret []).

Definition db_get_event_count (uuid4 : string) (filter : option AuditFilter)
    : prog DatabaseAuditStorage Z :=
  try_catch
    (connect >>
     db <-- get ;;
     let '(ws, params) := count_query filter in
     lift (select_count ws params (audit_events db)))
    (fun e =>
       db_log_error ("Failed to get event count: " ++ exn_name e) >>
       ret 0).

(** [DELETE FROM audit_events WHERE timestamp < ?]; [cursor.rowcount]. *)
Definition db_cleanup_old_events (older_than : datetime)
    : prog DatabaseAuditStorage Z :=
  try_catch
    (connect >>
     db <-- get ;;
     let old r := String.ltb (c_timestamp r) (isoformat older_than) in
     modify (fun db => with_rows db (filter (fun r => negb (old r)) (audit_events db))) >>
     ret (len (filter old (audit_events db))))
    (fun e =>
       db_log_error ("Failed to cleanup old events: " ++ exn_name e) >>
       ret 0).

#[export] Instance DatabaseAuditStorage_storage : AuditStorage DatabaseAuditStorage := {
  store_event := db_store_event;
  retrieve_events := db_retrieve_events;
  get_event_count := db_get_event_count;
  cleanup_old_events := db_cleanup_old_events
}.

(** [DatabaseAuditStorage.__init__] over a database that holds [rows],
    the engine ordering tied rows by [order]. *)
Definition new_DatabaseAuditStorage (order : engine_order) (rows : list row)
    : DatabaseAuditStorage :=
  mkDatabaseAuditStorage rows order false [].

(** An engine that answers a clause without IN by walking [idx_timestamp]
    backwards, the row stored last first among those of one timestamp,
    and any other clause by sorting the rows it finds in rowid order. *)
Definition sqlite_order : engine_order :=
  fun ws n =>
    if existsb (fun w => match w with IN _ _ => true | BETWEEN _ => false end) ws
    then seq 0 n
    else rev (seq 0 n).

(** ** AuditLogger *)

(** An event handler: a callable that returns or raises. *)
Definition handler : Type := AuditEvent -> outcome unit.

Record AuditLogger (S : Type) : Type := mkAuditLogger {
  storage : S;
  filters : list AuditFilter;
  async_logging : bool;
  queue_maxsize : Z;
  event_queue : list AuditEvent;            (* oldest first *)
  event_handlers : list handler;
  handler_calls : list (nat * AuditEvent);  (* each call made: which handler, on what *)
  logger_errors : list string               (* what [logging.error] received *)
}.
Arguments mkAuditLogger {S}.
Arguments storage {S}.
Arguments filters {S}.
Arguments async_logging {S}.
Arguments queue_maxsize {S}.
Arguments event_queue {S}.
Arguments event_handlers {S}.
Arguments handler_calls {S}.
Arguments logger_errors {S}.

(** The optional fields a caller may pass to [log_event] by keyword;
    [None] is an argument left out. *)
Record kwargs : Type := mkkwargs {
  kw_details : option pydict;
  kw_source_ip : option string;
  kw_user_agent : option string;
  kw_session_id : option string;
  kw_correlation_id : option string;
  kw_compliance_frameworks : option framework_set;
  kw_risk_score : option Z;
  kw_sensitive_data : option bool
}.

Definition no_kwargs : kwargs :=
  mkkwargs None None None None None None None None.

Definition or_default {A : Type} (d : A) (o : option A) : A :=
  match o with
  | Some a => a
  | None => d
  end.

Section Logger.
Context {S : Type} `{AuditStorage S}.

(** [AuditLogger.__init__] *)
Definition new_AuditLogger (storage : S) (filters : option (list AuditFilter))
    (async_logging : bool) (queue_size : Z) : AuditLogger S :=
  mkAuditLogger storage (or_default [] filters) async_logging queue_size
    [] [] [] [].

Definition add_filter (f : AuditFilter) : prog (AuditLogger S) unit :=
  modify (fun lg =>
    mkAuditLogger (storage lg) (filters lg ++ [f]) (async_logging lg)
      (queue_maxsize lg) (event_queue lg) (event_handlers lg)
      (handler_calls lg) (logger_errors lg)).

Definition add_event_handler (h : handler) : prog (AuditLogger S) unit :=
  modify (fun lg =>
    mkAuditLogger (storage lg) (filters lg) (async_logging lg)
      (queue_maxsize lg) (event_queue lg) (event_handlers lg ++ [h])
      (handler_calls lg) (logger_errors lg)).

Definition logger_log_error (msg : string) : prog (AuditLogger S) unit :=
  modify (fun lg =>
    mkAuditLogger (storage lg) (filters lg) (async_logging lg)
      (queue_maxsize lg) (event_queue lg) (event_handlers lg)
      (handler_calls lg) (logger_errors lg ++ [msg])).

Definition record_call (i : nat) (event : AuditEvent) : prog (AuditLogger S) unit :=
  modify (fun lg =>
    mkAuditLogger (storage lg) (filters lg) (async_logging lg)
      (queue_maxsize lg) (event_queue lg) (event_handlers lg)
      (handler_calls lg ++ [(i, event)]) (logger_errors lg)).

Definition with_queue (lg : AuditLogger S) (q : list AuditEvent) : AuditLogger S :=
  mkAuditLogger (storage lg) (filters lg) (async_logging lg)
    (queue_maxsize lg) q (event_handlers lg)
    (handler_calls lg) (logger_errors lg).

(** A call on [self.storage]. *)
Definition on_storage {A : Type} (m : prog S A) : prog (AuditLogger S) A :=
  fun lg =>
    let '(r, st) := m (storage lg) in
    (r, mkAuditLogger st (filters lg) (async_logging lg)
          (queue_maxsize lg) (event_queue lg) (event_handlers lg)
          (handler_calls lg) (logger_errors lg)).

(** [queue.Queue.full()]: a size of zero or less is no bound. *)
Definition queue_full (lg : AuditLogger S) : bool :=
  andb (0 <? queue_maxsize lg) (queue_maxsize lg <=? len (event_queue lg)).

(** [self.event_queue.put_nowait(event)] *)
Definition put_nowait (event : AuditEvent) : prog (AuditLogger S) unit :=
  lg <-- get ;;
  if queue_full lg then raise QueueFull
  else modify (fun lg => with_queue lg (event_queue lg ++ [event])).

(** [for handler in self.event_handlers], [i] counting them. *)
Fixpoint call_handlers (i : nat) (hs : list handler) (event : AuditEvent)
    : prog (AuditLogger S) unit :=
  match hs with
  | [] => ret tt
  | h :: r =>
      try_catch
        (record_call i event >> lift (h event))
        (fun e => logger_log_error ("Event handler failed: " ++ exn_name e)) >>
      call_handlers (Datatypes.S i) r event
  end.

(** [for filter in self.filters: if not filter.should_log(event)] *)
Definition rejected (fs : list AuditFilter) (event : AuditEvent) : bool :=
  existsb (fun f => negb (should_log f event)) fs.

(** The body of [log_event] below the construction of the event. *)
Definition dispatch (now : datetime) (event : AuditEvent)
    : prog (AuditLogger S) string :=
  lg <-- get ;;
  if rejected (filters lg) event then ret (event_id event)
  else
    call_handlers 0 (event_handlers lg) event >>
    (if async_logging lg then
       try_catch (put_nowait event)
         (fun e =>
            match e with
            | QueueFull =>
                logger_log_error "Audit event queue is full, dropping event"
            | _ => raise e
            end)
     else
       on_storage (store_event now event) >> ret tt) >>
    ret (event_id event).

(** The event [log_event] constructs; [uuid4] and [now] are what
    [uuid.uuid4()] and [datetime.utcnow()] give at the call. *)
Definition log_event_event (uuid4 : string) (now : datetime)
    (level : AuditLevel) (category : AuditCategory) (action : AuditAction)
    (actor target result message : string) (kw : kwargs) : AuditEvent :=
  new_AuditEvent uuid4 uuid4 now level category action actor target result
    message (or_default [] (kw_details kw)) (kw_source_ip kw)
    (kw_user_agent kw) (kw_session_id kw) (kw_correlation_id kw)
    (or_default [] (kw_compliance_frameworks kw))
    (or_default 0 (kw_risk_score kw))
    (Flag (or_default false (kw_sensitive_data kw))).

Definition log_event (uuid4 : string) (now : datetime)
    (level : AuditLevel) (category : AuditCategory) (action : AuditAction)
    (actor target result message : string) (kw : kwargs)
    : prog (AuditLogger S) string :=
  dispatch now
    (log_event_event uuid4 now level category action actor target result
       message kw).

(** One turn of [_process_events] that finds an event in the queue. *)
Definition process_one (now : datetime) : prog (AuditLogger S) unit :=
  lg <-- get ;;
  match event_queue lg with
  | [] => ret tt
  | event :: q =>
      modify (fun lg => with_queue lg q) >>
      try_catch (on_storage (store_event now event) >> ret tt)
        (fun e => logger_log_error ("Failed to process audit event: " ++ exn_name e))
  end.

(** [log_authentication] *)
Definition log_authentication (uuid4 : string) (now : datetime)
    (actor result : string) (kw : kwargs) : prog (AuditLogger S) string :=
  log_event uuid4 now SECURITY AUTHENTICATION
    (if String.eqb result "success" then LOGIN else ACCESS_DENIED)
    actor "authentication_system" result
    ("Authentication " ++ result ++ " for " ++ actor) kw.

(** [get_events] *)
Definition get_events (uuid4 : string) (filter : option AuditFilter) (limit : Z)
    : prog (AuditLogger S) (list AuditEvent) :=
  on_storage (retrieve_events uuid4 filter limit).
End Logger.

(** The two selections of the security analysis of
    [generate_audit_report]. *)
Definition security_events (events : list AuditEvent) : list AuditEvent :=
  filter (fun e => AuditCategory_beq (category e) SECURITY_EVENT) events.

Definition failed_logins (events : list AuditEvent) : list AuditEvent :=
  filter (fun e => andb (AuditAction_beq (action e) ACCESS_DENIED)
                        (AuditCategory_beq (category e) AUTHENTICATION))
         events.

(** The ["summary"] entry of the report, but for [unique_actors]. *)
Record report_summary : Type := mkreport_summary {
  total_events : Z;
  summary_security_events : Z;
  summary_failed_logins : Z
}.

(** [generate_audit_report], as far as the summary goes; [start_time] is
    [datetime.utcnow() - timedelta(days=days_back)]. *)
Definition generate_audit_report {S : Type} `{AuditStorage S}
    (uuid4 : string) (start_time now : datetime)
    : prog (AuditLogger S) report_summary :=
  let filter := new_AuditFilter Omitted None None None None (Some (start_time, now)) in
  events <-- on_storage (retrieve_events uuid4 (Some filter) 10000) ;;
  ret (mkreport_summary (len events) (len (security_events events))
         (len (failed_logins events))).

(** * Notions the statements use *)

(** The frameworks the four rules call for on an event. *)
Definition implied (e : AuditEvent) : list ComplianceFramework :=
  ((if orb (category_is DATA_ACCESS e) (category_is DATA_MODIFICATION e)
    then [GDPR] else [])
   ++ (if orb (contains "financial" (lower (target e)))
              (category_is SYSTEM_CONFIGURATION e)
       then [SOX] else [])
   ++ (if category_is SECURITY_EVENT e then [ISO27001; SOC2; NIST] else [])
   ++ (if category_is AUTHENTICATION e then [SOC2; ISO27001; PCI_DSS] else []))%list.

(** The priority [should_log] reads for a level. *)
Definition rank (l : AuditLevel) : Z := priority_get (Some l).

(** A filter whose only criterion is its minimum level. *)
Definition only_min_level (m : option AuditLevel) : AuditFilter :=
  new_AuditFilter (Given m) None None None None None.

(** [AuditFilter()], no argument supplied. *)
Definition unset_filter : AuditFilter :=
  new_AuditFilter Omitted None None None None None.

(** The filter with its minimum level taken away, the other criteria
    kept. *)
Definition drop_min_level (f : AuditFilter) : AuditFilter :=
  mkAuditFilter None (categories f) (actors f) (exclude_actors f)
    (filter_frameworks f) (time_range f).

(** A debug event as [log_event] builds it. *)
Definition debug_event : AuditEvent :=
  log_event_event "00000000-0000-4000-8000-000000000001"
    (mkdatetime 2024 1 1 0 0 0 0) DEBUG PERFORMANCE READ "svc" "cache" "success"
    "cache probe" no_kwargs.

(** The test of the comprehension that builds [failed_logins]. *)
Definition is_failed_login (e : AuditEvent) : bool :=
  andb (AuditAction_beq (action e) ACCESS_DENIED)
       (AuditCategory_beq (category e) AUTHENTICATION).

(** The event [log_authentication] hands to [log_event]. *)
Definition authentication_event (uuid4 : string) (now : datetime)
    (actor result : string) (kw : kwargs) : AuditEvent :=
  log_event_event uuid4 now SECURITY AUTHENTICATION
    (if String.eqb result "success" then LOGIN else ACCESS_DENIED)
    actor "authentication_system" result
    ("Authentication " ++ result ++ " for " ++ actor) kw.

(** The line [store_event] writes for an event. *)
Definition entry_of (st : FileAuditStorage) (event : AuditEvent) : line :=
  if encrypt_files st then Token (cipher_suite st) (to_json event)
  else Plain (to_json event).

(** The calls a pass over the handlers makes, the first handler numbered
    [i]. *)
Fixpoint calls_from (i : nat) (hs : list handler) (event : AuditEvent)
    : list (nat * AuditEvent) :=
  match hs with
  | [] => []
  | _ :: r => (i, event) :: calls_from (Datatypes.S i) r event
  end.

(** The messages logged for the handlers that raise. *)
Fixpoint handler_failures (hs : list handler) (event : AuditEvent) : list string :=
  match hs with
  | [] => []
  | h :: r =>
      match h event with
      | Return _ => handler_failures r event
      | Raise e => ("Event handler failed: " ++ exn_name e) :: handler_failures r event
      end
  end.

(** The logger once every handler has been called on [event]. *)
Definition after_handlers {S : Type} (lg : AuditLogger S) (event : AuditEvent)
    : AuditLogger S :=
  mkAuditLogger (storage lg) (filters lg) (async_logging lg)
    (queue_maxsize lg) (event_queue lg) (event_handlers lg)
    (handler_calls lg ++ calls_from 0 (event_handlers lg) event)
    (logger_errors lg ++ handler_failures (event_handlers lg) event).

(** Four instants of one morning, a second apart. *)
Definition ten_o_clock : datetime := mkdatetime 2024 1 1 10 0 0 0.

(** An asynchronous logger over an empty database, with no filter, one
    handler and a queue of capacity one that already holds an event. *)
Definition full_logger : AuditLogger DatabaseAuditStorage :=
  let lg0 := new_AuditLogger (new_DatabaseAuditStorage sqlite_order []) None true 1 in
  let lg1 := snd (add_event_handler (fun _ => Return tt) lg0) in
  snd (log_event "00000000-0000-4000-8000-000000000001" ten_o_clock INFO
         API_CALL READ "alice" "orders" "success" "first call" no_kwargs lg1).

(** A second call of [log_event] on that logger, and the event it
    constructs. *)
Definition second_call : prog (AuditLogger DatabaseAuditStorage) string :=
  log_event "00000000-0000-4000-8000-000000000002" ten_o_clock INFO API_CALL
    READ "alice" "orders" "success" "second call" no_kwargs.

Definition second_event : AuditEvent :=
  log_event_event "00000000-0000-4000-8000-000000000002" ten_o_clock INFO
    API_CALL READ "alice" "orders" "success" "second call" no_kwargs.

(** The fraction [isoformat] writes after the seconds. *)
Definition fraction (us : Z) : string :=
  if us =? 0 then "" else "." ++ zpad 6 us.

(** A file [cleanup_old_events] deletes: one the pattern selects, last
    written strictly before the instant. *)
Definition stale (older_than : datetime) (f : log_file) : bool :=
  andb (matches_pattern (path_name f)) (datetime_ltb (st_mtime f) older_than).

(** A row [cleanup_old_events] deletes: its timestamp text sorts strictly
    before the text of the instant. *)
Definition expired (older_than : datetime) (r : row) : bool :=
  String.ltb (c_timestamp r) (isoformat older_than).

Definition one_past_ten : datetime := mkdatetime 2024 1 1 10 0 1 0.

Definition two_past_ten : datetime := mkdatetime 2024 1 1 10 0 2 0.

Definition three_past_ten : datetime := mkdatetime 2024 1 1 10 0 3 0.

(** Two data-access events as [log_event] builds them, at 10:00:00 and at
    10:00:02. *)
Definition old_event : AuditEvent :=
  log_event_event "00000000-0000-4000-8000-00000000000a" ten_o_clock INFO
    DATA_ACCESS READ "alice" "orders" "success" "read orders" no_kwargs.

Definition new_event : AuditEvent :=
  log_event_event "00000000-0000-4000-8000-00000000000b" two_past_ten INFO
    DATA_ACCESS READ "bob" "orders" "success" "read orders" no_kwargs.

(** A file backend that has stored [old_event] at 10:00:00 and
    [new_event] at 10:00:02, both in its one log file. *)
Definition two_event_store : FileAuditStorage :=
  let st0 :=
    new_FileAuditStorage ten_o_clock [] (100 * 1024 * 1024) 10 true false None 0%nat in
  let st1 := snd (store_event ten_o_clock old_event st0) in
  snd (store_event two_past_ten new_event st1).

(** Induction on values through the lists they nest in. *)
Section PyvalInduction.
Variable P : pyval -> Prop.
Hypothesis HNone : P PNone.
Hypothesis HBool : forall b, P (PBool b).
Hypothesis HInt : forall z, P (PInt z).
Hypothesis HStr : forall s, P (PStr s).
Hypothesis HObj : forall s, P (PObj s).
Hypothesis HList : forall items, Forall P items -> P (PList items).
Hypothesis HDict :
  forall items, Forall (fun kv => P (snd kv)) items -> P (PDict items).

Fixpoint pyval_nested_ind (v : pyval) : P v :=
  match v with
  | PNone => HNone
  | PBool b => HBool b
  | PInt z => HInt z
  | PStr s => HStr s
  | PObj s => HObj s
  | PList items =>
      HList items
        ((fix go (l : list pyval) : Forall P l :=
            match l with
            | [] => Forall_nil P
            | x :: r => Forall_cons x (pyval_nested_ind x) (go r)
            end) items)
  | PDict items =>
      HDict items
        ((fix go (l : list (string * pyval)) : Forall (fun kv => P (snd kv)) l :=
            match l with
            | [] => Forall_nil _
            | kv :: r => Forall_cons kv (pyval_nested_ind (snd kv)) (go r)
            end) items)
  end.
End PyvalInduction.

(** What a reader does with a stored text: decode it, rebuild the
    event. *)
Definition read_event (uuid4 : string) (d : document) : outcome AuditEvent :=
  event_data <- json_loads d ;;
  _dict_to_event uuid4 event_data.

(** What construction leaves true of an event: a drawn id, a timestamp the
    [datetime] type admits, and a framework set with every derived
    framework in it. *)
Record constructed (e : AuditEvent) : Prop := {
  has_event_id : event_id e <> "";
  has_timestamp : valid_datetime (timestamp e);
  frameworks_distinct : NoDup (compliance_frameworks e);
  frameworks_derived :
    assign_frameworks e (compliance_frameworks e) = compliance_frameworks e
}.

(** Equality of two events as Python compares them: field by field, the
    details as mappings, the framework sets as sets. *)
Definition same_mapping (d1 d2 : pydict) : Prop :=
  forall k, lookup k d1 = lookup k d2.

Definition same_set (s1 s2 : framework_set) : Prop :=
  forall f, In f s1 <-> In f s2.

Definition field_equal (e1 e2 : AuditEvent) : Prop :=
  event_id e1 = event_id e2 /\ timestamp e1 = timestamp e2
  /\ level e1 = level e2 /\ category e1 = category e2
  /\ action e1 = action e2 /\ actor e1 = actor e2 /\ target e1 = target e2
  /\ result e1 = result e2 /\ message e1 = message e2
  /\ same_mapping (details e1) (details e2)
  /\ source_ip e1 = source_ip e2 /\ user_agent e1 = user_agent e2
  /\ session_id e1 = session_id e2 /\ correlation_id e1 = correlation_id e2
  /\ same_set (compliance_frameworks e1) (compliance_frameworks e2)
  /\ risk_score e1 = risk_score e2
  /\ flag_integer (sensitive_data e1) = flag_integer (sensitive_data e2).

(** A data-access event as [log_event] builds it, with the given
    [details]. *)
Definition customers_read (d : pydict) : AuditEvent :=
  log_event_event "00000000-0000-4000-8000-00000000000c" ten_o_clock INFO
    DATA_ACCESS READ "alice" "customer_database" "success"
    "Data read on customer_database by alice"
    (mkkwargs (Some d) None None None None None None None).

(** The same two items, entered in the two possible orders. *)
Definition table_first : pydict :=
  [("table", PStr "customers"); ("records_accessed", PInt 150)].

Definition records_first : pydict :=
  [("records_accessed", PInt 150); ("table", PStr "customers")].

(** A synchronous logger over an empty log directory, after two calls of
    [log_event], the first at 10:00:00 and the second at 10:00:02. *)
Definition two_call_file_logger : AuditLogger FileAuditStorage :=
  let st0 :=
    new_FileAuditStorage ten_o_clock [] (100 * 1024 * 1024) 10 true false None 0%nat in
  let lg0 := new_AuditLogger st0 None false 0 in
  let lg1 :=
    snd (log_event "00000000-0000-4000-8000-00000000000a" ten_o_clock INFO
           DATA_ACCESS READ "alice" "orders" "success" "read orders" no_kwargs lg0) in
  snd (log_event "00000000-0000-4000-8000-00000000000b" two_past_ten INFO
         DATA_ACCESS READ "bob" "orders" "success" "read orders" no_kwargs lg1).

(** The same two calls on a synchronous logger over an empty database. *)
Definition two_call_db_logger : AuditLogger DatabaseAuditStorage :=
  let lg0 := new_AuditLogger (new_DatabaseAuditStorage sqlite_order []) None false 0 in
  let lg1 :=
    snd (log_event "00000000-0000-4000-8000-00000000000a" ten_o_clock INFO
           DATA_ACCESS READ "alice" "orders" "success" "read orders" no_kwargs lg0) in
  snd (log_event "00000000-0000-4000-8000-00000000000b" two_past_ten INFO
         DATA_ACCESS READ "bob" "orders" "success" "read orders" no_kwargs lg1).

(** A filter that every event passes. *)
Definition accept_all : AuditFilter := only_min_level (Some DEBUG).

(** A filter with no minimum level and the window 10:00:01 to 10:00:03. *)
Definition late_window : AuditFilter :=
  new_AuditFilter (Given None) None None None None
    (Some (one_past_ten, three_past_ten)).

(** The events one line contributes: the event it decodes to when the
    filter passes it, nothing when it is malformed or filtered out. *)
Definition line_events (st : FileAuditStorage) (uuid4 : string)
    (filter : option AuditFilter) (l : line) : list AuditEvent :=
  match decode_line st uuid4 l with
  | Return event => if passes filter event then [event] else []
  | Raise _ => []
  end.

Definition file_events (st : FileAuditStorage) (uuid4 : string)
    (filter : option AuditFilter) (f : log_file) : list AuditEvent :=
  if readable f then flat_map (line_events st uuid4 filter) (file_lines f)
  else [].

(** The row [store_event] inserts for an event whose details JSON
    represents. *)
Definition stored_row (e : AuditEvent) : row :=
  event_row e (Dumped (PDict (details e)))
    (Dumped (PList (map (fun f => PStr (ComplianceFramework_value f))
                        (compliance_frameworks e)))).

(** An event [store_event] can insert and a reader can rebuild. *)
Definition storable (e : AuditEvent) : Prop :=
  constructed e /\ json_native (PDict (details e)) = true.

(** The event as the database backend gives it back: [sensitive_data]
    is the INTEGER the row keeps. *)
Definition read_back (e : AuditEvent) : AuditEvent :=
  mkAuditEvent (event_id e) (timestamp e) (level e) (category e) (action e)
    (actor e) (target e) (result e) (message e) (details e) (source_ip e)
    (user_agent e) (session_id e) (correlation_id e)
    (compliance_frameworks e) (risk_score e)
    (Stored (flag_integer (sensitive_data e))).


(** [a] is not newer than [b]. *)
Definition not_newer (a b : AuditEvent) : bool :=
  datetime_leb (timestamp a) (timestamp b).

(** Newest first: each event is followed by one that is not newer. *)
Inductive newest_first : list AuditEvent -> Prop :=
| newest_first_nil : newest_first []
| newest_first_one : forall e, newest_first [e]
| newest_first_cons :
    forall a b r,
      not_newer b a = true -> newest_first (b :: r) ->
      newest_first (a :: b :: r).

(** The rows [LIMIT] keeps, as events. *)
Definition limited (limit : Z) (es : list AuditEvent) : list AuditEvent :=
  if limit <? 0 then es else firstn (Z.to_nat limit) es.

(** ** The convenience wrappers and the queries of AuditLogger *)

Definition with_kw_details (kw : kwargs) (d : pydict) : kwargs :=
  mkkwargs (Some d) (kw_source_ip kw) (kw_user_agent kw) (kw_session_id kw)
    (kw_correlation_id kw) (kw_compliance_frameworks kw) (kw_risk_score kw)
    (kw_sensitive_data kw).

Definition with_kw_frameworks (kw : kwargs) (s : framework_set) : kwargs :=
  mkkwargs (kw_details kw) (kw_source_ip kw) (kw_user_agent kw)
    (kw_session_id kw) (kw_correlation_id kw) (Some s) (kw_risk_score kw)
    (kw_sensitive_data kw).

(** The events the other five wrappers hand to [log_event]. *)
Definition data_access_event (uuid4 : string) (now : datetime)
    (actor target : string) (action : AuditAction) (result : string)
    (kw : kwargs) : AuditEvent :=
  log_event_event uuid4 now INFO DATA_ACCESS action actor target result
    ("Data " ++ AuditAction_value action ++ " on " ++ target ++ " by " ++ actor)
    kw.

Definition security_event (uuid4 : string) (now : datetime)
    (actor target message : string) (kw : kwargs) : AuditEvent :=
  log_event_event uuid4 now SECURITY SECURITY_EVENT ACCESS_DENIED actor target
    "detected" message kw.

Definition configuration_change_event (uuid4 : string) (now : datetime)
    (actor target : string) (details : pydict) (kw : kwargs) : AuditEvent :=
  log_event_event uuid4 now WARNING SYSTEM_CONFIGURATION CONFIGURATION_CHANGED
    actor target "success" ("Configuration changed for " ++ target)
    (with_kw_details kw details).

Definition user_management_event (uuid4 : string) (now : datetime)
    (actor target : string) (action : AuditAction) (kw : kwargs) : AuditEvent :=
  log_event_event uuid4 now INFO USER_MANAGEMENT action actor target "success"
    ("User management: " ++ AuditAction_value action ++ " for " ++ target) kw.

Definition compliance_event (uuid4 : string) (now : datetime)
    (framework : ComplianceFramework) (actor target message : string)
    (kw : kwargs) : AuditEvent :=
  log_event_event uuid4 now COMPLIANCE COMPLIANCE_EVENT APPROVE actor target
    "logged" message (with_kw_frameworks kw [framework]).

Section LoggerWrappers.
Context {S : Type} `{AuditStorage S}.

(** [log_data_access] *)
Definition log_data_access (uuid4 : string) (now : datetime)
    (actor target : string) (action : AuditAction) (result : string)
    (kw : kwargs) : prog (AuditLogger S) string :=
  log_event uuid4 now INFO DATA_ACCESS action actor target result
    ("Data " ++ AuditAction_value action ++ " on " ++ target ++ " by " ++ actor)
    kw.

(** [log_security_event] *)
Definition log_security_event (uuid4 : string) (now : datetime)
    (actor target message : string) (kw : kwargs)
    : prog (AuditLogger S) string :=
  log_event uuid4 now SECURITY SECURITY_EVENT ACCESS_DENIED actor target
    "detected" message kw.

(** [log_configuration_change]; [details] is a parameter of its own, so
    the keywords cannot hold it a second time. *)
Definition log_configuration_change (uuid4 : string) (now : datetime)
    (actor target : string) (details : pydict) (kw : kwargs)
    : prog (AuditLogger S) string :=
  log_event uuid4 now WARNING SYSTEM_CONFIGURATION CONFIGURATION_CHANGED
    actor target "success" ("Configuration changed for " ++ target)
    (with_kw_details kw details).

(** [log_user_management] *)
Definition log_user_management (uuid4 : string) (now : datetime)
    (actor target : string) (action : AuditAction) (kw : kwargs)
    : prog (AuditLogger S) string :=
  log_event uuid4 now INFO USER_MANAGEMENT action actor target "success"
    ("User management: " ++ AuditAction_value action ++ " for " ++ target) kw.

(** [log_compliance_event]: it passes [compliance_frameworks={framework}]
    itself, so a caller who passes that keyword too gets the [TypeError] of
    a keyword given twice. *)
Definition log_compliance_event (uuid4 : string) (now : datetime)
    (framework : ComplianceFramework) (actor target message : string)
    (kw : kwargs) : prog (AuditLogger S) string :=
  match kw_compliance_frameworks kw with
  | Some _ => raise TypeError
  | None =>
      log_event uuid4 now COMPLIANCE COMPLIANCE_EVENT APPROVE actor target
        "logged" message (with_kw_frameworks kw [framework])
  end.

(** [get_events_by_actor]; [limit] defaults to 100. *)
Definition get_events_by_actor (uuid4 : string) (actor : string)
    (limit : keyword Z) : prog (AuditLogger S) (list AuditEvent) :=
  let filter := new_AuditFilter Omitted None (Some [actor]) None None None in
  on_storage (retrieve_events uuid4 (Some filter) (keyword_or 100 limit)).

(** [get_events_by_category] *)
Definition get_events_by_category (uuid4 : string) (category : AuditCategory)
    (limit : keyword Z) : prog (AuditLogger S) (list AuditEvent) :=
  let filter := new_AuditFilter Omitted (Some [category]) None None None None in
  on_storage (retrieve_events uuid4 (Some filter) (keyword_or 100 limit)).

(** [get_security_events]; [start_time] is
    [datetime.utcnow() - timedelta(hours=hours_back)] and [end_time] the
    second reading of the clock. *)
Definition get_security_events (uuid4 : string) (start_time end_time : datetime)
    (limit : keyword Z) : prog (AuditLogger S) (list AuditEvent) :=
  let filter :=
    new_AuditFilter Omitted (Some [SECURITY_EVENT]) None None None
      (Some (start_time, end_time)) in
  on_storage (retrieve_events uuid4 (Some filter) (keyword_or 100 limit)).

(** [get_compliance_events]; [start_time] is
    [datetime.utcnow() - timedelta(days=days_back)]. *)
Definition get_compliance_events (uuid4 : string)
    (framework : ComplianceFramework) (start_time end_time : datetime)
    : prog (AuditLogger S) (list AuditEvent) :=
  let filter :=
    new_AuditFilter Omitted None None None (Some [framework])
      (Some (start_time, end_time)) in
  on_storage (retrieve_events uuid4 (Some filter) 10000).

(** [_process_events] for [n] turns that each find the clock at [now]. *)
Fixpoint process_turns (now : datetime) (n : nat) : prog (AuditLogger S) unit :=
  match n with
  | O => ret tt
  | Datatypes.S m => process_one now >> process_turns now m
  end.
End LoggerWrappers.

(** The test of the SOX rule on the target. *)
Definition mentions_financial (target : string) : Prop :=
  contains "financial" (lower target) = true.

(** ** Notions for the database queries *)




(** The level column holds the value of a level, as every row
    [store_event] writes does. *)
Definition level_stored (r : row) : Prop :=
  exists lv, c_level r = AuditLevel_value lv.

(** A fault-free database whose table holds the rows of [es]. *)
Definition database_of (order : engine_order) (es : list AuditEvent)
    (errs : list string) : DatabaseAuditStorage :=
  mkDatabaseAuditStorage (map stored_row es) order false errs.

(** The listing is one of the positions of [n] rows, each once. *)
Definition lists_each_row (order : engine_order) : Prop :=
  forall ws n, Permutation (order ws n) (seq 0 n).

(** Every placeholder of the clause has its parameter. *)
Definition bound (q : query) : Prop :=
  placeholders_total (fst q) = List.length (snd q).

(** ** Notions for the worker of the asynchronous logger *)

(** The storage after [store_event] of each event in turn, the clock at
    [now]. *)
Definition store_all {S : Type} `{AuditStorage S} (now : datetime)
    (events : list AuditEvent) (st : S) : S :=
  fold_left (fun st event => snd (store_event now event st)) events st.

(** ** Notions for storing into the file backend *)

(** The name [_initialize_current_file] gives the current file at some
    instant. *)
Definition current_file_initialized (st : FileAuditStorage) : Prop :=
  exists t, current_file st = "audit_" ++ strftime_compact t ++ ".log".

(** No two files of the directory have the same name. *)
Definition distinct_names (st : FileAuditStorage) : Prop :=
  NoDup (map path_name (log_directory st)).


(** ** Notions for the files rotation keeps *)

(** Every element is followed only by elements that are not above it. *)
Fixpoint descending {A : Type} (leb : A -> A -> bool) (l : list A) : Prop :=
  match l with
  | [] => True
  | x :: r => Forall (fun y => leb y x = true) r /\ descending leb r
  end.

(** ** The counts of generate_audit_report *)

(** [d[k] = v] on the items of a dict: a key already there keeps its
    place. *)
Fixpoint dict_set {A : Type} (k : string) (v : A) (items : list (string * A))
    : list (string * A) :=
  match items with
  | [] => [(k, v)]
  | (k', v') :: r =>
      if String.eqb k k' then (k', v) :: r else (k', v') :: dict_set k v r
  end.

(** [d.get(k, default)] *)
Definition dict_get {A : Type} (k : string) (items : list (string * A))
    (default : A) : A :=
  match lookup k items with
  | Some v => v
  | None => default
  end.

(** [for event in events: d[key] = d.get(key, 0) + 1], from the empty
    dict. *)
Definition counted_by (key : AuditEvent -> string) (events : list AuditEvent)
    : list (string * Z) :=
  fold_left (fun d event => dict_set (key event) (dict_get (key event) d 0 + 1) d)
            events [].

(** [strftime("%Y-%m-%d")], for the years of four digits. *)
Definition strftime_date (d : datetime) : string :=
  zpad 4 (year d) ++ "-" ++ zpad 2 (month d) ++ "-" ++ zpad 2 (day d).

Definition events_by_level (events : list AuditEvent) : list (string * Z) :=
  counted_by (fun event => AuditLevel_value (level event)) events.

Definition events_by_category (events : list AuditEvent) : list (string * Z) :=
  counted_by (fun event => AuditCategory_value (category event)) events.

Definition events_by_actor (events : list AuditEvent) : list (string * Z) :=
  counted_by actor events.

Definition events_by_day (events : list AuditEvent) : list (string * Z) :=
  counted_by (fun event => strftime_date (timestamp event)) events.

(** ["unique_actors": len(events_by_actor)] *)
Definition unique_actors (events : list AuditEvent) : Z :=
  len (events_by_actor events).

(** [dict(sorted(events_by_actor.items(), key=lambda x: x[1],
    reverse=True)[:10])]; the sort is stable. *)
Definition top_actors (events : list AuditEvent) : list (string * Z) :=
  firstn 10 (sort_desc (fun a b => snd a <=? snd b) (events_by_actor events)).

(** The sum of the values of a dict of counts. *)
Definition counts_total (d : list (string * Z)) : Z :=
  fold_right (fun kv n => snd kv + n) 0 d.

(** ** AuditReporter *)

(** [len([e for e in events if p(e)])] *)
Definition count_if (p : AuditEvent -> bool) (events : list AuditEvent) : Z :=
  len (filter p events).

(** [e.action in [AuditAction.READ, AuditAction.UPDATE]] *)
Definition reads_or_updates (e : AuditEvent) : bool :=
  orb (AuditAction_beq (action e) READ) (AuditAction_beq (action e) UPDATE).

Record sox_report : Type := mksox_report {
  sox_framework : string;
  sox_period_days : Z;
  sox_total_events : Z;
  financial_data_events : Z;
  configuration_changes : Z;
  data_access_events : Z;
  financial_reporting_access : Z;    (* key_controls *)
  system_changes : Z;
  privileged_access : Z;
  sox_events : list pydict
}.

(** [_generate_sox_report] *)
Definition _generate_sox_report (events : list AuditEvent) (days_back : Z)
    : sox_report :=
  let financial e :=
    orb (contains "financial" (lower (target e)))
        (contains "finance" (lower (message e))) in
  let config e := AuditCategory_beq (category e) SYSTEM_CONFIGURATION in
  let financial_events := filter financial events in
  mksox_report "SOX" days_back (len events)
    (len financial_events)
    (count_if config events)
    (count_if (fun e => AuditCategory_beq (category e) DATA_ACCESS) events)
    (count_if reads_or_updates financial_events)
    (count_if config events)
    (count_if (fun e => orb (contains "admin" (lower (actor e)))
                            (contains "root" (lower (actor e)))) events)
    (map to_dict (firstn 100 events)).

Record gdpr_report : Type := mkgdpr_report {
  gdpr_framework : string;
  gdpr_period_days : Z;
  gdpr_total_events : Z;
  personal_data_events : Z;
  consent_events : Z;
  data_exports : Z;
  data_deletions : Z;
  exercised_data_exports : Z;        (* rights_exercised *)
  exercised_data_deletions : Z;
  access_requests : Z;
  gdpr_events : list pydict
}.

(** [_generate_gdpr_report] *)
Definition _generate_gdpr_report (events : list AuditEvent) (days_back : Z)
    : gdpr_report :=
  let exported e := AuditAction_beq (action e) EXPORT in
  let deleted e :=
    andb (AuditAction_beq (action e) DELETE) (truth (sensitive_data e)) in
  mkgdpr_report "GDPR" days_back (len events)
    (count_if (fun e => orb (AuditCategory_beq (category e) DATA_ACCESS)
                            (AuditCategory_beq (category e) DATA_MODIFICATION))
              events)
    (count_if (fun e => contains "consent" (lower (message e))) events)
    (count_if exported events)
    (count_if deleted events)
    (count_if exported events)
    (count_if deleted events)
    (count_if (fun e => contains "access_request" (lower (message e))) events)
    (map to_dict (firstn 100 events)).

Record pci_report : Type := mkpci_report {
  pci_framework : string;
  pci_period_days : Z;
  pci_total_events : Z;
  payment_related_events : Z;
  authentication_events : Z;
  authorization_events : Z;
  access_control : Z;                (* security_requirements *)
  authentication : Z;
  cardholder_data_access : Z;
  pci_events : list pydict
}.

(** [_generate_pci_report] *)
Definition _generate_pci_report (events : list AuditEvent) (days_back : Z)
    : pci_report :=
  let payment e :=
    existsb (fun term => contains term (lower (target e)))
            ["payment"; "card"; "transaction"] in
  let auth e := AuditCategory_beq (category e) AUTHENTICATION in
  let access e := AuditCategory_beq (category e) AUTHORIZATION in
  let payment_events := filter payment events in
  mkpci_report "PCI_DSS" days_back (len events)
    (len payment_events)
    (count_if auth events)
    (count_if access events)
    (count_if access events)
    (count_if auth events)
    (count_if reads_or_updates payment_events)
    (map to_dict (firstn 100 events)).

Record generic_report : Type := mkgeneric_report {
  generic_framework : string;
  generic_period_days : Z;
  generic_total_events : Z;
  generic_events_by_category : list (string * Z);
  generic_events_by_level : list (string * Z);
  generic_events : list pydict
}.

(** [_generate_generic_compliance_report] *)
Definition _generate_generic_compliance_report (framework : ComplianceFramework)
    (events : list AuditEvent) (days_back : Z) : generic_report :=
  mkgeneric_report (ComplianceFramework_value framework) days_back (len events)
    (map (fun cat =>
            (AuditCategory_value cat,
             count_if (fun e => AuditCategory_beq (category e) cat) events))
         all_AuditCategory)
    (map (fun lv =>
            (AuditLevel_value lv,
             count_if (fun e => AuditLevel_beq (level e) lv) events))
         all_AuditLevel)
    (map to_dict (firstn 100 events)).

Inductive compliance_report : Type :=
| SoxReport (r : sox_report)
| GdprReport (r : gdpr_report)
| PciReport (r : pci_report)
| GenericReport (r : generic_report).

(** The report a framework gets from the events retrieved for it. *)
Definition framework_report (framework : ComplianceFramework)
    (events : list AuditEvent) (days_back : Z) : compliance_report :=
  match framework with
  | SOX => SoxReport (_generate_sox_report events days_back)
  | GDPR => GdprReport (_generate_gdpr_report events days_back)
  | PCI_DSS => PciReport (_generate_pci_report events days_back)
  | _ =>
      GenericReport (_generate_generic_compliance_report framework events days_back)
  end.

(** [generate_compliance_report]; [start_time] is
    [datetime.utcnow() - timedelta(days=days_back)] as
    [get_compliance_events] computes it, [end_time] its second reading of
    the clock. *)
Definition generate_compliance_report {S : Type} `{AuditStorage S}
    (uuid4 : string) (framework : ComplianceFramework)
    (start_time end_time : datetime) (days_back : Z)
    : prog (AuditLogger S) compliance_report :=
  events <-- get_compliance_events uuid4 framework start_time end_time ;;
  ret (framework_report framework events days_back).

(** What every framework report says of the events it was built from. *)
Definition report_total_events (r : compliance_report) : Z :=
  match r with
  | SoxReport r => sox_total_events r
  | GdprReport r => gdpr_total_events r
  | PciReport r => pci_total_events r
  | GenericReport r => generic_total_events r
  end.

Definition report_framework (r : compliance_report) : string :=
  match r with
  | SoxReport r => sox_framework r
  | GdprReport r => gdpr_framework r
  | PciReport r => pci_framework r
  | GenericReport r => generic_framework r
  end.

Definition report_events (r : compliance_report) : list pydict :=
  match r with
  | SoxReport r => sox_events r
  | GdprReport r => gdpr_events r
  | PciReport r => pci_events r
  | GenericReport r => generic_events r
  end.

(** ** Notions for the counts of the reports *)

(** [d] counts the events by [key]: a key is there exactly when an event
    has it, once, with the number of those events. *)
Definition counts_of (key : AuditEvent -> string) (events : list AuditEvent)
    (d : list (string * Z)) : Prop :=
  NoDup (map fst d)
  /\ counts_total d = len events
  /\ forall k,
       lookup k d
       = (let n := count_if (fun e => String.eqb (key e) k) events in
          if n =? 0 then None else Some n).

(** A file backend that rotates at one byte, after it has stored
    [old_event]: its current file is due for rotation. *)
Definition rotation_due_store : FileAuditStorage :=
  snd (store_event ten_o_clock old_event
         (new_FileAuditStorage ten_o_clock [] 1 10 true false None 0%nat)).

(** ** Notions for the events the readers rebuild *)

(** The event carries every framework its category and target imply. *)
Definition carries_implied (e : AuditEvent) : Prop :=
  forall f, In f (implied e) -> In f (compliance_frameworks e).

(** A line the backend cannot decrypt: written under another key, or in
    the clear while the backend decrypts. *)
Definition foreign_line (st : FileAuditStorage) (l : line) : Prop :=
  encrypt_files st = true
  /\ match l with
     | Token k _ => k <> cipher_suite st
     | Plain _ => True
     end.

(** The row with its checksum column replaced. *)
Definition with_checksum (r : row) (checksum : option string) : row :=
  mkrow (c_event_id r) (c_timestamp r) (c_level r) (c_category r) (c_action r)
    (c_actor r) (c_target r) (c_result r) (c_message r) (c_details r)
    (c_source_ip r) (c_user_agent r) (c_session_id r) (c_correlation_id r)
    (c_compliance_frameworks r) (c_risk_score r) (c_sensitive_data r) checksum.

(** The backend over a directory that refuses every write. *)
Definition read_only (st : FileAuditStorage) : FileAuditStorage :=
  mkFileAuditStorage (log_directory st) (max_file_size st) (max_files st)
    (compress_old_files st) (encrypt_files st) (cipher_suite st)
    (current_file st) true (file_errors st).

(** A directory of three archives, where [max_files] is two. *)
Definition crowded_store : FileAuditStorage :=
  mkFileAuditStorage
    [mklog_file "audit_20240101_100000.log.gz" ten_o_clock 0 Gzip [];
     mklog_file "audit_20240101_100002.log.gz" two_past_ten 0 Gzip [];
     mklog_file "audit_20240101_100001.log.gz" one_past_ten 0 Gzip []]
    (100 * 1024 * 1024) 2 true false 0%nat "audit_20240101_100003.log" false [].

(** ** The order CPython lists a set in *)

(** [to_dict] above writes the framework array in the order the set was
    built.  CPython lists a set in the order of its hash table, which
    follows the hashes of the members (for an Enum member the hash of its
    name, salted for each process) and the order they were added in.  The
    table of [setobject.c] is modelled here as far as that order goes:
    open addressing over a power of two of slots, a collision answered by
    a run of linear probes where the table leaves room for one and then
    by the perturbed recurrence, the table rebuilt four times the size
    once three fifths full. *)
Module PySet.

Definition table : Type := list (option ComplianceFramework).

Definition LINEAR_PROBES : Z := 9.
Definition PERTURB_SHIFT : Z := 5.
Definition PySet_MINSIZE : nat := 8.

(** [(size_t)hash] *)
Definition unsigned (h : Z) : Z := h mod 2 ^ 64.

Definition same_key (a b : ComplianceFramework) : bool :=
  if ComplianceFramework_eq_dec a b then true else false.

(** The entries [i], [i + 1], ..., [i + probes]: the first that is unused
    or holds the key. *)
Fixpoint scan (t : table) (key : ComplianceFramework) (i probes : nat)
    : option nat :=
  match nth i t None with
  | None => Some i
  | Some k =>
      if same_key k key then Some i
      else match probes with
           | O => None
           | S p => scan t key (S i) p
           end
  end.

(** The loop of [set_add_entry] and of [set_insert_clean]. *)
Fixpoint find_entry (fuel : nat) (t : table) (key : ComplianceFramework)
    (mask i perturb : Z) : option nat :=
  match fuel with
  | O => None
  | S fuel' =>
      let probes := if i + LINEAR_PROBES <=? mask then LINEAR_PROBES else 0 in
      match scan t key (Z.to_nat i) (Z.to_nat probes) with
      | Some entry => Some entry
      | None =>
          let perturb' := Z.shiftr perturb PERTURB_SHIFT in
          find_entry fuel' t key mask
            (Z.land (i * 5 + 1 + perturb') mask) perturb'
      end
  end.

Fixpoint put (t : table) (i : nat) (key : ComplianceFramework) : table :=
  match t, i with
  | [], _ => []
  | _ :: r, O => Some key :: r
  | x :: r, S j => x :: put r j key
  end.

Definition used (t : table) : nat :=
  List.length (filter (fun x => match x with Some _ => true | None => false end) t).

(** The key placed in the table; the perturbation is spent after 13
    shifts and the recurrence then visits every slot. *)
Definition place (hash : ComplianceFramework -> Z) (t : table)
    (key : ComplianceFramework) : table :=
  let mask := Z.of_nat (List.length t) - 1 in
  let h := unsigned (hash key) in
  match find_entry (13 + 2 * List.length t) t key mask (Z.land h mask) h with
  | Some entry => put t entry key
  | None => t
  end.

(** The members in the order of the table. *)
Definition members (t : table) : list ComplianceFramework :=
  flat_map (fun x => match x with Some k => [k] | None => [] end) t.

(** [newsize = PySet_MINSIZE; while (newsize <= minused) newsize <<= 1] *)
Fixpoint grown (fuel newsize minused : nat) : nat :=
  match fuel with
  | O => newsize
  | S fuel' =>
      if Nat.leb newsize minused then grown fuel' (2 * newsize) minused
      else newsize
  end.

(** [set_table_resize] *)
Definition set_table_resize (hash : ComplianceFramework -> Z) (t : table)
    (minused : nat) : table :=
  fold_left (place hash) (members t)
    (repeat None (grown 64 PySet_MINSIZE minused)).

(** [set_add_entry] *)
Definition set_add_entry (hash : ComplianceFramework -> Z) (t : table)
    (key : ComplianceFramework) : table :=
  let t' := place hash t key in
  if Nat.eqb (used t') (used t) then t'
  else if Nat.ltb (used t' * 5) ((List.length t' - 1) * 3) then t'
  else set_table_resize hash t' (used t' * 4).

Definition empty : table := repeat None PySet_MINSIZE.

(** The order a set lists in that was built empty and had the members
    of [history] added in turn. *)
Definition listing (hash : ComplianceFramework -> Z)
    (history : list ComplianceFramework) : list ComplianceFramework :=
  members (fold_left (set_add_entry hash) history empty).

End PySet.

(** [to_dict], [to_json] and [calculate_checksum] with the framework set
    listed by [listing]. *)
Definition to_dict_listed (listing : framework_set -> list ComplianceFramework)
    (e : AuditEvent) : pydict :=
  to_dict (with_compliance_frameworks e (listing (compliance_frameworks e))).

Definition to_json_listed (listing : framework_set -> list ComplianceFramework)
    (e : AuditEvent) : document :=
  json_dumps_default_str (PDict (to_dict_listed listing e)).

Definition calculate_checksum_listed
    (listing : framework_set -> list ComplianceFramework) (e : AuditEvent)
    : string :=
  SHA256.hexdigest (document_text (to_json_listed listing e)).

(** The hashes of the framework names in a CPython 3.11 process started
    with [PYTHONHASHSEED=5]. *)
Definition hash_seed_5 (f : ComplianceFramework) : Z :=
  match f with
  | SOX => -7456864116830984517
  | GDPR => -5229475257330090647
  | HIPAA => -1788524270316460119
  | PCI_DSS => 1286831451836553743
  | ISO27001 => -5019699022978226143
  | SOC2 => -6952014015285229223
  | FISMA => 493808746142961238
  | NIST => 2541601403269710462
  | COBIT => 5826585738606774083
  end.

(** The event of [log_authentication("alice", "success")] at ten. *)
Definition alice_login : AuditEvent :=
  authentication_event "00000000-0000-4000-8000-00000000000d" ten_o_clock
    "alice" "success" no_kwargs.

(** A row that cannot be converted, whatever its other columns hold: the
    level, the category or the action column holds no value of its
    enumeration, or the frameworks column is NULL. *)
Definition unconvertible (r : row) : Prop :=
  AuditLevel_of (c_level r) = Raise ValueError
  \/ AuditCategory_of (c_category r) = Raise ValueError
  \/ AuditAction_of (c_action r) = Raise ValueError
  \/ c_compliance_frameworks r = None.

(** * Properties *)

(** ** The compliance derivation *)

Lemma fw_add_present : forall f s, In f s -> fw_add f s = s.
Proof.
  unfold fw_add. induction s as [|g s IH]; simpl; intros Hin.
  - contradiction.
  - destruct (ComplianceFramework_eq_dec f g) as [->|Hne]; [reflexivity|].
    destruct Hin as [->|Hin]; [congruence|]. now rewrite IH.
Qed.

Lemma fw_add_keeps : forall f g s, In g s -> In g (fw_add f s).
Proof. intros. now apply set_add_intro1. Qed.

Lemma fw_add_has : forall f s, In f (fw_add f s).
Proof. intros. now apply set_add_intro2. Qed.

Lemma fw_update_present :
  forall items s, (forall f, In f items -> In f s) -> fw_update items s = s.
Proof.
  unfold fw_update. induction items as [|f items IH]; simpl; intros s Hall.
  - reflexivity.
  - rewrite fw_add_present by auto. apply IH. auto.
Qed.

Lemma fw_update_keeps : forall items g s, In g s -> In g (fw_update items s).
Proof.
  unfold fw_update. induction items as [|f items IH]; simpl; intros g s Hin.
  - exact Hin.
  - apply IH. now apply fw_add_keeps.
Qed.

Lemma fw_update_has : forall items f s, In f items -> In f (fw_update items s).
Proof.
  unfold fw_update. induction items as [|g items IH]; simpl; intros f s Hin.
  - contradiction.
  - destruct Hin as [->|Hin].
    + apply (fw_update_keeps items). apply fw_add_has.
    + now apply IH.
Qed.

Lemma fw_add_NoDup : forall f s, NoDup s -> NoDup (fw_add f s).
Proof. intros. now apply set_add_nodup. Qed.

Lemma fw_update_NoDup : forall items s, NoDup s -> NoDup (fw_update items s).
Proof.
  unfold fw_update. induction items as [|g items IH]; simpl; intros s Hs.
  - exact Hs.
  - apply IH. now apply fw_add_NoDup.
Qed.

Create HintDb frameworks.
#[local] Hint Resolve fw_add_keeps fw_add_has fw_update_keeps fw_update_has
  fw_add_NoDup fw_update_NoDup : frameworks.

Lemma assign_frameworks_update :
  forall e s, assign_frameworks e s = fw_update (implied e) s.
Proof.
  intros e s. unfold assign_frameworks, implied, fw_update.
  destruct (orb (category_is DATA_ACCESS e) (category_is DATA_MODIFICATION e));
  destruct (orb (contains "financial" (lower (target e)))
                (category_is SYSTEM_CONFIGURATION e));
  destruct (category_is SECURITY_EVENT e);
  destruct (category_is AUTHENTICATION e); reflexivity.
Qed.

Lemma assign_frameworks_keeps :
  forall e s f, In f s -> In f (assign_frameworks e s).
Proof. intros. rewrite assign_frameworks_update. auto with frameworks. Qed.

Lemma assign_frameworks_idempotent :
  forall e s,
    assign_frameworks e (assign_frameworks e s) = assign_frameworks e s.
Proof.
  intros e s. rewrite !assign_frameworks_update.
  apply fw_update_present. intros f Hf. auto with frameworks.
Qed.

Lemma assign_frameworks_NoDup :
  forall e s, NoDup s -> NoDup (assign_frameworks e s).
Proof. intros. rewrite assign_frameworks_update. auto with frameworks. Qed.

Lemma assign_frameworks_ext :
  forall e e' s,
    category e = category e' -> target e = target e' ->
    assign_frameworks e s = assign_frameworks e' s.
Proof.
  intros e e' s Hc Ht. unfold assign_frameworks, category_is.
  now rewrite Hc, Ht.
Qed.

Lemma _assign_compliance_frameworks_idempotent :
  forall e,
    _assign_compliance_frameworks (_assign_compliance_frameworks e)
    = _assign_compliance_frameworks e.
Proof.
  intros e. unfold _assign_compliance_frameworks, with_compliance_frameworks.
  simpl. f_equal.
  rewrite (assign_frameworks_ext _ e) by reflexivity.
  apply assign_frameworks_idempotent.
Qed.

Lemma post_init_frameworks :
  forall u e,
    compliance_frameworks (__post_init__ u e)
    = assign_frameworks e (compliance_frameworks e).
Proof.
  intros u e. unfold __post_init__, _assign_compliance_frameworks.
  destruct (String.eqb (event_id e) ""); reflexivity.
Qed.

(** C2.  The derivation run at construction is a function of the other
    fields: two constructions from the same field values give the same
    framework set, whatever token the id generator draws; deriving again on
    a constructed event changes nothing; a derivation never removes a
    framework that is present; and an event of category data_access or
    data_modification holds GDPR once constructed. *)
Theorem compliance_derivation_deterministic_idempotent_monotone :
  forall (u1 u2 i : string) (ts : datetime) (lv : AuditLevel)
         (cat : AuditCategory) (act : AuditAction)
         (actr tgt res msg : string) (det : pydict)
         (ip ua sid cid : option string) (fws : framework_set) (rs : Z)
         (sd : flag),
    let e1 := new_AuditEvent u1 i ts lv cat act actr tgt res msg det ip ua
                sid cid fws rs sd in
    let e2 := new_AuditEvent u2 i ts lv cat act actr tgt res msg det ip ua
                sid cid fws rs sd in
    compliance_frameworks e1 = compliance_frameworks e2
    /\ _assign_compliance_frameworks e1 = e1
    /\ (forall f, In f fws -> In f (compliance_frameworks e1))
    /\ (forall (e : AuditEvent) (f : ComplianceFramework),
          In f (compliance_frameworks e) ->
          In f (compliance_frameworks (_assign_compliance_frameworks e)))
    /\ (cat = DATA_ACCESS \/ cat = DATA_MODIFICATION ->
        In GDPR (compliance_frameworks e1)).
Proof.
  intros. subst e1 e2. unfold new_AuditEvent.
  rewrite !post_init_frameworks. simpl.
  repeat split.
  - unfold __post_init__.
    destruct (String.eqb _ _); apply _assign_compliance_frameworks_idempotent.
  - intros f Hf. now apply assign_frameworks_keeps.
  - intros e f Hf. simpl. now apply assign_frameworks_keeps.
  - intros Hcat. rewrite assign_frameworks_update.
    apply fw_update_has. unfold implied, category_is. simpl.
    destruct Hcat as [-> | ->]; simpl; auto.
Qed.

(** C2 at a data-access event: it holds GDPR once constructed. *)
Lemma compliance_derivation_witness :
  In GDPR
     (compliance_frameworks
        (new_AuditEvent "00000000-0000-4000-8000-00000000000a" ""
           (mkdatetime 2024 1 1 10 0 0 0) INFO DATA_ACCESS READ "alice" "orders"
           "success" "read orders" [] None None None None [] 0 (Flag false))).
Proof.
  apply (proj2 (proj2 (proj2 (proj2
           (compliance_derivation_deterministic_idempotent_monotone
              "00000000-0000-4000-8000-00000000000a"
              "00000000-0000-4000-8000-00000000000b" ""
              (mkdatetime 2024 1 1 10 0 0 0) INFO DATA_ACCESS READ "alice"
              "orders" "success" "read orders" [] None None None None [] 0
              (Flag false)))))).
  left. reflexivity.
Defined.

(** ** The filter *)

Lemma rank_nonneg : forall l, 0 <= rank l.
Proof. destruct l; vm_compute; discriminate. Qed.

Lemma should_log_below_min_level :
  forall f e, rank (level e) < priority_get (min_level f) -> should_log f e = false.
Proof.
  intros f e Hlt. unfold should_log. fold (rank (level e)).
  apply Z.ltb_lt in Hlt. now rewrite Hlt.
Qed.

Lemma should_log_from_min_level :
  forall f e,
    priority_get (min_level f) <= rank (level e) ->
    should_log f e = should_log (drop_min_level f) e.
Proof.
  intros f e Hle. unfold should_log, drop_min_level.
  cbn [min_level categories actors exclude_actors filter_frameworks time_range].
  fold (rank (level e)). change (priority_get None) with 0.
  apply Z.ltb_ge in Hle. rewrite Hle.
  pose proof (rank_nonneg (level e)) as H0.
  apply Z.ltb_ge in H0. rewrite H0. reflexivity.
Qed.

Lemma should_log_only_min_level :
  forall m e,
    should_log (only_min_level m) e = (priority_get m <=? rank (level e)).
Proof.
  intros m e. unfold should_log, only_min_level, new_AuditFilter.
  cbn [min_level categories actors exclude_actors filter_frameworks
       time_range keyword_or truthy mem_str existsb].
  fold (rank (level e)). rewrite Z.leb_antisym.
  destruct (rank (level e) <? priority_get m); reflexivity.
Qed.

(** C8.  The severity check of [should_log] ranks the levels debug=0,
    info=1, warning=2, error=3, critical=4, security=5, compliance=5; an
    event whose rank is below the rank of the filter's minimum level is
    rejected, an event whose rank is not below it is judged by the other
    criteria alone, so a filter with no other criterion accepts exactly the
    events that are not below its minimum; security and compliance tie:
    each admits the other. *)
Theorem should_log_severity_order :
  (rank DEBUG = 0 /\ rank INFO = 1 /\ rank WARNING = 2 /\ rank ERROR = 3
   /\ rank CRITICAL = 4 /\ rank SECURITY = 5 /\ rank COMPLIANCE = 5)
  /\ (forall (f : AuditFilter) (m : AuditLevel) (e : AuditEvent),
        min_level f = Some m ->
        (rank (level e) < rank m -> should_log f e = false)
        /\ (rank m <= rank (level e) ->
            should_log f e = should_log (drop_min_level f) e))
  /\ (forall (m : AuditLevel) (e : AuditEvent),
        should_log (only_min_level (Some m)) e = false
        <-> rank (level e) < rank m)
  /\ (forall e, level e = COMPLIANCE ->
        should_log (only_min_level (Some SECURITY)) e = true)
  /\ (forall e, level e = SECURITY ->
        should_log (only_min_level (Some COMPLIANCE)) e = true).
Proof.
  split; [repeat split; reflexivity|].
  split.
  { intros f m e Hm. split; intros Hr.
    - apply should_log_below_min_level. now rewrite Hm.
    - apply should_log_from_min_level. now rewrite Hm. }
  split.
  { intros m e. rewrite should_log_only_min_level. fold (rank m).
    rewrite Z.leb_gt. reflexivity. }
  split; intros e He; rewrite should_log_only_min_level, He; reflexivity.
Qed.

(** C8 at a warning event and a minimum level of error. *)
Lemma should_log_severity_order_witness :
  should_log (only_min_level (Some ERROR))
    (log_event_event "00000000-0000-4000-8000-00000000000a"
       (mkdatetime 2024 1 1 10 0 0 0) WARNING API_CALL READ "alice" "orders"
       "success" "read orders" no_kwargs)
  = false.
Proof.
  apply (proj1 (proj1 (proj2 should_log_severity_order)
                  (only_min_level (Some ERROR)) ERROR _ eq_refl)).
  reflexivity.
Defined.

(** C5, as stated, fails: the filter built with no argument rejects a
    debug event, because [min_level] then defaults to [AuditLevel.INFO]. *)
Lemma unset_filter_rejects_debug :
  level debug_event = DEBUG /\ should_log unset_filter debug_event = false.
Proof. split; reflexivity. Qed.

(** C5, amended.  [should_log] is a function of the filter and the event;
    the filter built with no argument accepts exactly the events whose
    level is not debug; and a filter with no criterion but a minimum level
    of debug (or of [None]) accepts every event. *)
Theorem should_log_deterministic_unset_filter :
  (forall (f : AuditFilter) (e : AuditEvent) (b1 b2 : bool),
     should_log f e = b1 -> should_log f e = b2 -> b1 = b2)
  /\ (forall e, should_log unset_filter e = true <-> level e <> DEBUG)
  /\ (forall e, should_log (only_min_level (Some DEBUG)) e = true)
  /\ (forall e, should_log (only_min_level None) e = true).
Proof.
  split; [intros; congruence|].
  split.
  { intros e.
    change unset_filter with (only_min_level (Some INFO)).
    rewrite should_log_only_min_level.
    destruct (level e); vm_compute; split; congruence. }
  split; intros e; rewrite should_log_only_min_level;
    destruct (level e); reflexivity.
Qed.

(** ** Authentication events *)

Lemma failed_logins_filter :
  forall events, failed_logins events = filter is_failed_login events.
Proof. reflexivity. Qed.

Lemma post_init_fields :
  forall u e,
    let e' := __post_init__ u e in
    timestamp e' = timestamp e /\ level e' = level e
    /\ category e' = category e /\ action e' = action e
    /\ actor e' = actor e /\ target e' = target e /\ result e' = result e
    /\ message e' = message e /\ details e' = details e
    /\ source_ip e' = source_ip e /\ user_agent e' = user_agent e
    /\ session_id e' = session_id e /\ correlation_id e' = correlation_id e
    /\ risk_score e' = risk_score e /\ sensitive_data e' = sensitive_data e
    /\ event_id e' = (if String.eqb (event_id e) "" then u else event_id e).
Proof.
  intros u e. unfold __post_init__.
  destruct (String.eqb (event_id e) ""); cbn; repeat split; reflexivity.
Qed.

(** C10.  Every call of [log_authentication] runs [log_event] on an event
    of level SECURITY, category AUTHENTICATION and target
    "authentication_system", whose action is LOGIN exactly when the result
    is the string "success" and ACCESS_DENIED for every other result; the
    event is counted among the failed logins of the report exactly when the
    result is not "success". *)
Theorem log_authentication_event_shape :
  forall (S : Type) (St : AuditStorage S) (uuid4 : string) (now : datetime)
         (actor_ result_ : string) (kw : kwargs) (lg : AuditLogger S),
    let e := authentication_event uuid4 now actor_ result_ kw in
    log_authentication uuid4 now actor_ result_ kw lg = dispatch now e lg
    /\ level e = SECURITY
    /\ category e = AUTHENTICATION
    /\ target e = "authentication_system"
    /\ actor e = actor_
    /\ result e = result_
    /\ (action e = LOGIN <-> result_ = "success")
    /\ (action e = ACCESS_DENIED <-> result_ <> "success")
    /\ (is_failed_login e = true <-> result_ <> "success")
    /\ (forall events,
          len (failed_logins (e :: events))
          = (if String.eqb result_ "success" then 0 else 1)
            + len (failed_logins events)).
Proof.
  intros S St uuid4 now actor_ result_ kw lg e.
  assert (Hact : action e
                 = if String.eqb result_ "success" then LOGIN else ACCESS_DENIED).
  { unfold e, authentication_event, log_event_event, new_AuditEvent.
    apply post_init_fields. }
  assert (Hcat : category e = AUTHENTICATION).
  { unfold e, authentication_event, log_event_event, new_AuditEvent.
    apply post_init_fields. }
  assert (Hfail : is_failed_login e = negb (String.eqb result_ "success")).
  { unfold is_failed_login. rewrite Hact, Hcat.
    now destruct (String.eqb result_ "success"). }
  split; [reflexivity|].
  split; [unfold e, authentication_event, log_event_event, new_AuditEvent;
          apply post_init_fields|].
  split; [exact Hcat|].
  split; [unfold e, authentication_event, log_event_event, new_AuditEvent;
          apply post_init_fields|].
  split; [unfold e, authentication_event, log_event_event, new_AuditEvent;
          apply post_init_fields|].
  split; [unfold e, authentication_event, log_event_event, new_AuditEvent;
          apply post_init_fields|].
  rewrite Hact, Hfail.
  destruct (String.eqb_spec result_ "success") as [Heq|Hne].
  - repeat split; try congruence; try discriminate.
    intros events. rewrite failed_logins_filter. cbn [filter].
    rewrite Hfail. reflexivity.
  - repeat split; try congruence; try discriminate.
    intros events. rewrite failed_logins_filter. cbn [filter].
    rewrite Hfail. cbn [negb]. unfold len.
    change (List.length (e :: filter is_failed_login events))
      with (Datatypes.S (List.length (filter is_failed_login events))).
    change (failed_logins events) with (filter is_failed_login events).
    rewrite Nat2Z.inj_succ. lia.
Qed.

(** ** [store_event] returns *)

Lemma find_file_put_file :
  forall f d, find_file (path_name f) (put_file f d) = Some f.
Proof.
  intros f d. unfold put_file.
  destruct (find_file (path_name f) d) as [g|] eqn:Hfind.
  - unfold find_file in *. induction d as [|h d IH]; simpl in *.
    + discriminate.
    + destruct (String.eqb (path_name h) (path_name f)) eqn:Hh.
      * simpl. now rewrite String.eqb_refl.
      * simpl. rewrite Hh. now apply IH.
  - unfold find_file in *. induction d as [|h d IH]; simpl in *.
    + now rewrite String.eqb_refl.
    + destruct (String.eqb (path_name h) (path_name f)); [discriminate|].
      now apply IH.
Qed.

Lemma with_directory_same :
  forall st : FileAuditStorage, with_directory st (log_directory st) = st.
Proof. now intros []. Qed.

Lemma unlink_each_outcome :
  forall fs st,
    unlink_each fs st
    = if disk_fault st
      then (match fs with [] => Return tt | _ => Raise OSError end, st)
      else (Return tt,
            with_directory st
              (fold_left (fun d old_file => unlink (path_name old_file) d)
                         fs (log_directory st))).
Proof.
  induction fs as [|f fs IH]; intros st.
  - cbn. rewrite with_directory_same. now destruct (disk_fault st).
  - cbn [unlink_each]. unfold pbind at 1.
    unfold unlink_file, write_guard, pbind, get, raise, ret, modify.
    destruct (disk_fault st) eqn:Hd; [reflexivity|].
    rewrite IH. cbn [disk_fault with_directory log_directory]. rewrite Hd.
    reflexivity.
Qed.

Lemma cleanup_old_files_ok :
  forall st,
    disk_fault st = false ->
    _cleanup_old_files st
    = (Return tt,
       with_directory st
         (fold_left (fun d old_file => unlink (path_name old_file) d)
            (slice_from (max_files st) (sort_desc mtime_leb (glob st)))
            (log_directory st))).
Proof.
  intros st Hd. unfold _cleanup_old_files, pbind, get.
  now rewrite unlink_each_outcome, Hd.
Qed.

Lemma cleanup_old_files_outcome :
  forall st,
    exists r st1,
      _cleanup_old_files st = (r, st1)
      /\ disk_fault st1 = disk_fault st
      /\ file_errors st1 = file_errors st
      /\ encrypt_files st1 = encrypt_files st
      /\ cipher_suite st1 = cipher_suite st
      /\ (disk_fault st = false -> r = Return tt)
      /\ (r = Return tt \/ r = Raise OSError).
Proof.
  intros st. unfold _cleanup_old_files, pbind, get.
  rewrite unlink_each_outcome.
  destruct (disk_fault st) eqn:Hd.
  - eexists. exists st. split; [reflexivity|].
    repeat split; auto; try discriminate.
    destruct (slice_from _ _); auto.
  - eexists. eexists. split; [reflexivity|]. cbn. repeat split; auto.
Qed.

Lemma rotate_outcome :
  forall now st,
    exists r st1,
      _rotate_file_if_needed now st = (r, st1)
      /\ disk_fault st1 = disk_fault st
      /\ file_errors st1 = file_errors st
      /\ encrypt_files st1 = encrypt_files st
      /\ cipher_suite st1 = cipher_suite st
      /\ (disk_fault st = false -> r = Return tt)
      /\ (r = Return tt \/ r = Raise OSError).
Proof.
  intros now st. unfold _rotate_file_if_needed, pbind, get.
  destruct (find_file (current_file st) (log_directory st)) as [f|].
  2:{ exists (Return tt), st. cbn. tauto. }
  destruct (st_size f >=? max_file_size st).
  2:{ exists (Return tt), st. cbn. tauto. }
  assert (Hzip : forall r1 s1,
            when (compress_old_files st) (_compress_file now f) st = (r1, s1) ->
            disk_fault s1 = disk_fault st
            /\ file_errors s1 = file_errors st
            /\ encrypt_files s1 = encrypt_files st
            /\ cipher_suite s1 = cipher_suite st
            /\ (disk_fault st = false -> r1 = Return tt)
            /\ (r1 = Return tt \/ r1 = Raise OSError)).
  { intros r1 s1.
    unfold when, _compress_file, write_guard, pbind, get, ret, raise, modify.
    destruct (compress_old_files st); destruct (disk_fault st) eqn:Hd;
      intros Heq; inversion Heq; subst; cbn; rewrite ?Hd;
      repeat split; auto; discriminate. }
  destruct (when (compress_old_files st) (_compress_file now f) st)
    as [r1 s1] eqn:Hrun1.
  destruct (Hzip r1 s1 eq_refl) as (Hd1 & He1 & Hen1 & Hk1 & Hok1 & Hr1).
  destruct Hr1 as [-> | ->].
  - unfold _initialize_current_file, modify.
    destruct (cleanup_old_files_outcome
                (with_current_file s1 ("audit_" ++ strftime_compact now ++ ".log")))
      as (r & st2 & Hrun & Hd2 & He2 & Hen2 & Hk2 & Hok2 & Hr2).
    exists r, st2. split; [exact Hrun|]. cbn in Hd2, He2, Hen2, Hk2, Hok2.
    repeat split; try congruence; auto.
    intros Hd. apply Hok2. congruence.
  - exists (Raise OSError), s1. split; [reflexivity|].
    repeat split; auto.
Qed.

Lemma append_line_outcome :
  forall now n l st,
    append_line now n l st
    = if disk_fault st then (Raise OSError, st)
      else (Return tt,
            with_directory st
              (put_file
                 (match find_file n (log_directory st) with
                  | Some f =>
                      mklog_file n now (st_size f + line_bytes l)
                        (match st_encoding f with Utf8 => Utf8 | _ => Undecodable end)
                        (file_lines f ++ [l])
                  | None => mklog_file n now (line_bytes l) Utf8 [l]
                  end)
                 (log_directory st))).
Proof.
  intros now n l st. unfold append_line, write_guard, pbind, get, raise, ret.
  destruct (disk_fault st); reflexivity.
Qed.

Lemma file_store_event_outcome :
  forall now event st,
    exists st',
      file_store_event now event st = (Return (negb (disk_fault st)), st')
      /\ (disk_fault st = false ->
          file_errors st' = file_errors st
          /\ exists f ls,
               find_file (current_file st') (log_directory st') = Some f
               /\ file_lines f = (ls ++ [entry_of st event])%list)
      /\ (disk_fault st = true ->
          file_errors st'
          = (file_errors st ++ ["Failed to store audit event: OSError"])%list).
Proof.
  intros now event st.
  destruct (rotate_outcome now st)
    as (r & st1 & Hrot & Hd1 & He1 & Henc & Hkey & Hok & Hr).
  unfold file_store_event, try_catch, pbind at 1. rewrite Hrot.
  destruct (disk_fault st) eqn:Hd.
  - (* the write raises, in the rotation or in the append *)
    destruct Hr as [-> | ->].
    + unfold pbind, get. rewrite append_line_outcome, Hd1.
      cbn. eexists. split; [reflexivity|]. cbn. rewrite He1.
      split; [discriminate|reflexivity].
    + cbn. eexists. split; [reflexivity|]. cbn. rewrite He1.
      split; [discriminate|reflexivity].
  - rewrite (Hok eq_refl). unfold pbind, get.
    rewrite append_line_outcome, Hd1. cbn.
    eexists. split; [reflexivity|]. cbn. split; [|discriminate].
    intros _. split; [exact He1|].
    set (n := current_file st1).
    destruct (find_file n (log_directory st1)) as [f|] eqn:Hf.
    + eexists. exists (file_lines f).
      split.
      * apply (find_file_put_file
                 (mklog_file n now _ _ (file_lines f ++ [_]))).
      * cbn. unfold entry_of. now rewrite Henc, Hkey.
    + eexists. exists [].
      split.
      * apply (find_file_put_file (mklog_file n now _ Utf8 [_])).
      * cbn. unfold entry_of. now rewrite Henc, Hkey.
Qed.

Lemma db_store_event_outcome :
  forall now event db,
    exists b db',
      db_store_event now event db = (Return b, db')
      /\ (b = true ->
          exists details frameworks,
            audit_events db'
            = (audit_events db ++ [event_row event details frameworks])%list
            /\ db_errors db' = db_errors db)
      /\ (b = false ->
          audit_events db' = audit_events db
          /\ exists x,
               db_errors db'
               = (db_errors db
                  ++ [("Failed to store audit event: " ++ exn_name x)%string])%list).
Proof.
  intros now event db.
  unfold db_store_event, try_catch, pbind, connect, get, lift, insert,
    raise, ret, modify, db_log_error.
  cbn -[json_dumps existsb event_row].
  destruct (db_fault db) eqn:Hfault.
  { exists false. eexists. split; [reflexivity|]. cbn.
    split; [discriminate|]. intros _. split; [reflexivity|].
    now exists OperationalError. }
  destruct (json_dumps (PList _)) as [fw|x] eqn:Hfw.
  2:{ exists false. eexists. split; [reflexivity|]. cbn.
      split; [discriminate|]. intros _. split; [reflexivity|]. now exists x. }
  destruct (json_dumps (PDict _)) as [det|x] eqn:Hdet.
  2:{ exists false. eexists. split; [reflexivity|]. cbn.
      split; [discriminate|]. intros _. split; [reflexivity|]. now exists x. }
  destruct (bind_parameters _) as [[]|x] eqn:Hbind.
  2:{ exists false. eexists. split; [reflexivity|]. cbn.
      split; [discriminate|]. intros _. split; [reflexivity|]. now exists x. }
  destruct (existsb _ (audit_events db)) eqn:Hdup.
  { exists false. eexists. split; [reflexivity|]. cbn.
    split; [discriminate|]. intros _. split; [reflexivity|].
    now exists IntegrityError. }
  exists true. eexists. split; [reflexivity|]. cbn.
  split; [|discriminate]. intros _. exists det, fw. split; reflexivity.
Qed.

(** C6.  On both backends [store_event] returns for every event and every
    state of the backend, and what it returns is a boolean: [True] with the
    event written (the last line of the current file, a new row of the
    table), [False] with one message sent to [logging.error].  For the file
    backend the only failure is a write the disk refuses; for the database
    it is a connection that fails, details JSON cannot encode, a risk
    score that does not fit 64 bits, or an id that is already a key of the
    table. *)
Theorem store_event_never_raises :
  (forall (now : datetime) (event : AuditEvent) (st : FileAuditStorage),
     exists st',
       store_event now event st = (Return (negb (disk_fault st)), st')
       /\ if disk_fault st
          then file_errors st'
               = (file_errors st ++ ["Failed to store audit event: OSError"])%list
          else file_errors st' = file_errors st
               /\ exists f ls,
                    find_file (current_file st') (log_directory st') = Some f
                    /\ file_lines f = (ls ++ [entry_of st event])%list)
  /\ (forall (now : datetime) (event : AuditEvent) (db : DatabaseAuditStorage),
        exists b db',
          store_event now event db = (Return b, db')
          /\ if b
             then db_errors db' = db_errors db
                  /\ exists details frameworks,
                       audit_events db'
                       = (audit_events db
                          ++ [event_row event details frameworks])%list
             else audit_events db' = audit_events db
                  /\ exists x,
                       db_errors db'
                       = (db_errors db
                          ++ [("Failed to store audit event: "
                               ++ exn_name x)%string])%list).
Proof.
  split.
  - intros now event st.
    destruct (file_store_event_outcome now event st) as (st' & Hrun & Hok & Hko).
    exists st'. split; [exact Hrun|].
    destruct (disk_fault st); [now apply Hko | now apply Hok].
  - intros now event db.
    destruct (db_store_event_outcome now event db) as (b & db' & Hrun & Hok & Hko).
    exists b, db'. split; [exact Hrun|].
    destruct b.
    + destruct (Hok eq_refl) as (det & fw & Hrows & Herr).
      split; [exact Herr|]. now exists det, fw.
    + now apply Hko.
Qed.

(** ** [log_event] *)

Section LoggerFacts.
Context {S : Type} `{AuditStorage S}.

Lemma call_handlers_outcome :
  forall hs i event (lg : AuditLogger S),
    call_handlers i hs event lg
    = (Return tt,
       mkAuditLogger (storage lg) (filters lg) (async_logging lg)
         (queue_maxsize lg) (event_queue lg) (event_handlers lg)
         (handler_calls lg ++ calls_from i hs event)
         (logger_errors lg ++ handler_failures hs event)).
Proof.
  induction hs as [|h hs IH]; intros i event lg.
  - cbn. rewrite !app_nil_r. now destruct lg.
  - cbn [call_handlers calls_from handler_failures].
    unfold pbind at 1. unfold try_catch, pbind, record_call, modify, lift,
      logger_log_error.
    destruct (h event) as [[]|x]; unfold modify; cbv beta iota zeta;
      rewrite IH; cbn; rewrite <- ?app_assoc; reflexivity.
Qed.

Lemma dispatch_outcome :
  forall now event (lg : AuditLogger S),
    dispatch now event lg
    = if rejected (filters lg) event then (Return (event_id event), lg)
      else
        let lg1 := after_handlers lg event in
        if async_logging lg then
          if queue_full lg then
            (Return (event_id event),
             snd (logger_log_error "Audit event queue is full, dropping event" lg1))
          else
            (Return (event_id event), with_queue lg1 (event_queue lg ++ [event]))
        else
          let '(r, st) := store_event now event (storage lg) in
          (match r with
           | Return _ => Return (event_id event)
           | Raise x => Raise x
           end,
           mkAuditLogger st (filters lg) (async_logging lg) (queue_maxsize lg)
             (event_queue lg) (event_handlers lg) (handler_calls lg1)
             (logger_errors lg1)).
Proof.
  intros now event lg. unfold dispatch. unfold pbind at 1. unfold get.
  destruct (rejected (filters lg) event); [reflexivity|].
  unfold pbind at 1. rewrite call_handlers_outcome.
  fold (after_handlers lg event). cbn zeta.
  unfold pbind at 1. unfold after_handlers.
  cbn [async_logging].
  destruct (async_logging lg).
  - unfold try_catch, put_nowait, pbind, get, queue_full, raise, modify, ret.
    cbn. destruct (andb _ _); reflexivity.
  - unfold on_storage, pbind, ret. cbn.
    destruct (store_event now event (storage lg)) as [[b|x] st]; reflexivity.
Qed.

End LoggerFacts.

Lemma log_event_outcome :
  forall (S : Type) (St : AuditStorage S) (uuid4 : string) (now : datetime)
         (lv : AuditLevel) (cat : AuditCategory) (act : AuditAction)
         (actr tgt res msg : string) (kw : kwargs) (lg : AuditLogger S),
    let event := log_event_event uuid4 now lv cat act actr tgt res msg kw in
    let run := log_event uuid4 now lv cat act actr tgt res msg kw lg in
    if rejected (filters lg) event
    then run = (Return (event_id event), lg)
    else
      handler_calls (snd run)
      = (handler_calls lg ++ calls_from 0 (event_handlers lg) event)%list
      /\ if async_logging lg
         then fst run = Return (event_id event)
              /\ storage (snd run) = storage lg
              /\ event_queue (snd run)
                 = (if queue_full lg then event_queue lg
                    else event_queue lg ++ [event])%list
         else event_queue (snd run) = event_queue lg
              /\ storage (snd run) = snd (store_event now event (storage lg))
              /\ fst run
                 = match fst (store_event now event (storage lg)) with
                   | Return _ => Return (event_id event)
                   | Raise x => Raise x
                   end.
Proof.
  intros S St uuid4 now lv cat act actr tgt res msg kw lg event run.
  subst run. unfold log_event. fold event. rewrite dispatch_outcome.
  destruct (rejected (filters lg) event); [reflexivity|].
  cbn zeta. destruct (async_logging lg).
  - destruct (queue_full lg); cbn; auto.
  - destruct (store_event now event (storage lg)) as [[b|x] st]; cbn; auto.
Qed.

Lemma log_event_errors :
  forall (S : Type) (St : AuditStorage S) (uuid4 : string) (now : datetime)
         (lv : AuditLevel) (cat : AuditCategory) (act : AuditAction)
         (actr tgt res msg : string) (kw : kwargs) (lg : AuditLogger S),
    let event := log_event_event uuid4 now lv cat act actr tgt res msg kw in
    let run := log_event uuid4 now lv cat act actr tgt res msg kw lg in
    rejected (filters lg) event = false ->
    logger_errors (snd run)
    = (logger_errors lg ++ handler_failures (event_handlers lg) event
       ++ (if andb (async_logging lg) (queue_full lg)
           then ["Audit event queue is full, dropping event"]
           else []))%list.
Proof.
  intros S St uuid4 now lv cat act actr tgt res msg kw lg event run Hacc.
  subst run. unfold log_event. fold event. rewrite dispatch_outcome, Hacc.
  cbn zeta. destruct (async_logging lg).
  - destruct (queue_full lg); cbn; now rewrite ?app_nil_r, <- ?app_assoc.
  - destruct (store_event now event (storage lg)) as [[b|x] st]; cbn;
      now rewrite app_nil_r.
Qed.

(** C1, as stated, fails: with asynchronous delivery and a full queue an
    event that every filter accepts reaches the handler and is then
    dropped; it is neither stored nor enqueued. *)
Lemma full_queue_drops_accepted_event :
  rejected (filters full_logger) second_event = false
  /\ fst (second_call full_logger) = Return (event_id second_event)
  /\ handler_calls (snd (second_call full_logger))
     = (handler_calls full_logger ++ [(0%nat, second_event)])%list
  /\ storage (snd (second_call full_logger)) = storage full_logger
  /\ event_queue (snd (second_call full_logger)) = event_queue full_logger
  /\ ~ In second_event (event_queue full_logger)
  /\ logger_errors (snd (second_call full_logger))
     = ["Audit event queue is full, dropping event"].
Proof.
  repeat split; try (vm_compute; reflexivity).
  vm_compute. intros [Heq|[]]. discriminate Heq.
Qed.

(** C1, amended.  [log_event] returns the id of the event it constructs.
    When some registered filter rejects the event nothing else happens: no
    handler is called, nothing is stored, nothing is enqueued.  When every
    filter accepts it, every registered handler is called on it once, in
    registration order, a handler that raises leaving one message in the
    error log, and then: with asynchronous delivery the event is enqueued
    when the queue has room, and when the queue is full it is dropped,
    neither stored nor enqueued, and "Audit event queue is full, dropping
    event" is sent to the error log; with synchronous delivery it is
    passed to the backend's [store_event], which logs its own failures,
    and the id is returned once that call returns, which it always does
    on the file and on the database backend. *)
Theorem log_event_returns_event_id :
  (forall (S : Type) (St : AuditStorage S) (uuid4 : string) (now : datetime)
          (lv : AuditLevel) (cat : AuditCategory) (act : AuditAction)
          (actr tgt res msg : string) (kw : kwargs) (lg : AuditLogger S),
     let event := log_event_event uuid4 now lv cat act actr tgt res msg kw in
     let run := log_event uuid4 now lv cat act actr tgt res msg kw lg in
     if rejected (filters lg) event
     then run = (Return (event_id event), lg)
     else
       handler_calls (snd run)
       = (handler_calls lg ++ calls_from 0 (event_handlers lg) event)%list
       /\ if async_logging lg
          then fst run = Return (event_id event)
               /\ storage (snd run) = storage lg
               /\ event_queue (snd run)
                  = (if queue_full lg then event_queue lg
                     else event_queue lg ++ [event])%list
               /\ logger_errors (snd run)
                  = (logger_errors lg
                     ++ handler_failures (event_handlers lg) event
                     ++ (if queue_full lg
                         then ["Audit event queue is full, dropping event"]
                         else []))%list
          else event_queue (snd run) = event_queue lg
               /\ storage (snd run) = snd (store_event now event (storage lg))
               /\ fst run
                  = match fst (store_event now event (storage lg)) with
                    | Return _ => Return (event_id event)
                    | Raise x => Raise x
                    end
               /\ logger_errors (snd run)
                  = (logger_errors lg
                     ++ handler_failures (event_handlers lg) event)%list)
  /\ (forall (uuid4 : string) (now : datetime) (lv : AuditLevel)
             (cat : AuditCategory) (act : AuditAction)
             (actr tgt res msg : string) (kw : kwargs)
             (lg : AuditLogger FileAuditStorage),
        fst (log_event uuid4 now lv cat act actr tgt res msg kw lg)
        = Return (event_id (log_event_event uuid4 now lv cat act actr tgt res msg kw)))
  /\ (forall (uuid4 : string) (now : datetime) (lv : AuditLevel)
             (cat : AuditCategory) (act : AuditAction)
             (actr tgt res msg : string) (kw : kwargs)
             (lg : AuditLogger DatabaseAuditStorage),
        fst (log_event uuid4 now lv cat act actr tgt res msg kw lg)
        = Return (event_id (log_event_event uuid4 now lv cat act actr tgt res msg kw))).
Proof.
  split; [|split].
  - intros S St uuid4 now lv cat act actr tgt res msg kw lg.
    pose proof (log_event_outcome _ _ uuid4 now lv cat act actr tgt res msg kw lg)
      as Hrun.
    pose proof (log_event_errors _ _ uuid4 now lv cat act actr tgt res msg kw lg)
      as Herr.
    cbv zeta in Hrun, Herr |- *.
    destruct (rejected (filters lg) _); [exact Hrun|].
    specialize (Herr eq_refl). destruct Hrun as [Hcalls Hrest].
    split; [exact Hcalls|].
    destruct (async_logging lg).
    + destruct Hrest as (Hid & Hst & Hq). cbn [andb] in Herr. auto.
    + destruct Hrest as (Hq & Hst & Hid). cbn [andb] in Herr.
      rewrite app_nil_r in Herr. auto.
  - intros uuid4 now lv cat act actr tgt res msg kw lg.
    pose proof (log_event_outcome _ _ uuid4 now lv cat act actr tgt res msg kw lg)
      as Hrun.
    cbv zeta in Hrun.
    destruct (rejected (filters lg) _); [now rewrite Hrun|].
    destruct Hrun as [_ Hrest].
    destruct (async_logging lg); [apply Hrest|].
    destruct Hrest as (_ & _ & ->).
    destruct (file_store_event_outcome now
                (log_event_event uuid4 now lv cat act actr tgt res msg kw)
                (storage lg)) as (st' & Hst & _).
    cbn [store_event FileAuditStorage_storage]. now rewrite Hst.
  - intros uuid4 now lv cat act actr tgt res msg kw lg.
    pose proof (log_event_outcome _ _ uuid4 now lv cat act actr tgt res msg kw lg)
      as Hrun.
    cbv zeta in Hrun.
    destruct (rejected (filters lg) _); [now rewrite Hrun|].
    destruct Hrun as [_ Hrest].
    destruct (async_logging lg); [apply Hrest|].
    destruct Hrest as (_ & _ & ->).
    destruct (db_store_event_outcome now
                (log_event_event uuid4 now lv cat act actr tgt res msg kw)
                (storage lg)) as (b & db' & Hst & _).
    cbn [store_event DatabaseAuditStorage_storage]. now rewrite Hst.
Qed.

(** ** ISO-8601 text: order and round trip *)

Lemma digit_cases :
  forall d, 0 <= d <= 9 ->
    d = 0 \/ d = 1 \/ d = 2 \/ d = 3 \/ d = 4 \/ d = 5 \/ d = 6 \/ d = 7
    \/ d = 8 \/ d = 9.
Proof. intros d Hd. lia. Qed.

Ltac each_digit H :=
  apply digit_cases in H;
  repeat (destruct H as [H|H]; [subst|]); [..|subst].

Lemma digit_compare :
  forall a b, 0 <= a <= 9 -> 0 <= b <= 9 ->
    Ascii.compare (digit a) (digit b) = (a ?= b).
Proof.
  intros a b Ha Hb. each_digit Ha; each_digit Hb; reflexivity.
Qed.

Lemma digit_value_digit :
  forall d, 0 <= d <= 9 -> digit_value (digit d) = Some d.
Proof. intros d Hd. each_digit Hd; reflexivity. Qed.

Lemma pow10_pos : forall w, 0 < 10 ^ Z.of_nat w.
Proof. intros w. apply Z.pow_pos_nonneg; lia. Qed.

Lemma pow10_succ : forall w, 10 ^ Z.of_nat (S w) = 10 * 10 ^ Z.of_nat w.
Proof. intros w. rewrite Nat2Z.inj_succ, Z.pow_succ_r; lia. Qed.

Lemma leading_digit :
  forall w x, 0 <= x < 10 ^ Z.of_nat (S w) ->
    0 <= x / 10 ^ Z.of_nat w <= 9
    /\ 0 <= x mod 10 ^ Z.of_nat w < 10 ^ Z.of_nat w.
Proof.
  intros w x Hx. rewrite pow10_succ in Hx.
  pose proof (pow10_pos w) as Hp.
  split.
  - split; [apply Z.div_pos; lia|].
    assert (x / 10 ^ Z.of_nat w < 10); [|lia].
    apply Z.div_lt_upper_bound; lia.
  - apply Z.mod_pos_bound; lia.
Qed.

Lemma lex_eq_r : forall c, lex c Eq = c.
Proof. now destruct c. Qed.

(** Two numbers written in the same width compare as texts the way they
    compare as numbers, whatever follows them. *)
Lemma zpad_compare :
  forall w x y s t,
    0 <= x < 10 ^ Z.of_nat w -> 0 <= y < 10 ^ Z.of_nat w ->
    String.compare (zpad w x ++ s) (zpad w y ++ t)
    = lex (x ?= y) (String.compare s t).
Proof.
  induction w as [|w IH]; intros x y s t Hx Hy.
  - cbn in Hx, Hy. assert (x = 0) by lia. assert (y = 0) by lia. subst.
    reflexivity.
  - destruct (leading_digit w x Hx) as [Hqx Hrx].
    destruct (leading_digit w y Hy) as [Hqy Hry].
    pose proof (pow10_pos w) as Hp.
    pose proof (Z.div_mod x (10 ^ Z.of_nat w) ltac:(lia)) as Ex.
    pose proof (Z.div_mod y (10 ^ Z.of_nat w) ltac:(lia)) as Ey.
    cbn [zpad append String.compare].
    rewrite digit_compare by assumption.
    destruct (Z.compare_spec (x / 10 ^ Z.of_nat w) (y / 10 ^ Z.of_nat w))
      as [Heq|Hlt|Hgt].
    + rewrite IH by assumption.
      replace (x ?= y) with (x mod 10 ^ Z.of_nat w ?= y mod 10 ^ Z.of_nat w);
        [reflexivity|].
      rewrite Ex, Ey at 2. rewrite Heq.
      symmetry. apply Z.add_compare_mono_l.
    + assert (x < y) by nia.
      replace (x ?= y) with Lt by (symmetry; now apply Z.compare_lt_iff).
      reflexivity.
    + assert (y < x) by nia.
      replace (x ?= y) with Gt by (symmetry; now apply Z.compare_gt_iff).
      reflexivity.
Qed.

Lemma compare_same_head :
  forall c s t, String.compare (String c s) (String c t) = String.compare s t.
Proof.
  intros c s t. cbn [String.compare].
  replace (Ascii.compare c c) with Eq; [reflexivity|].
  symmetry. unfold Ascii.compare. apply N.compare_refl.
Qed.

Lemma append_empty_r : forall s : string, s ++ "" = s.
Proof. induction s as [|c s IH]; cbn; [reflexivity | now rewrite IH]. Qed.

Lemma fraction_compare :
  forall a b, 0 <= a <= 999999 -> 0 <= b <= 999999 ->
    String.compare (fraction a) (fraction b) = (a ?= b).
Proof.
  intros a b Ha Hb. unfold fraction.
  destruct (Z.eqb_spec a 0) as [->|Hna]; destruct (Z.eqb_spec b 0) as [->|Hnb].
  - reflexivity.
  - replace (0 ?= b) with Lt by (symmetry; apply Z.compare_lt_iff; lia).
    reflexivity.
  - replace (a ?= 0) with Gt by (symmetry; apply Z.compare_gt_iff; lia).
    reflexivity.
  - change ("." ++ zpad 6 a) with (String "." (zpad 6 a)).
    change ("." ++ zpad 6 b) with (String "." (zpad 6 b)).
    rewrite compare_same_head.
    rewrite <- (append_empty_r (zpad 6 a)), <- (append_empty_r (zpad 6 b)).
    rewrite zpad_compare by (change (10 ^ Z.of_nat 6) with 1000000; lia).
    apply lex_eq_r.
Qed.

Lemma days_in_month_bound : forall y m, 28 <= days_in_month y m <= 31.
Proof.
  intros y m. unfold days_in_month.
  destruct (m =? 2); [destruct (is_leap y); lia|].
  destruct (orb _ _); lia.
Qed.

Lemma valid_datetime_widths :
  forall d, valid_datetime d ->
    0 <= year d < 10 ^ Z.of_nat 4 /\ 0 <= month d < 10 ^ Z.of_nat 2
    /\ 0 <= day d < 10 ^ Z.of_nat 2 /\ 0 <= hour d < 10 ^ Z.of_nat 2
    /\ 0 <= minute d < 10 ^ Z.of_nat 2 /\ 0 <= second d < 10 ^ Z.of_nat 2
    /\ 0 <= microsecond d <= 999999.
Proof.
  intros d (Hy & Hm & Hd & Hh & Hmi & Hs & Hus).
  pose proof (days_in_month_bound (year d) (month d)).
  change (10 ^ Z.of_nat 4) with 10000. change (10 ^ Z.of_nat 2) with 100.
  lia.
Qed.

Lemma valid_datetimeb_iff : forall d, valid_datetimeb d = true <-> valid_datetime d.
Proof.
  intros d. unfold valid_datetimeb, valid_datetime.
  rewrite !andb_true_iff, !Z.leb_le. tauto.
Qed.

Lemma separator_compare :
  forall c s t,
    String.compare (String c "" ++ s) (String c "" ++ t) = String.compare s t.
Proof. intros. apply compare_same_head. Qed.

Lemma isoformat_fraction :
  forall d,
    isoformat d
    = zpad 4 (year d) ++ "-" ++ zpad 2 (month d) ++ "-" ++ zpad 2 (day d) ++ "T"
      ++ zpad 2 (hour d) ++ ":" ++ zpad 2 (minute d) ++ ":" ++ zpad 2 (second d)
      ++ fraction (microsecond d).
Proof. reflexivity. Qed.

(** The ISO texts of two valid datetimes compare, character by character,
    the way the datetimes compare. *)
Lemma isoformat_compare :
  forall a b, valid_datetime a -> valid_datetime b ->
    String.compare (isoformat a) (isoformat b) = datetime_compare a b.
Proof.
  intros a b Ha Hb.
  destruct (valid_datetime_widths a Ha) as (Ya & Ma & Da & Ha' & Mia & Sa & Ua).
  destruct (valid_datetime_widths b Hb) as (Yb & Mb & Db & Hb' & Mib & Sb & Ub).
  rewrite !isoformat_fraction. unfold datetime_compare.
  rewrite zpad_compare by assumption. f_equal. rewrite separator_compare.
  rewrite zpad_compare by assumption. f_equal. rewrite separator_compare.
  rewrite zpad_compare by assumption. f_equal. rewrite separator_compare.
  rewrite zpad_compare by assumption. f_equal. rewrite separator_compare.
  rewrite zpad_compare by assumption. f_equal. rewrite separator_compare.
  rewrite zpad_compare by assumption. f_equal.
  now apply fraction_compare.
Qed.

Lemma isoformat_ltb :
  forall a b, valid_datetime a -> valid_datetime b ->
    String.ltb (isoformat a) (isoformat b) = datetime_ltb a b.
Proof.
  intros a b Ha Hb. unfold String.ltb, datetime_ltb.
  now rewrite isoformat_compare.
Qed.

Lemma isoformat_leb :
  forall a b, valid_datetime a -> valid_datetime b ->
    String.leb (isoformat a) (isoformat b) = datetime_leb a b.
Proof.
  intros a b Ha Hb. unfold String.leb, datetime_leb.
  now rewrite isoformat_compare.
Qed.

Lemma read_digits_zpad :
  forall w x acc rest,
    0 <= x < 10 ^ Z.of_nat w ->
    read_digits w acc (zpad w x ++ rest) = Some (acc * 10 ^ Z.of_nat w + x, rest).
Proof.
  induction w as [|w IH]; intros x acc rest Hx.
  - cbn in *. f_equal. f_equal. lia.
  - destruct (leading_digit w x Hx) as [Hq Hr].
    pose proof (pow10_pos w) as Hp.
    cbn [zpad append read_digits]. rewrite digit_value_digit by assumption.
    rewrite IH by assumption. f_equal. f_equal.
    rewrite pow10_succ.
    pose proof (Z.div_mod x (10 ^ Z.of_nat w) ltac:(lia)). nia.
Qed.

Lemma read_field :
  forall w x rest,
    0 <= x < 10 ^ Z.of_nat w ->
    read_digits w 0 (zpad w x ++ rest) = Some (x, rest).
Proof. intros. now rewrite read_digits_zpad. Qed.

Lemma expect_separator :
  forall c s, expect c (String c "" ++ s) = Some s.
Proof. intros c s. cbn. now rewrite Ascii.eqb_refl. Qed.

Lemma read_isoformat_isoformat :
  forall d, valid_datetime d -> read_isoformat (isoformat d) = Some d.
Proof.
  intros d Hd.
  destruct (valid_datetime_widths d Hd) as (Y & M & D & H & Mi & S & U).
  rewrite isoformat_fraction. unfold read_isoformat.
  rewrite read_field by assumption. cbn [opt_bind]. rewrite expect_separator.
  cbn [opt_bind].
  rewrite read_field by assumption. cbn [opt_bind]. rewrite expect_separator.
  cbn [opt_bind].
  rewrite read_field by assumption. cbn [opt_bind]. rewrite expect_separator.
  cbn [opt_bind].
  rewrite read_field by assumption. cbn [opt_bind]. rewrite expect_separator.
  cbn [opt_bind].
  rewrite read_field by assumption. cbn [opt_bind]. rewrite expect_separator.
  cbn [opt_bind].
  rewrite <- (append_empty_r (fraction (microsecond d))).
  rewrite read_field by assumption. cbn [opt_bind]. rewrite append_empty_r.
  unfold fraction. destruct (Z.eqb_spec (microsecond d) 0) as [H0|H0].
  - destruct d; cbn in *; now subst.
  - change ("." ++ zpad 6 (microsecond d)) with (String "." (zpad 6 (microsecond d))).
    cbn [Ascii.eqb Bool.eqb]. cbn match.
    rewrite <- (append_empty_r (zpad 6 (microsecond d))).
    rewrite read_field by (change (10 ^ Z.of_nat 6) with 1000000; lia).
    cbn [opt_bind]. now destruct d.
Qed.

Lemma fromisoformat_isoformat :
  forall d, valid_datetime d -> fromisoformat (isoformat d) = Return d.
Proof.
  intros d Hd. unfold fromisoformat. rewrite read_isoformat_isoformat by assumption.
  apply valid_datetimeb_iff in Hd. now rewrite Hd.
Qed.

(** ** Cleanup *)

Section FilterFacts.
Context {A : Type}.

Lemma filter_twice :
  forall (p q : A -> bool) l,
    filter p (filter q l) = filter (fun x => andb (q x) (p x)) l.
Proof.
  intros p q. induction l as [|x l IH]; cbn; [reflexivity|].
  destruct (q x); cbn; [destruct (p x)|]; now rewrite IH.
Qed.

Lemma filter_none :
  forall (p : A -> bool) l,
    (forall x, In x l -> p x = false) -> filter p l = [].
Proof.
  intros p. induction l as [|x l IH]; cbn; intros Hall; [reflexivity|].
  rewrite (Hall x) by auto. apply IH. auto.
Qed.

Lemma filter_all :
  forall (p : A -> bool) l,
    (forall x, In x l -> p x = true) -> filter p l = l.
Proof.
  intros p. induction l as [|x l IH]; cbn; intros Hall; [reflexivity|].
  rewrite (Hall x) by auto. f_equal. apply IH. auto.
Qed.

Lemma filter_complement_none :
  forall (p : A -> bool) l, filter p (filter (fun x => negb (p x)) l) = [].
Proof.
  intros p l. apply filter_none. intros x Hx.
  apply filter_In in Hx. now destruct (p x), Hx.
Qed.

Lemma filter_complement_all :
  forall (p : A -> bool) l,
    filter (fun x => negb (p x)) (filter (fun x => negb (p x)) l)
    = filter (fun x => negb (p x)) l.
Proof.
  intros p l. apply filter_all. intros x Hx. now apply filter_In in Hx.
Qed.

Lemma NoDup_map_same :
  forall (B : Type) (key : A -> B) l x y,
    NoDup (map key l) -> In x l -> In y l -> key x = key y -> x = y.
Proof.
  intros B key. induction l as [|z l IH]; cbn; intros x y Hnd Hx Hy Hk.
  - contradiction.
  - inversion Hnd as [|? ? Hnotin Hnd']; subst.
    destruct Hx as [->|Hx]; destruct Hy as [->|Hy].
    + reflexivity.
    + exfalso. apply Hnotin. rewrite Hk. now apply in_map.
    + exfalso. apply Hnotin. rewrite <- Hk. now apply in_map.
    + now apply IH.
Qed.

Lemma NoDup_map_filter :
  forall (B : Type) (key : A -> B) (p : A -> bool) l,
    NoDup (map key l) -> NoDup (map key (filter p l)).
Proof.
  intros B key p. induction l as [|z l IH]; cbn; intros Hnd; [constructor|].
  inversion Hnd as [|? ? Hnotin Hnd']; subst.
  destruct (p z); cbn; [|now apply IH].
  constructor; [|now apply IH].
  intros Hin. apply Hnotin. apply in_map_iff in Hin.
  destruct Hin as (y & Hy & Hiny). apply filter_In in Hiny.
  rewrite <- Hy. apply in_map. tauto.
Qed.

End FilterFacts.

Lemma mem_str_In : forall s l, mem_str s l = true <-> In s l.
Proof.
  intros s l. unfold mem_str. rewrite existsb_exists. split.
  - intros (x & Hx & Heq). apply String.eqb_eq in Heq. now subst.
  - intros Hin. exists s. split; [exact Hin | apply String.eqb_refl].
Qed.

Lemma cleanup_files_outcome :
  forall older_than fs n st,
    disk_fault st = false ->
    cleanup_files older_than fs n st
    = (Return (n + len (filter (fun f => datetime_ltb (st_mtime f) older_than) fs)),
       with_directory st
         (filter (fun g =>
                    negb (mem_str (path_name g)
                            (map path_name
                               (filter (fun f => datetime_ltb (st_mtime f) older_than)
                                       fs))))
                 (log_directory st))).
Proof.
  intros older_than. induction fs as [|f fs IH]; intros n st Hd.
  - cbn. rewrite filter_all by reflexivity. rewrite with_directory_same.
    unfold ret, len. cbn. do 2 f_equal. lia.
  - cbn [cleanup_files filter]. destruct (datetime_ltb (st_mtime f) older_than).
    + unfold pbind at 1. unfold unlink_file, write_guard, pbind, get, ret, modify.
      rewrite Hd. rewrite IH by exact Hd.
      cbn [log_directory with_directory max_file_size max_files
             compress_old_files encrypt_files cipher_suite current_file
             disk_fault file_errors].
      unfold unlink. rewrite filter_twice. f_equal.
      * f_equal. unfold len. cbn [List.length]. rewrite Nat2Z.inj_succ. lia.
      * unfold with_directory. cbn. f_equal.
        apply filter_ext. intros g. cbn [map mem_str existsb].
        rewrite (String.eqb_sym (path_name g)). unfold mem_str.
        now rewrite negb_orb.
    + now apply IH.
Qed.

Lemma cleanup_files_fault :
  forall older_than fs n st,
    disk_fault st = true ->
    cleanup_files older_than fs n st
    = if existsb (fun f => datetime_ltb (st_mtime f) older_than) fs
      then (Raise OSError, st)
      else (Return n, st).
Proof.
  intros older_than. induction fs as [|f fs IH]; intros n st Hd; [reflexivity|].
  cbn [cleanup_files existsb]. destruct (datetime_ltb (st_mtime f) older_than).
  - unfold pbind at 1. unfold unlink_file, write_guard, pbind, get, raise.
    now rewrite Hd.
  - now apply IH.
Qed.

Lemma existsb_filter :
  forall (A : Type) (p q : A -> bool) l,
    existsb p (filter q l) = existsb (fun x => andb (q x) (p x)) l.
Proof.
  intros A p q. induction l as [|x l IH]; cbn; [reflexivity|].
  destruct (q x); cbn; now rewrite IH.
Qed.

Lemma existsb_false_filter :
  forall (A : Type) (p : A -> bool) l, existsb p l = false -> filter p l = [].
Proof.
  intros A p. induction l as [|x l IH]; cbn; [reflexivity|].
  destruct (p x); cbn; [discriminate | exact IH].
Qed.

Lemma file_cleanup_outcome :
  forall older_than st,
    NoDup (map path_name (log_directory st)) ->
    disk_fault st = false ->
    file_cleanup_old_events older_than st
    = (Return (len (filter (stale older_than) (log_directory st))),
       with_directory st
         (filter (fun f => negb (stale older_than f)) (log_directory st))).
Proof.
  intros older_than st Hnd Hd.
  unfold file_cleanup_old_events, pbind, get.
  rewrite cleanup_files_outcome by exact Hd. unfold glob. rewrite filter_twice.
  fold (stale older_than). cbn. do 2 f_equal.
  apply filter_ext_in. intros g Hg. f_equal.
  destruct (stale older_than g) eqn:Hs.
  - apply mem_str_In. apply in_map. apply filter_In. now split.
  - destruct (mem_str _ _) eqn:Hm; [|reflexivity].
    apply mem_str_In, in_map_iff in Hm. destruct Hm as (h & Hname & Hh).
    apply filter_In in Hh. destruct Hh as [Hh Hstale].
    assert (h = g) by (eapply NoDup_map_same; eauto). subst. congruence.
Qed.

Lemma file_cleanup_fault :
  forall older_than st,
    disk_fault st = true ->
    file_cleanup_old_events older_than st
    = if existsb (stale older_than) (log_directory st)
      then (Raise OSError, st)
      else (Return 0, st).
Proof.
  intros older_than st Hd.
  unfold file_cleanup_old_events, pbind, get.
  rewrite cleanup_files_fault by exact Hd. unfold glob.
  now rewrite existsb_filter.
Qed.

Lemma db_cleanup_outcome :
  forall older_than db,
    db_cleanup_old_events older_than db
    = if db_fault db
      then (Return 0,
            snd (db_log_error "Failed to cleanup old events: OperationalError" db))
      else (Return (len (filter (expired older_than) (audit_events db))),
            with_rows db
              (filter (fun r => negb (expired older_than r)) (audit_events db))).
Proof.
  intros older_than db.
  unfold db_cleanup_old_events, try_catch, pbind, connect, get, raise, ret,
    modify, db_log_error, expired.
  cbn -[isoformat String.ltb len].
  destruct (db_fault db) eqn:Hfault; cbn -[isoformat String.ltb len];
    rewrite ?Hfault; reflexivity.
Qed.

(** C7, as stated, fails on the file backend (here in a process whose
    local time is UTC): a cleanup at 10:00:01 leaves the event of 10:00:00
    in place and returns 0, because the file that holds it was last
    written at 10:00:02; and a cleanup at 10:00:03 deletes both events and
    returns 1, the number of files. *)
Lemma file_cleanup_is_per_file :
  datetime_ltb (timestamp old_event) one_past_ten = true
  /\ fst (cleanup_old_events one_past_ten two_event_store) = Return 0
  /\ fst (retrieve_events "" None 1000
            (snd (cleanup_old_events one_past_ten two_event_store)))
     = Return [old_event; new_event]
  /\ fst (retrieve_events "" None 1000 two_event_store)
     = Return [old_event; new_event]
  /\ fst (cleanup_old_events three_past_ten two_event_store) = Return 1
  /\ fst (retrieve_events "" None 1000
            (snd (cleanup_old_events three_past_ten two_event_store)))
     = Return [].
Proof. repeat split; vm_compute; reflexivity. Qed.

(** C7, amended.  On the database backend, the connection made,
    [cleanup_old_events] deletes exactly the rows whose timestamp text
    sorts strictly before the text of the instant, which for a stored
    event is its timestamp being strictly before the instant, and returns
    their number.  On the file backend it deletes exactly the log files
    last written strictly before the instant, with every event they hold,
    and returns the number of files; when the directory refuses writes
    and holds such a file, the [OSError] of the first [unlink] leaves the
    call and nothing is deleted.  On both, a call that returned deletes
    nothing and returns 0 when made again at once. *)
Theorem cleanup_old_events_granularity :
  (forall (older_than : datetime) (db : DatabaseAuditStorage),
     db_fault db = false ->
     let after := snd (cleanup_old_events older_than db) in
     cleanup_old_events older_than db
     = (Return (len (filter (expired older_than) (audit_events db))),
        with_rows db
          (filter (fun r => negb (expired older_than r)) (audit_events db)))
     /\ cleanup_old_events older_than after = (Return 0, after))
  /\ (forall (older_than : datetime) (event : AuditEvent)
             (details frameworks : document),
        valid_datetime older_than -> valid_datetime (timestamp event) ->
        expired older_than (event_row event details frameworks)
        = datetime_ltb (timestamp event) older_than)
  /\ (forall (older_than : datetime) (st : FileAuditStorage),
        NoDup (map path_name (log_directory st)) ->
        let after := snd (cleanup_old_events older_than st) in
        if andb (disk_fault st) (existsb (stale older_than) (log_directory st))
        then cleanup_old_events older_than st = (Raise OSError, st)
        else cleanup_old_events older_than st
             = (Return (len (filter (stale older_than) (log_directory st))),
                with_directory st
                  (filter (fun f => negb (stale older_than f)) (log_directory st)))
             /\ cleanup_old_events older_than after = (Return 0, after)).
Proof.
  split; [|split].
  - intros older_than db Hfault after. subst after.
    cbn [cleanup_old_events DatabaseAuditStorage_storage].
    rewrite db_cleanup_outcome, Hfault. cbn [snd]. split; [reflexivity|].
    rewrite db_cleanup_outcome. cbn [db_fault with_rows audit_events].
    rewrite Hfault, filter_complement_none, filter_complement_all.
    reflexivity.
  - intros older_than event details frameworks HT He.
    unfold expired. cbn [c_timestamp event_row]. now apply isoformat_ltb.
  - intros older_than st Hnd after. subst after.
    cbn [cleanup_old_events FileAuditStorage_storage].
    destruct (disk_fault st) eqn:Hd; cbn [andb].
    + rewrite file_cleanup_fault by exact Hd.
      destruct (existsb (stale older_than) (log_directory st)) eqn:Hex;
        [reflexivity|].
      cbn [snd]. rewrite file_cleanup_fault, Hex by exact Hd.
      split; [|reflexivity].
      rewrite (existsb_false_filter _ _ _ Hex).
      rewrite filter_all, with_directory_same; [reflexivity|].
      intros f Hf. apply negb_true_iff.
      destruct (stale older_than f) eqn:Hs; [|reflexivity].
      assert (Hin : existsb (stale older_than) (log_directory st) = true)
        by (apply existsb_exists; now exists f).
      congruence.
    + rewrite file_cleanup_outcome by assumption. cbn [snd].
      split; [reflexivity|].
      rewrite file_cleanup_outcome
        by (cbn; first [now apply NoDup_map_filter | exact Hd]).
      cbn [log_directory with_directory].
      rewrite filter_complement_none, filter_complement_all. reflexivity.
Qed.

(** C7 at the file store of two events, at the same store when its
    directory refuses writes, at a table of their two rows, and at the row
    of the older event. *)
Lemma cleanup_old_events_granularity_witness :
  cleanup_old_events three_past_ten two_event_store
  = (Return 1, with_directory two_event_store [])
  /\ cleanup_old_events three_past_ten (with_directory two_event_store [])
     = (Return 0, with_directory two_event_store [])
  /\ cleanup_old_events three_past_ten (read_only two_event_store)
     = (Raise OSError, read_only two_event_store)
  /\ fst (cleanup_old_events one_past_ten
            (mkDatabaseAuditStorage (map stored_row [old_event; new_event])
               sqlite_order false []))
     = Return 1
  /\ expired one_past_ten (stored_row old_event) = true.
Proof.
  assert (Hnd : NoDup (map path_name (log_directory two_event_store))).
  { vm_compute. repeat constructor. intros []. }
  pose proof (proj2 (proj2 cleanup_old_events_granularity)
                three_past_ten two_event_store Hnd) as Hfile.
  pose proof (proj2 (proj2 cleanup_old_events_granularity)
                three_past_ten (read_only two_event_store) Hnd) as Hrefused.
  cbv zeta in Hfile, Hrefused.
  change (andb (disk_fault two_event_store)
            (existsb (stale three_past_ten) (log_directory two_event_store)))
    with false in Hfile.
  change (andb (disk_fault (read_only two_event_store))
            (existsb (stale three_past_ten)
               (log_directory (read_only two_event_store))))
    with true in Hrefused.
  cbv iota in Hfile, Hrefused.
  destruct Hfile as [Hfirst Hagain].
  split; [exact Hfirst|]. split; [exact Hagain|]. split; [exact Hrefused|].
  split.
  - destruct (proj1 cleanup_old_events_granularity one_past_ten
                (mkDatabaseAuditStorage (map stored_row [old_event; new_event])
                   sqlite_order false [])
                eq_refl) as [Hdb _].
    rewrite Hdb. vm_compute. reflexivity.
  - unfold stored_row. rewrite (proj1 (proj2 cleanup_old_events_granularity)).
    + reflexivity.
    + vm_compute. repeat split; discriminate.
    + vm_compute. repeat split; discriminate.
Defined.

(** ** Serialisation round trip *)

(** On a value JSON represents as it is, [default=str] has nothing to do:
    encoding and decoding gives the value back. *)
Lemma json_default_str_native :
  forall v, json_native v = true -> json_default_str v = v.
Proof.
  induction v using pyval_nested_ind; cbn; intros Hn;
    try reflexivity; try discriminate.
  - f_equal. induction H as [|x l Hx Hl IH]; cbn in *; [reflexivity|].
    apply andb_true_iff in Hn. destruct Hn as [Hnx Hnl].
    now rewrite Hx, IH.
  - f_equal. induction H as [|[k x] l Hx Hl IH]; cbn in *; [reflexivity|].
    apply andb_true_iff in Hn. destruct Hn as [Hnx Hnl].
    now rewrite Hx, IH.
Qed.

Lemma json_default_str_idempotent :
  forall v, json_default_str (json_default_str v) = json_default_str v.
Proof.
  induction v using pyval_nested_ind; cbn; try reflexivity.
  - f_equal. induction H as [|x l Hx Hl IH]; cbn in *; [reflexivity|].
    now rewrite Hx, IH.
  - f_equal. induction H as [|[k x] l Hx Hl IH]; cbn in *; [reflexivity|].
    now rewrite Hx, IH.
Qed.

Lemma frameworks_array_native :
  forall s : framework_set,
    forallb json_native (map (fun f => PStr (ComplianceFramework_value f)) s) = true.
Proof. induction s; cbn; auto. Qed.

Lemma to_dict_native :
  forall e, json_native (PDict (details e)) = true ->
    json_native (PDict (to_dict e)) = true.
Proof.
  intros e Hd. cbn in *. rewrite Hd, frameworks_array_native.
  destruct (source_ip e), (user_agent e), (session_id e), (correlation_id e),
    (sensitive_data e); reflexivity.
Qed.

Lemma AuditLevel_of_value : forall l, AuditLevel_of (AuditLevel_value l) = Return l.
Proof. destruct l; reflexivity. Qed.

Lemma AuditCategory_of_value :
  forall c, AuditCategory_of (AuditCategory_value c) = Return c.
Proof. destruct c; reflexivity. Qed.

Lemma AuditAction_of_value : forall a, AuditAction_of (AuditAction_value a) = Return a.
Proof. destruct a; reflexivity. Qed.

Lemma ComplianceFramework_of_value :
  forall f, ComplianceFramework_of (ComplianceFramework_value f) = Return f.
Proof. destruct f; reflexivity. Qed.

Lemma frameworks_of_array :
  forall s acc,
    frameworks_of (map (fun f => PStr (ComplianceFramework_value f)) s) acc
    = Return (fw_update s acc).
Proof.
  induction s as [|f s IH]; intros acc; cbn; [reflexivity|].
  rewrite ComplianceFramework_of_value. cbn. apply IH.
Qed.

Lemma fw_add_absent : forall f s, ~ In f s -> fw_add f s = (s ++ [f])%list.
Proof.
  unfold fw_add. induction s as [|g s IH]; cbn; intros Hnot; [reflexivity|].
  destruct (ComplianceFramework_eq_dec f g) as [->|Hne]; [tauto|].
  rewrite IH by tauto. reflexivity.
Qed.

Lemma fw_update_fresh :
  forall s acc, NoDup (acc ++ s) -> fw_update s acc = (acc ++ s)%list.
Proof.
  unfold fw_update. induction s as [|f s IH]; intros acc Hnd; cbn.
  - now rewrite app_nil_r.
  - rewrite fw_add_absent.
    + rewrite IH; rewrite <- app_assoc; [reflexivity | exact Hnd].
    + apply NoDup_remove_2 in Hnd. intros Hin. apply Hnd.
      apply in_or_app. now left.
Qed.

Lemma fw_of_list_NoDup : forall s, NoDup s -> fw_of_list s = s.
Proof. intros s Hnd. unfold fw_of_list. now rewrite fw_update_fresh. Qed.

Lemma post_init_constructed :
  forall u e,
    u <> "" -> valid_datetime (timestamp e) -> NoDup (compliance_frameworks e) ->
    constructed (__post_init__ u e).
Proof.
  intros u e Hu Hts Hnd.
  destruct (post_init_fields u e)
    as (Ht & _ & Hc & _ & _ & Htg & _ & _ & _ & _ & _ & _ & _ & _ & _ & Hid).
  split.
  - rewrite Hid. destruct (String.eqb_spec (event_id e) ""); assumption.
  - now rewrite Ht.
  - rewrite post_init_frameworks. now apply assign_frameworks_NoDup.
  - rewrite post_init_frameworks.
    rewrite (assign_frameworks_ext _ e) by assumption.
    apply assign_frameworks_idempotent.
Qed.

Lemma log_event_event_constructed :
  forall uuid4 now lv cat act actr tgt res msg kw,
    uuid4 <> "" -> valid_datetime now ->
    NoDup (or_default [] (kw_compliance_frameworks kw)) ->
    constructed (log_event_event uuid4 now lv cat act actr tgt res msg kw).
Proof.
  intros. unfold log_event_event, new_AuditEvent.
  now apply post_init_constructed.
Qed.

Lemma post_init_constructed_id :
  forall u e, constructed e -> __post_init__ u e = e.
Proof.
  intros u e [Hid _ _ Hfw]. unfold __post_init__.
  apply String.eqb_neq in Hid. rewrite Hid.
  unfold _assign_compliance_frameworks. rewrite Hfw. now destruct e.
Qed.

Ltac to_dict_lookups :=
  repeat match goal with
         | |- context [lookup ?k (to_dict ?e)] =>
             let v := eval cbv [lookup to_dict String.eqb Ascii.eqb Bool.eqb]
                      in (lookup k (to_dict e)) in
             change (lookup k (to_dict e)) with v
         end.

Lemma to_dict_known_fields :
  forall e, forallb (fun kv => known_field (fst kv)) (to_dict e) = true.
Proof. reflexivity. Qed.

Lemma dict_to_event_to_dict :
  forall u e, constructed e -> dict_to_event u (to_dict e) = Return e.
Proof.
  intros u e He.
  unfold dict_to_event, item, required_str, optional_str, optional_dict,
    optional_int, optional_flag.
  rewrite to_dict_known_fields. to_dict_lookups.
  cbn [bind enum_of as_str iterate].
  rewrite AuditLevel_of_value, AuditCategory_of_value, AuditAction_of_value.
  cbn [bind]. rewrite fromisoformat_isoformat by apply He. cbn [bind].
  rewrite frameworks_of_array. fold (fw_of_list (compliance_frameworks e)).
  rewrite fw_of_list_NoDup by apply He. cbn [bind].
  assert (Hopt : forall (o : option string) (k : option string -> outcome AuditEvent),
            (x <- match opt_str o with
                  | PNone => Return None
                  | PStr s => Return (Some s)
                  | _ => Raise TypeError
                  end ;; k x) = k o).
  { intros o k. now destruct o. }
  rewrite !Hopt.
  destruct (sensitive_data e) eqn:Hsd; cbn [bind]; rewrite <- Hsd;
    unfold new_AuditEvent; f_equal; (transitivity (__post_init__ u e);
    [now destruct e | now apply post_init_constructed_id]).
Qed.

(** Reading back what [to_json] wrote gives the event, field by field. *)
Lemma read_event_to_json :
  forall u e,
    constructed e -> json_native (PDict (details e)) = true ->
    read_event u (to_json e) = Return e.
Proof.
  intros u e He Hd. unfold read_event, to_json, json_dumps_default_str, json_loads.
  rewrite json_default_str_idempotent.
  rewrite json_default_str_native by now apply to_dict_native.
  cbn [bind _dict_to_event]. now apply dict_to_event_to_dict.
Qed.


(** C9, as stated, fails already without a round trip: two events equal
    in every field, whose details hold the same two items entered in a
    different order, serialise to different texts and have different
    checksums. *)
Lemma field_equal_events_differ_in_checksum :
  field_equal (customers_read table_first) (customers_read records_first)
  /\ document_text (to_json (customers_read table_first))
     <> document_text (to_json (customers_read records_first))
  /\ calculate_checksum (customers_read table_first)
     <> calculate_checksum (customers_read records_first).
Proof.
  split; [|split].
  - assert (Hmap : same_mapping table_first records_first).
    { intros k. unfold table_first, records_first. cbn [lookup].
      destruct (String.eqb_spec k "table") as [Htable|];
        destruct (String.eqb_spec k "records_accessed") as [Hrecords|];
        try reflexivity. rewrite Htable in Hrecords. discriminate Hrecords. }
    unfold field_equal, same_set.
    repeat split; try reflexivity; try exact Hmap; auto.
  - apply String.eqb_neq. vm_compute. reflexivity.
  - apply String.eqb_neq. vm_compute. reflexivity.
Qed.

(** The listing of the order of insertion gives [to_json] itself. *)
Lemma to_json_listed_as_built :
  forall e, to_json_listed (fun s => s) e = to_json e.
Proof. now intros []. Qed.

Lemma implied_with_compliance_frameworks :
  forall e s, implied (with_compliance_frameworks e s) = implied e.
Proof. reflexivity. Qed.

Lemma constructed_implied :
  forall e f, constructed e -> In f (implied e) -> In f (compliance_frameworks e).
Proof.
  intros e f He Hf. rewrite <- (frameworks_derived e He).
  rewrite assign_frameworks_update. now apply fw_update_has.
Qed.

(** An event whose set is listed in another order is still a constructed
    event. *)
Lemma constructed_listed :
  forall e s,
    constructed e -> NoDup s ->
    (forall f, In f s <-> In f (compliance_frameworks e)) ->
    constructed (with_compliance_frameworks e s).
Proof.
  intros e s He Hnd Hsame. split.
  - exact (has_event_id e He).
  - exact (has_timestamp e He).
  - exact Hnd.
  - cbn [compliance_frameworks with_compliance_frameworks].
    rewrite assign_frameworks_update, implied_with_compliance_frameworks.
    apply fw_update_present. intros f Hf. apply Hsame.
    now apply constructed_implied.
Qed.

Lemma read_event_to_json_listed :
  forall listing uuid4 e,
    constructed e -> json_native (PDict (details e)) = true ->
    NoDup (listing (compliance_frameworks e)) ->
    same_set (listing (compliance_frameworks e)) (compliance_frameworks e) ->
    read_event uuid4 (to_json_listed listing e)
    = Return (with_compliance_frameworks e (listing (compliance_frameworks e))).
Proof.
  intros listing uuid4 e He Hd Hnd Hsame.
  change (to_json_listed listing e)
    with (to_json (with_compliance_frameworks e (listing (compliance_frameworks e)))).
  apply read_event_to_json; [|exact Hd].
  now apply constructed_listed.
Qed.

(** C9 at its failing input.  The module writes the framework set as it
    lists and sorts nothing.  Whatever the order of listing, reading back
    what [to_json] wrote gives an event equal to the original in every
    field, enumerations as their tags and the timestamp as ISO-8601; its
    checksum is the original's when the set rebuilt from the array lists
    as the original did.  In a CPython process started with
    PYTHONHASHSEED=5 it does not: the set of an authentication event,
    built by adding SOC2, ISO27001 and PCI_DSS, lists as soc2, pci_dss,
    iso27001, and the set rebuilt from that array lists as soc2,
    iso27001, pci_dss, so that the event read back, equal in every field,
    has another checksum.  So have two events equal in every field whose
    details were entered in another order. *)
Theorem checksum_follows_set_order :
  (forall (listing : framework_set -> list ComplianceFramework)
          (uuid4 : string) (e : AuditEvent),
     constructed e -> json_native (PDict (details e)) = true ->
     NoDup (listing (compliance_frameworks e)) ->
     same_set (listing (compliance_frameworks e)) (compliance_frameworks e) ->
     let e' := with_compliance_frameworks e (listing (compliance_frameworks e)) in
     read_event uuid4 (to_json_listed listing e) = Return e'
     /\ field_equal e e'
     /\ (listing (compliance_frameworks e') = listing (compliance_frameworks e) ->
         calculate_checksum_listed listing e' = calculate_checksum_listed listing e))
  /\ (forall (listing : framework_set -> list ComplianceFramework) (e : AuditEvent),
        lookup "level" (to_dict_listed listing e)
        = Some (PStr (AuditLevel_value (level e)))
        /\ lookup "category" (to_dict_listed listing e)
           = Some (PStr (AuditCategory_value (category e)))
        /\ lookup "action" (to_dict_listed listing e)
           = Some (PStr (AuditAction_value (action e)))
        /\ lookup "timestamp" (to_dict_listed listing e)
           = Some (PStr (isoformat (timestamp e)))
        /\ lookup "compliance_frameworks" (to_dict_listed listing e)
           = Some (PList (map (fun f => PStr (ComplianceFramework_value f))
                              (listing (compliance_frameworks e)))))
  /\ (compliance_frameworks alice_login = [SOC2; ISO27001; PCI_DSS]
      /\ PySet.listing hash_seed_5 [SOC2; ISO27001; PCI_DSS]
         = [SOC2; PCI_DSS; ISO27001]
      /\ PySet.listing hash_seed_5 [SOC2; PCI_DSS; ISO27001]
         = [SOC2; ISO27001; PCI_DSS]
      /\ exists e',
           read_event "" (to_json_listed (PySet.listing hash_seed_5) alice_login)
           = Return e'
           /\ field_equal alice_login e'
           /\ calculate_checksum_listed (PySet.listing hash_seed_5) alice_login
              = "8c2abfd2654c70d1db4b7ebf317ac6e1dc5dd8d6262d81f1b4821a0a5dba03cf"
           /\ calculate_checksum_listed (PySet.listing hash_seed_5) e'
              = "29de1b504cc879f9bf373f74e67bbda2ed7d399ad9e888301ce98d15db1cbc0d"
           /\ calculate_checksum_listed (PySet.listing hash_seed_5) e'
              <> calculate_checksum_listed (PySet.listing hash_seed_5) alice_login)
  /\ (field_equal (customers_read table_first) (customers_read records_first)
      /\ calculate_checksum (customers_read table_first)
         <> calculate_checksum (customers_read records_first)).
Proof.
  assert (Hround :
    forall (listing : framework_set -> list ComplianceFramework)
           (uuid4 : string) (e : AuditEvent),
      constructed e -> json_native (PDict (details e)) = true ->
      NoDup (listing (compliance_frameworks e)) ->
      same_set (listing (compliance_frameworks e)) (compliance_frameworks e) ->
      let e' := with_compliance_frameworks e (listing (compliance_frameworks e)) in
      read_event uuid4 (to_json_listed listing e) = Return e'
      /\ field_equal e e'
      /\ (listing (compliance_frameworks e') = listing (compliance_frameworks e) ->
          calculate_checksum_listed listing e' = calculate_checksum_listed listing e)).
  { intros listing uuid4 e He Hd Hnd Hsame e'. subst e'.
    split; [now apply read_event_to_json_listed|]. split.
    - unfold field_equal, same_mapping.
      cbn [event_id timestamp level category action actor target result message
           details source_ip user_agent session_id correlation_id
           compliance_frameworks risk_score sensitive_data
           with_compliance_frameworks].
      repeat split; try reflexivity; apply Hsame.
    - cbn [compliance_frameworks with_compliance_frameworks]. intros Hstable.
      unfold calculate_checksum_listed, to_json_listed, to_dict_listed.
      cbn [compliance_frameworks with_compliance_frameworks].
      now rewrite Hstable. }
  split; [exact Hround|]. split; [|split].
  - intros listing e. repeat split; reflexivity.
  - split; [vm_compute; reflexivity|].
    split; [vm_compute; reflexivity|].
    split; [vm_compute; reflexivity|].
    assert (He : constructed alice_login).
    { apply log_event_event_constructed.
      - discriminate.
      - vm_compute. repeat split; discriminate.
      - constructor. }
    assert (Hfw : compliance_frameworks alice_login = [SOC2; ISO27001; PCI_DSS])
      by (vm_compute; reflexivity).
    assert (Hlist : PySet.listing hash_seed_5 [SOC2; ISO27001; PCI_DSS]
                    = [SOC2; PCI_DSS; ISO27001])
      by (vm_compute; reflexivity).
    destruct (Hround (PySet.listing hash_seed_5) "" alice_login He eq_refl)
      as (Hread & Hequal & _).
    + rewrite Hfw, Hlist. repeat constructor; cbn; intuition discriminate.
    + rewrite Hfw, Hlist. intros f. cbn. tauto.
    + eexists. split; [exact Hread|]. split; [exact Hequal|].
      split; [vm_compute; reflexivity|].
      split; [vm_compute; reflexivity|].
      apply String.eqb_neq. vm_compute. reflexivity.
  - split; apply field_equal_events_differ_in_checksum.
Qed.

(** C3 at its failing inputs.  On the file backend two sequential
    synchronous calls come back in call order, oldest first, and a limit
    of one keeps the older event; on the database backend a filter that
    both events pass brings back nothing, while no filter brings them
    back newest first, as the table gives them back. *)
Theorem retrieve_events_order_and_filter :
  datetime_ltb (timestamp old_event) (timestamp new_event) = true
  /\ fst (get_events "" None 1000 two_call_file_logger)
     = Return [old_event; new_event]
  /\ fst (get_events "" None 1 two_call_file_logger) = Return [old_event]
  /\ should_log accept_all old_event = true
  /\ should_log accept_all new_event = true
  /\ fst (get_events "" (Some accept_all) 1000 two_call_file_logger)
     = Return [old_event; new_event]
  /\ fst (get_events "" (Some accept_all) 1000 two_call_db_logger) = Return []
  /\ fst (get_events "" None 1000 two_call_db_logger)
     = Return [read_back new_event; read_back old_event].
Proof. repeat split; vm_compute; reflexivity. Qed.

(** C4 at its failing inputs.  On the database backend holding the events
    of 10:00:00 and 10:00:02, the window 10:00:01 to 10:00:03 retrieves one
    event and counts two; the filter built with no argument retrieves none
    and counts two.  The file backend counts what it retrieves. *)
Theorem get_event_count_ignores_criteria :
  fst (retrieve_events "" (Some late_window) 1000 (storage two_call_db_logger))
  = Return [read_back new_event]
  /\ fst (get_event_count "" (Some late_window) (storage two_call_db_logger))
     = Return 2
  /\ fst (retrieve_events "" (Some unset_filter) 1000 (storage two_call_db_logger))
     = Return []
  /\ fst (get_event_count "" (Some unset_filter) (storage two_call_db_logger))
     = Return 2
  /\ fst (retrieve_events "" (Some late_window) 1000 (storage two_call_file_logger))
     = Return [new_event]
  /\ fst (get_event_count "" (Some late_window) (storage two_call_file_logger))
     = Return 1.
Proof. repeat split; vm_compute; reflexivity. Qed.

(** ** What the file backend retrieves and counts *)

Section FileReaders.
Local Open Scope list_scope.
Variable st : FileAuditStorage.
Variable uuid4 : string.
Variable filter : option AuditFilter.

Lemma len_app : forall (A : Type) (a b : list A), len (a ++ b) = len a + len b.
Proof. intros. unfold len. rewrite length_app. lia. Qed.

Lemma len_nonneg : forall (A : Type) (a : list A), 0 <= len a.
Proof. intros. unfold len. lia. Qed.

Lemma len_zero : forall (A : Type) (a : list A), len a <= 0 -> a = [].
Proof. intros A [|x a]; unfold len; cbn; [reflexivity | lia]. Qed.

Lemma line_events_pass :
  forall l, Forall (fun e => passes filter e = true) (line_events st uuid4 filter l).
Proof.
  intros l. unfold line_events.
  destruct (decode_line st uuid4 l) as [e|]; [|constructor].
  destruct (passes filter e) eqn:Hp; repeat constructor. exact Hp.
Qed.

Lemma retrieve_lines_step :
  forall limit l r events,
    retrieve_lines st uuid4 filter limit (l :: r) events
    = if len events >=? limit then events
      else retrieve_lines st uuid4 filter limit r (events ++ (line_events st uuid4 filter) l).
Proof.
  intros limit l r events. cbn [retrieve_lines]. unfold line_events.
  destruct (len events >=? limit); [reflexivity|].
  destruct (decode_line st uuid4 l) as [e|].
  - destruct (passes filter e); [reflexivity | now rewrite app_nil_r].
  - now rewrite app_nil_r.
Qed.

Lemma line_events_short : forall l, len (line_events st uuid4 filter l) <= 1.
Proof.
  intros l. unfold line_events.
  destruct (decode_line st uuid4 l) as [e|]; [destruct (passes filter e)|];
    unfold len; cbn; lia.
Qed.

Lemma retrieve_lines_bound :
  forall limit ls events,
    len (retrieve_lines st uuid4 filter limit ls events)
    <= Z.max limit (len events).
Proof.
  intros limit. induction ls as [|l r IH]; intros events.
  - cbn. lia.
  - rewrite retrieve_lines_step.
    destruct (Z.geb_spec (len events) limit) as [Hge|Hlt]; [lia|].
    specialize (IH (events ++ (line_events st uuid4 filter) l)). rewrite len_app in IH.
    pose proof (line_events_short l). pose proof (len_nonneg _ (line_events st uuid4 filter l)).
    lia.
Qed.

Lemma retrieve_lines_pass :
  forall limit ls events,
    Forall (fun e => passes filter e = true) events ->
    Forall (fun e => passes filter e = true)
           (retrieve_lines st uuid4 filter limit ls events).
Proof.
  intros limit. induction ls as [|l r IH]; intros events Hev.
  - exact Hev.
  - rewrite retrieve_lines_step. destruct (len events >=? limit); [exact Hev|].
    apply IH. apply Forall_app. split; [exact Hev | apply line_events_pass].
Qed.

Lemma retrieve_lines_all :
  forall limit ls events,
    len events + len (flat_map (line_events st uuid4 filter) ls) <= limit ->
    retrieve_lines st uuid4 filter limit ls events
    = (events ++ flat_map (line_events st uuid4 filter) ls)%list.
Proof.
  intros limit. induction ls as [|l r IH]; intros events Hroom.
  - cbn. now rewrite app_nil_r.
  - rewrite retrieve_lines_step. cbn [flat_map] in *. rewrite len_app in Hroom.
    pose proof (len_nonneg _ (line_events st uuid4 filter l)).
    pose proof (len_nonneg _ (flat_map (line_events st uuid4 filter) r)).
    destruct (Z.geb_spec (len events) limit) as [Hge|Hlt].
    + rewrite (len_zero _ (line_events st uuid4 filter l)) by lia.
      rewrite (len_zero _ (flat_map (line_events st uuid4 filter) r)) by lia.
      now rewrite app_nil_r.
    + rewrite IH by (rewrite len_app; lia). now rewrite app_assoc.
Qed.

Lemma count_lines_step :
  forall l r count,
    count_lines st uuid4 filter (l :: r) count
    = count_lines st uuid4 filter r (count + len (line_events st uuid4 filter l)).
Proof.
  intros l r count. cbn [count_lines]. unfold line_events.
  destruct (decode_line st uuid4 l) as [e|]; [destruct (passes filter e)|];
    f_equal; unfold len; cbn; lia.
Qed.

Lemma count_lines_sum :
  forall ls count,
    count_lines st uuid4 filter ls count = count + len (flat_map (line_events st uuid4 filter) ls).
Proof.
  induction ls as [|l r IH]; intros count.
  - unfold len. cbn. lia.
  - rewrite count_lines_step, IH. cbn [flat_map]. rewrite len_app. lia.
Qed.

Lemma retrieve_files_bound :
  forall limit fs events errs,
    len (fst (retrieve_files st uuid4 filter limit fs events errs))
    <= Z.max limit (len events).
Proof.
  intros limit. induction fs as [|f r IH]; intros events errs.
  - cbn. lia.
  - cbn [retrieve_files].
    destruct (Z.geb_spec (len events) limit) as [Hge|Hlt]; [cbn; lia|].
    destruct (readable f); [|apply IH].
    etransitivity; [apply IH|].
    pose proof (retrieve_lines_bound limit (file_lines f) events). lia.
Qed.

Lemma retrieve_files_pass :
  forall limit fs events errs,
    Forall (fun e => passes filter e = true) events ->
    Forall (fun e => passes filter e = true)
           (fst (retrieve_files st uuid4 filter limit fs events errs)).
Proof.
  intros limit. induction fs as [|f r IH]; intros events errs Hev.
  - exact Hev.
  - cbn [retrieve_files]. destruct (len events >=? limit); [exact Hev|].
    destruct (readable f); apply IH; [|exact Hev].
    now apply retrieve_lines_pass.
Qed.

Lemma retrieve_files_all :
  forall limit fs events errs,
    len events + len (flat_map (file_events st uuid4 filter) fs) <= limit ->
    fst (retrieve_files st uuid4 filter limit fs events errs)
    = (events ++ flat_map (file_events st uuid4 filter) fs)%list.
Proof.
  intros limit. induction fs as [|f r IH]; intros events errs Hroom.
  - cbn. now rewrite app_nil_r.
  - cbn [retrieve_files flat_map] in *. rewrite len_app in Hroom.
    pose proof (len_nonneg _ (file_events st uuid4 filter f)).
    pose proof (len_nonneg _ (flat_map (file_events st uuid4 filter) r)).
    destruct (Z.geb_spec (len events) limit) as [Hge|Hlt].
    + rewrite (len_zero _ (file_events st uuid4 filter f)) by lia.
      rewrite (len_zero _ (flat_map (file_events st uuid4 filter) r)) by lia.
      cbn. now rewrite app_nil_r.
    + destruct (readable f) eqn:Hread.
      * assert (Hf : (file_events st uuid4 filter) f = flat_map (line_events st uuid4 filter) (file_lines f))
          by (unfold file_events; now rewrite Hread).
        rewrite Hf in *.
        rewrite retrieve_lines_all by lia.
        rewrite IH by (rewrite len_app; lia). now rewrite app_assoc.
      * assert (Hf : (file_events st uuid4 filter) f = []) by (unfold file_events; now rewrite Hread).
        rewrite Hf in *. rewrite IH by lia. reflexivity.
Qed.

Lemma count_files_sum :
  forall fs count errs,
    fst (count_files st uuid4 filter fs count errs)
    = count + len (flat_map (file_events st uuid4 filter) fs).
Proof.
  induction fs as [|f r IH]; intros count errs.
  - unfold len. cbn. lia.
  - cbn [count_files flat_map]. rewrite len_app.
    destruct (readable f) eqn:Hread; rewrite IH.
    + assert (Hf : (file_events st uuid4 filter) f = flat_map (line_events st uuid4 filter) (file_lines f))
        by (unfold file_events; now rewrite Hread).
      rewrite Hf, count_lines_sum. lia.
    + assert (Hf : (file_events st uuid4 filter) f = []) by (unfold file_events; now rewrite Hread).
      rewrite Hf. change (len (@nil AuditEvent)) with 0. lia.
Qed.

End FileReaders.

Lemma insert_desc_Permutation :
  forall (A : Type) (leb : A -> A -> bool) x l,
    Permutation (insert_desc leb x l) (x :: l).
Proof.
  intros A leb x. induction l as [|y l IH]; cbn.
  - apply Permutation_refl.
  - destruct (leb y x); [apply Permutation_refl|].
    eapply Permutation_trans; [apply perm_skip, IH | apply perm_swap].
Qed.

Lemma sort_desc_Permutation :
  forall (A : Type) (leb : A -> A -> bool) l, Permutation (sort_desc leb l) l.
Proof.
  intros A leb. induction l as [|x l IH]; cbn.
  - apply Permutation_refl.
  - eapply Permutation_trans; [apply insert_desc_Permutation|].
    now apply perm_skip.
Qed.

Lemma log_errors_returns :
  forall errs (m : prog FileAuditStorage unit),
    (forall s, exists s', m s = (Return tt, s')) ->
    forall s, exists s',
      fold_left (fun m msg => m >> file_log_error msg) errs m s = (Return tt, s').
Proof.
  induction errs as [|msg errs IH]; intros m Hm s; cbn [fold_left].
  - apply Hm.
  - apply IH. intros s0. destruct (Hm s0) as [s1 Hs1].
    unfold pbind. rewrite Hs1. unfold file_log_error, modify. eauto.
Qed.

Lemma file_retrieve_events_result :
  forall uuid4 filter limit st,
    fst (file_retrieve_events uuid4 filter limit st)
    = Return (fst (retrieve_files st uuid4 filter limit
                     (sort_desc mtime_leb (glob st)) [] [])).
Proof.
  intros uuid4 filter limit st. unfold file_retrieve_events, pbind at 1, get.
  destruct (retrieve_files _ _ _ _ _ _ _) as [events errs]. cbn [fst].
  unfold pbind, log_errors.
  destruct (log_errors_returns errs (ret tt) (fun s => ex_intro _ s eq_refl) st)
    as [s' Hs'].
  now rewrite Hs'.
Qed.

Lemma file_get_event_count_result :
  forall uuid4 filter st,
    fst (file_get_event_count uuid4 filter st)
    = Return (fst (count_files st uuid4 filter (glob st) 0 [])).
Proof.
  intros uuid4 filter st. unfold file_get_event_count, pbind at 1, get.
  destruct (count_files _ _ _ _ _ _) as [count errs]. cbn [fst].
  unfold pbind, log_errors.
  destruct (log_errors_returns errs (ret tt) (fun s => ex_intro _ s eq_refl) st)
    as [s' Hs'].
  now rewrite Hs'.
Qed.

(** X1.  The file backend, every state and every filter:
    [retrieve_events] returns at most [limit] events, each one passing the filter; a line
    that fails to decode contributes nothing and stops nothing; and
    [get_event_count] is the length of what [retrieve_events] returns
    whenever the limit is not below the count. *)
Theorem file_backend_counts_what_it_retrieves :
  forall (st : FileAuditStorage) (uuid4 : string) (filter : option AuditFilter)
         (limit : Z),
    exists count events,
      fst (get_event_count uuid4 filter st) = Return count
      /\ fst (retrieve_events uuid4 filter limit st) = Return events
      /\ len events <= Z.max 0 limit
      /\ Forall (fun e => passes filter e = true) events
      /\ (forall l x, decode_line st uuid4 l = Raise x ->
            line_events st uuid4 filter l = [])
      /\ (count <= limit ->
          len events = count
          /\ events
             = flat_map (file_events st uuid4 filter)
                        (sort_desc mtime_leb (glob st))).
Proof.
  intros st uuid4 filter limit.
  cbn [get_event_count retrieve_events FileAuditStorage_storage].
  rewrite file_get_event_count_result, file_retrieve_events_result.
  do 2 eexists. split; [reflexivity|]. split; [reflexivity|].
  split.
  { etransitivity; [apply retrieve_files_bound|].
    change (len (@nil AuditEvent)) with 0. lia. }
  split; [apply retrieve_files_pass; constructor|].
  split; [intros l x Hl; unfold line_events; now rewrite Hl|].
  rewrite count_files_sum. intros Hroom.
  assert (Hlen : len (flat_map (file_events st uuid4 filter)
                               (sort_desc mtime_leb (glob st)))
                 = len (flat_map (file_events st uuid4 filter) (glob st))).
  { unfold len. f_equal. apply Permutation_length, Permutation_flat_map.
    apply sort_desc_Permutation. }
  rewrite retrieve_files_all
    by (change (len (@nil AuditEvent)) with 0; lia).
  cbn [app]. split; [lia | reflexivity].
Qed.

(** ** What the database backend retrieves when no filter is given *)

Lemma constructed_read_back :
  forall e, constructed e -> constructed (read_back e).
Proof.
  intros e [Hid Hts Hnd Hfw]. split; assumption.
Qed.

(** The row of an event comes back as the event, its [sensitive_data]
    the INTEGER of the column. *)
Lemma _row_to_event_stored_row :
  forall u e, storable e -> _row_to_event u (stored_row e) = Return (read_back e).
Proof.
  intros u e [He Hd]. unfold _row_to_event, stored_row, event_row.
  cbn [c_level c_category c_action c_timestamp c_details
       c_compliance_frameworks c_event_id c_actor c_target c_result
       c_message c_source_ip c_user_agent c_session_id c_correlation_id
       c_risk_score c_sensitive_data].
  rewrite AuditLevel_of_value, AuditCategory_of_value, AuditAction_of_value.
  cbn [bind]. rewrite fromisoformat_isoformat by apply He. cbn [bind].
  unfold json_loads. rewrite (json_default_str_native (PDict (details e)) Hd).
  rewrite (json_default_str_native (PList _))
    by (cbn; apply frameworks_array_native).
  cbn [bind iterate]. rewrite frameworks_of_array.
  fold (fw_of_list (compliance_frameworks e)).
  rewrite fw_of_list_NoDup by apply He. cbn [bind].
  f_equal. unfold new_AuditEvent. transitivity (__post_init__ u (read_back e));
    [reflexivity | now apply post_init_constructed_id, constructed_read_back].
Qed.

Lemma rows_to_events_stored :
  forall u es,
    Forall storable es ->
    rows_to_events u (map stored_row es) = Return (map read_back es).
Proof.
  intros u. induction es as [|e es IH]; intros Hall; [reflexivity|].
  inversion Hall as [|? ? He Hes]; subst. cbn [map rows_to_events].
  rewrite _row_to_event_stored_row by assumption. cbn [bind].
  now rewrite IH.
Qed.

Lemma timestamp_leb_stored :
  forall a b, storable a -> storable b ->
    timestamp_leb (stored_row a) (stored_row b) = not_newer a b.
Proof.
  intros a b [Ha _] [Hb _]. unfold timestamp_leb, not_newer.
  cbn [c_timestamp stored_row event_row]. apply isoformat_leb; [apply Ha | apply Hb].
Qed.

Lemma insert_desc_stored :
  forall e es, storable e -> Forall storable es ->
    insert_desc timestamp_leb (stored_row e) (map stored_row es)
    = map stored_row (insert_desc not_newer e es).
Proof.
  intros e es He. induction es as [|x es IH]; intros Hall; [reflexivity|].
  inversion Hall as [|? ? Hx Hes]; subst. cbn [map insert_desc].
  rewrite timestamp_leb_stored by assumption.
  destruct (not_newer x e); [reflexivity|].
  cbn [map]. now rewrite IH.
Qed.

Lemma insert_desc_Forall :
  forall (A : Type) (P : A -> Prop) leb x l,
    P x -> Forall P l -> Forall P (insert_desc leb x l).
Proof.
  intros A P leb x. induction l as [|y l IH]; intros Hx Hl; cbn.
  - now constructor.
  - inversion Hl; subst. destruct (leb y x); repeat constructor; auto.
Qed.

Lemma sort_desc_Forall :
  forall (A : Type) (P : A -> Prop) leb l,
    Forall P l -> Forall P (sort_desc leb l).
Proof.
  intros A P leb. induction l as [|x l IH]; intros Hl; cbn; [constructor|].
  inversion Hl; subst. apply insert_desc_Forall; auto.
Qed.

Lemma sort_desc_stored :
  forall es, Forall storable es ->
    sort_desc timestamp_leb (map stored_row es)
    = map stored_row (sort_desc not_newer es).
Proof.
  induction es as [|e es IH]; intros Hall; [reflexivity|].
  inversion Hall as [|? ? He Hes]; subst. cbn [map sort_desc fold_right].
  fold (sort_desc timestamp_leb (map stored_row es)).
  fold (sort_desc not_newer es).
  rewrite IH by assumption.
  apply insert_desc_stored; [assumption | now apply sort_desc_Forall].
Qed.

Lemma CompOpp_lex :
  forall c1 c2, CompOpp (lex c1 c2) = lex (CompOpp c1) (CompOpp c2).
Proof. now destruct c1. Qed.

Lemma datetime_compare_antisym :
  forall a b, datetime_compare b a = CompOpp (datetime_compare a b).
Proof.
  intros a b. unfold datetime_compare.
  rewrite !CompOpp_lex, <- !Z.compare_antisym. reflexivity.
Qed.

Lemma newer_or_same_total :
  forall a b, not_newer a b = false -> not_newer b a = true.
Proof.
  intros a b. unfold not_newer, datetime_leb.
  rewrite (datetime_compare_antisym (timestamp a) (timestamp b)).
  now destruct (datetime_compare (timestamp a) (timestamp b)).
Qed.

Lemma insert_desc_newest_first :
  forall e es, newest_first es -> newest_first (insert_desc not_newer e es).
Proof.
  intros e es Hes. induction Hes as [|x|a b r Hab Hr IH]; cbn.
  - constructor.
  - destruct (not_newer x e) eqn:Hx.
    + constructor; [exact Hx | constructor].
    + constructor; [now apply newer_or_same_total | constructor].
  - destruct (not_newer a e) eqn:Ha.
    + constructor; [exact Ha|]. now constructor.
    + cbn in IH. destruct (not_newer b e) eqn:Hb.
      * constructor; [now apply newer_or_same_total | exact IH].
      * constructor; [exact Hab | exact IH].
Qed.

Lemma sort_desc_newest_first :
  forall es, newest_first (sort_desc not_newer es).
Proof.
  induction es as [|e es IH]; cbn; [constructor|].
  now apply insert_desc_newest_first.
Qed.

Lemma firstn_newest_first :
  forall es, newest_first es -> forall n, newest_first (firstn n es).
Proof.
  intros es Hes. induction Hes as [|x|a b r Hab Hr IH]; intros n.
  - destruct n; constructor.
  - destruct n as [|n]; [constructor|]. cbn. destruct n; constructor.
  - destruct n as [|n]; [constructor|]. cbn [firstn].
    destruct n as [|n]; [constructor|].
    specialize (IH (S n)). cbn [firstn] in *. now constructor.
Qed.

Lemma firstn_Forall :
  forall (A : Type) (P : A -> Prop) n l, Forall P l -> Forall P (firstn n l).
Proof.
  intros A P. induction n as [|n IH]; intros l Hl; [constructor|].
  destruct Hl; cbn; constructor; auto.
Qed.

Lemma len_firstn_le :
  forall (A : Type) (n : Z) (l : list A),
    0 <= n -> len (firstn (Z.to_nat n) l) <= n.
Proof.
  intros A n l Hn. unfold len.
  pose proof (firstn_le_length (Z.to_nat n) l). rewrite length_firstn. lia.
Qed.

Lemma lex_not_Gt :
  forall x y z r1 r2 r3,
    (r1 <> Gt -> r2 <> Gt -> r3 <> Gt) ->
    lex (x ?= y) r1 <> Gt -> lex (y ?= z) r2 <> Gt -> lex (x ?= z) r3 <> Gt.
Proof.
  intros x y z r1 r2 r3 Hr.
  destruct (Z.compare_spec x y), (Z.compare_spec y z), (Z.compare_spec x z);
    cbn; intros Hxy Hyz; try lia; try congruence; auto.
Qed.

Lemma datetime_leb_trans :
  forall a b c,
    datetime_leb a b = true -> datetime_leb b c = true -> datetime_leb a c = true.
Proof.
  intros a b c. unfold datetime_leb.
  assert (Hne : forall x, (match x with Gt => false | _ => true end) = true
                          <-> x <> Gt)
    by (intros []; split; (congruence || discriminate || reflexivity)).
  rewrite !Hne. unfold datetime_compare.
  repeat (apply lex_not_Gt).
  destruct (Z.compare_spec (microsecond a) (microsecond b)),
    (Z.compare_spec (microsecond b) (microsecond c)),
    (Z.compare_spec (microsecond a) (microsecond c));
    intros Hxy Hyz; try lia; try congruence.
Qed.

Lemma datetime_leb_total :
  forall a b, datetime_leb a b = false -> datetime_leb b a = true.
Proof.
  intros a b. unfold datetime_leb. rewrite (datetime_compare_antisym a b).
  now destruct (datetime_compare a b).
Qed.

Section Descending.
Context {A : Type} (leb : A -> A -> bool).
Hypothesis leb_total : forall a b, leb a b = false -> leb b a = true.
Hypothesis leb_trans : forall a b c, leb a b = true -> leb b c = true -> leb a c = true.

Lemma insert_desc_descending :
  forall x l, descending leb l -> descending leb (insert_desc leb x l).
Proof.
  intros x. induction l as [|y l IH]; intros Hl; cbn [insert_desc].
  - cbn. auto.
  - destruct Hl as [Hy Hl]. destruct (leb y x) eqn:Hyx.
    + cbn [descending]. split; [|now split].
      constructor; [exact Hyx|].
      eapply Forall_impl; [|exact Hy]. intros z Hz. now apply (leb_trans z y x).
    + cbn [descending]. split; [|now apply IH].
      apply insert_desc_Forall; [now apply leb_total | exact Hy].
Qed.

Lemma sort_desc_descending : forall l, descending leb (sort_desc leb l).
Proof.
  induction l as [|x l IH]; cbn; [exact I|]. now apply insert_desc_descending.
Qed.

Lemma descending_app :
  forall l1 l2 a b,
    descending leb (l1 ++ l2) -> In a l1 -> In b l2 -> leb b a = true.
Proof.
  induction l1 as [|x l1 IH]; intros l2 a b Hd Ha Hb; [contradiction|].
  cbn [app descending] in Hd. destruct Hd as [Hx Hd].
  destruct Ha as [->|Ha]; [|now apply (IH l2)].
  rewrite Forall_forall in Hx. apply Hx. apply in_or_app. now right.
Qed.
End Descending.

Lemma filter_through_map :
  forall (A B : Type) (p : B -> bool) (g : A -> B) l,
    filter p (map g l) = map g (filter (fun x => p (g x)) l).
Proof.
  intros A B p g. induction l as [|x l IH]; cbn; [reflexivity|].
  destruct (p (g x)); cbn; now rewrite IH.
Qed.

Lemma filter_Forall :
  forall (A : Type) (P : A -> Prop) (p : A -> bool) l,
    Forall P l -> Forall P (filter p l).
Proof.
  intros A P p. induction l as [|x l IH]; intros Hl; cbn; [constructor|].
  inversion Hl; subst. destruct (p x); [constructor|]; auto.
Qed.

(** ** The order of the engine *)

Lemma visit_map :
  forall (A B : Type) (g : A -> B) p l, visit p (map g l) = map g (visit p l).
Proof.
  intros A B g p l. unfold visit. induction p as [|i p IH]; [reflexivity|].
  cbn [flat_map]. rewrite map_app, IH, nth_error_map.
  now destruct (nth_error l i).
Qed.

Lemma visit_In :
  forall (A : Type) p (l : list A) x, In x (visit p l) -> In x l.
Proof.
  intros A p l x Hin. unfold visit in Hin. apply in_flat_map in Hin.
  destruct Hin as (i & _ & Hx).
  destruct (nth_error l i) as [y|] eqn:Hy; [|contradiction].
  destruct Hx as [->|[]]. now apply nth_error_In in Hy.
Qed.

Lemma visit_Forall :
  forall (A : Type) (P : A -> Prop) p l, Forall P l -> Forall P (visit p l).
Proof.
  intros A P p l Hl. apply Forall_forall. intros x Hx.
  rewrite Forall_forall in Hl. now apply Hl, (visit_In _ p).
Qed.

Lemma visit_seq_from :
  forall (A : Type) (l l0 : list A),
    visit (seq (List.length l0) (List.length l)) (l0 ++ l)%list = l.
Proof.
  intros A. induction l as [|x l IH]; intros l0; [reflexivity|].
  cbn [List.length seq]. unfold visit. cbn [flat_map].
  rewrite nth_error_app2, Nat.sub_diag by lia. cbn [nth_error app].
  f_equal. specialize (IH (l0 ++ [x])%list).
  rewrite length_app, Nat.add_1_r, <- app_assoc in IH. exact IH.
Qed.

Lemma visit_each_row :
  forall (A : Type) p (l : list A),
    Permutation p (seq 0 (List.length l)) -> Permutation (visit p l) l.
Proof.
  intros A p l Hp.
  transitivity (visit (seq 0 (List.length l)) l).
  - unfold visit. now apply Permutation_flat_map.
  - pose proof (visit_seq_from A l []) as Hseq. cbn [List.length app] in Hseq.
    rewrite Hseq. apply Permutation_refl.
Qed.

Lemma sqlite_order_lists_each_row : lists_each_row sqlite_order.
Proof.
  intros ws n. unfold sqlite_order.
  destruct (existsb _ ws); [apply Permutation_refl|].
  apply Permutation_sym, Permutation_rev.
Defined.

Lemma not_newer_total :
  forall a b, not_newer a b = false -> not_newer b a = true.
Proof. intros a b. apply datetime_leb_total. Qed.

Lemma not_newer_trans :
  forall a b c, not_newer a b = true -> not_newer b c = true -> not_newer a c = true.
Proof. intros a b c. apply datetime_leb_trans. Qed.

Lemma len_min_firstn :
  forall (A : Type) (n : Z) (l : list A),
    0 <= n -> len (firstn (Z.to_nat n) l) = Z.min n (len l).
Proof. intros A n l Hn. unfold len. rewrite length_firstn. lia. Qed.

(** What ORDER BY timestamp DESC LIMIT keeps of the events the clause
    selects, whatever order the engine lists them in: they come newest
    first, none of those left out is newer than one of those kept, and
    nothing is left out but for the limit. *)
Lemma newest_kept :
  forall (limit : Z) (p : list nat) (es : list AuditEvent),
    Permutation p (seq 0 (List.length es)) ->
    let events := limited limit (sort_desc not_newer (visit p es)) in
    newest_first events
    /\ exists rest,
         Permutation (events ++ rest) es
         /\ (forall e r, In e events -> In r rest -> not_newer r e = true)
         /\ (limit < 0 -> rest = [])
         /\ (0 <= limit -> len events = Z.min limit (len es)).
Proof.
  intros limit p es Hp events. subst events.
  set (sorted := sort_desc not_newer (visit p es)).
  assert (Hperm : Permutation sorted es).
  { transitivity (visit p es); [apply sort_desc_Permutation|].
    now apply visit_each_row. }
  unfold limited. destruct (Z.ltb_spec limit 0) as [Hneg|Hpos].
  - split; [apply sort_desc_newest_first|].
    exists []. rewrite app_nil_r. split; [exact Hperm|].
    split; [intros e r _ []|]. split; [reflexivity | lia].
  - split; [apply firstn_newest_first, sort_desc_newest_first|].
    exists (skipn (Z.to_nat limit) sorted). rewrite firstn_skipn.
    split; [exact Hperm|]. split; [|split; [lia|]].
    + intros e r He Hr.
      apply (descending_app not_newer
               (firstn (Z.to_nat limit) sorted) (skipn (Z.to_nat limit) sorted));
        [|exact He | exact Hr].
      rewrite firstn_skipn. apply sort_desc_descending.
      * exact not_newer_total.
      * exact not_newer_trans.
    + intros _. rewrite len_min_firstn by exact Hpos.
      unfold len. now rewrite (Permutation_length Hperm).
Qed.

(** The rows a bound clause selects from the table of [es], ordered and
    cut, come back as the events. *)
Lemma db_select_stored :
  forall order es uuid4 limit ws ps (keep : AuditEvent -> bool),
    Forall storable es ->
    placeholders_total ws = List.length ps ->
    forallb bind_value ps = true -> int64 limit = true ->
    (forall e, In e es -> where_holds ws ps (stored_row e) = keep e) ->
    bind (select_events order ws (ps ++ [SInteger limit]) (map stored_row es))
         (rows_to_events uuid4)
    = Return (map read_back
                (limited limit
                   (sort_desc not_newer
                      (visit (order ws (List.length (filter keep es)))
                             (filter keep es))))).
Proof.
  intros order es uuid4 limit ws ps keep Hall Hlen Htext Hlimit Hkeep.
  unfold select_events, check_bindings, bind_parameters.
  rewrite length_app, Hlen. cbn [List.length].
  rewrite Nat.eqb_refl. cbn [bind].
  rewrite forallb_app, Htext. cbn [forallb bind_value andb]. rewrite Hlimit.
  cbn [andb bind].
  rewrite app_nth2, Nat.sub_diag by lia. cbn [nth].
  rewrite firstn_app, Nat.sub_diag, firstn_all. cbn [firstn]. rewrite app_nil_r.
  rewrite filter_through_map.
  rewrite (filter_ext_in _ keep) by exact Hkeep.
  rewrite length_map, visit_map.
  set (kept := visit _ (filter keep es)).
  assert (Hkept : Forall storable kept)
    by now apply visit_Forall, filter_Forall.
  rewrite sort_desc_stored by assumption.
  assert (Hsorted : Forall storable (sort_desc not_newer kept))
    by now apply sort_desc_Forall.
  unfold sql_limit, limited. destruct (limit <? 0).
  - now apply rows_to_events_stored.
  - rewrite firstn_map. now apply rows_to_events_stored, firstn_Forall.
Qed.

(** A limit that does not fit 64 bits: the statement is not run. *)
Lemma select_events_overflow :
  forall order ws ps limit rows,
    placeholders_total ws = List.length ps -> int64 limit = false ->
    select_events order ws (ps ++ [SInteger limit]) rows = Raise OverflowError.
Proof.
  intros order ws ps limit rows Hlen Hlimit.
  unfold select_events, check_bindings, bind_parameters.
  rewrite length_app, Hlen. cbn [List.length]. rewrite Nat.eqb_refl.
  cbn [bind]. rewrite forallb_app. cbn [forallb bind_value]. rewrite Hlimit.
  now rewrite !andb_false_r.
Qed.

Lemma db_retrieve_events_unfiltered :
  forall order es uuid4 limit errs,
    Forall storable es -> int64 limit = true ->
    fst (db_retrieve_events uuid4 None limit
           (mkDatabaseAuditStorage (map stored_row es) order false errs))
    = Return (map read_back
                (limited limit
                   (sort_desc not_newer (visit (order [] (List.length es)) es)))).
Proof.
  intros order es uuid4 limit errs Hall Hlimit.
  unfold db_retrieve_events, connect, try_catch, pbind, get, lift, ret.
  cbn [db_fault audit_events row_order retrieve_query app fst].
  pose proof (db_select_stored order es uuid4 limit [] [] (fun _ => true)
                Hall eq_refl eq_refl Hlimit (fun e _ => eq_refl)) as Hsel.
  rewrite (filter_all (fun _ : AuditEvent => true)) in Hsel by reflexivity.
  cbn [app] in Hsel. unfold bind in Hsel.
  destruct (select_events order [] [SInteger limit] (map stored_row es))
    as [rows|x]; [|discriminate].
  cbn. now rewrite Hsel.
Qed.

Lemma db_retrieve_events_overflow :
  forall db uuid4 flt limit,
    db_fault db = false -> bound (retrieve_query flt) -> int64 limit = false ->
    db_retrieve_events uuid4 flt limit db
    = (Return [],
       snd (db_log_error "Failed to retrieve audit events: OverflowError" db)).
Proof.
  intros db uuid4 flt limit Hfault Hbound Hlimit.
  unfold db_retrieve_events, connect, try_catch, pbind, get, lift, ret, raise.
  rewrite Hfault. unfold bound in Hbound.
  destruct (retrieve_query flt) as [ws ps]. cbn [fst snd] in Hbound.
  now rewrite select_events_overflow.
Qed.

(** X2.  The database backend, no filter given, over a table that holds
    the rows of stored events, whatever order the engine lists tied rows
    in.  With a limit that fits 64 bits [retrieve_events] returns events
    of the table newest first, each as the row gives it back
    ([sensitive_data] the INTEGER 1 or 0); none of the events it leaves out is newer
    than one it returns; a negative limit leaves none out and any other
    limit returns that many events, or all when there are fewer.  With a
    limit that does not fit, binding it raises [OverflowError]: the call
    returns the empty list and sends one message to the error log. *)
Theorem db_retrieves_newest_first_without_filter :
  forall (order : engine_order) (es : list AuditEvent) (uuid4 : string)
         (limit : Z) (errs : list string),
    Forall storable es -> lists_each_row order ->
    let db := mkDatabaseAuditStorage (map stored_row es) order false errs in
    if int64 limit
    then exists events rest,
           fst (retrieve_events uuid4 None limit db)
           = Return (map read_back events)
           /\ newest_first events
           /\ Permutation (events ++ rest) es
           /\ (forall e r, In e events -> In r rest -> not_newer r e = true)
           /\ (limit < 0 -> rest = [])
           /\ (0 <= limit -> len events = Z.min limit (len es))
    else retrieve_events uuid4 None limit db
         = (Return [],
            mkDatabaseAuditStorage (map stored_row es) order false
              (errs ++ ["Failed to retrieve audit events: OverflowError"])).
Proof.
  intros order es uuid4 limit errs Hall Horder db. subst db.
  cbn [retrieve_events DatabaseAuditStorage_storage].
  destruct (int64 limit) eqn:Hlimit.
  - rewrite db_retrieve_events_unfiltered by assumption.
    destruct (newest_kept limit (order [] (List.length es)) es (Horder _ _))
      as (Hnewest & rest & Hperm & Hcut & Hall' & Hlen).
    eexists. exists rest. split; [reflexivity|]. auto.
  - now rewrite db_retrieve_events_overflow.
Qed.

Lemma storable_old_event : storable old_event.
Proof.
  split; [|reflexivity].
  apply log_event_event_constructed.
  - discriminate.
  - vm_compute. repeat split; discriminate.
  - constructor.
Defined.

Lemma storable_new_event : storable new_event.
Proof.
  split; [|reflexivity].
  apply log_event_event_constructed.
  - discriminate.
  - vm_compute. repeat split; discriminate.
  - constructor.
Defined.

(** X2 at a table of two rows and a limit of one: the newer event comes
    back.  Of two rows of one timestamp the engine decides which: the one
    stored last when it walks [idx_timestamp] backwards, the one stored
    first when it lists the rows in rowid order. *)
Lemma db_retrieves_newest_first_without_filter_witness :
  (exists events rest,
     fst (retrieve_events "" None 1
            (mkDatabaseAuditStorage (map stored_row [old_event; new_event])
               sqlite_order false []))
     = Return (map read_back events)
     /\ newest_first events
     /\ Permutation (events ++ rest) [old_event; new_event]
     /\ len events = 1)
  /\ fst (retrieve_events "" None 1
            (mkDatabaseAuditStorage (map stored_row [old_event; new_event])
               sqlite_order false []))
     = Return [read_back new_event]
  /\ timestamp old_event = timestamp second_event
  /\ fst (retrieve_events "" None 1
            (mkDatabaseAuditStorage (map stored_row [old_event; second_event])
               sqlite_order false []))
     = Return [read_back second_event]
  /\ fst (retrieve_events "" None 1
            (mkDatabaseAuditStorage (map stored_row [old_event; second_event])
               (fun _ n => seq 0 n) false []))
     = Return [read_back old_event].
Proof.
  split; [|repeat split; vm_compute; reflexivity].
  pose proof (db_retrieves_newest_first_without_filter
                sqlite_order [old_event; new_event] "" 1 []
                (Forall_cons _ storable_old_event
                   (Forall_cons _ storable_new_event (Forall_nil _)))
                sqlite_order_lists_each_row) as Hthm.
  cbv zeta in Hthm. change (int64 1) with true in Hthm. cbv iota in Hthm.
  destruct Hthm as (events & rest & Hrun & Hnewest & Hperm & _ & _ & Hlen).
  exists events, rest. split; [exact Hrun|]. split; [exact Hnewest|].
  split; [exact Hperm|]. now apply Hlen.
Defined.

(** ** The convenience wrappers *)

Lemma log_event_event_frameworks :
  forall uuid4 now lv cat act actr tgt res msg kw,
    compliance_frameworks
      (log_event_event uuid4 now lv cat act actr tgt res msg kw)
    = fw_update
        (implied (mkAuditEvent uuid4 now lv cat act actr tgt res msg [] None None
                    None None [] 0 (Flag false)))
        (or_default [] (kw_compliance_frameworks kw)).
Proof.
  intros. unfold log_event_event, new_AuditEvent.
  rewrite post_init_frameworks, assign_frameworks_update.
  reflexivity.
Qed.


(** X3.  The frameworks each convenience wrapper's event carries when the
    caller passes none: data access GDPR, a security event ISO27001, SOC2
    and NIST, a configuration change SOX, authentication SOC2, ISO27001 and
    PCI_DSS, a compliance event the framework named, user management
    none; and SOX besides whenever the target mentions "financial",
    whatever its letter case. *)
Theorem wrapper_events_carry_their_frameworks :
  forall (uuid4 : string) (now : datetime) (actr tgt res msg : string)
         (act : AuditAction) (det : pydict) (fw f : ComplianceFramework)
         (kw : kwargs),
    kw_compliance_frameworks kw = None ->
    (In f (compliance_frameworks (data_access_event uuid4 now actr tgt act res kw))
     <-> f = GDPR \/ (f = SOX /\ mentions_financial tgt))
    /\ (In f (compliance_frameworks (security_event uuid4 now actr tgt msg kw))
        <-> f = ISO27001 \/ f = SOC2 \/ f = NIST
            \/ (f = SOX /\ mentions_financial tgt))
    /\ (In f (compliance_frameworks
                (configuration_change_event uuid4 now actr tgt det kw))
        <-> f = SOX)
    /\ (In f (compliance_frameworks (authentication_event uuid4 now actr res kw))
        <-> f = SOC2 \/ f = ISO27001 \/ f = PCI_DSS)
    /\ (In f (compliance_frameworks (user_management_event uuid4 now actr tgt act kw))
        <-> f = SOX /\ mentions_financial tgt)
    /\ (In f (compliance_frameworks (compliance_event uuid4 now fw actr tgt msg kw))
        <-> f = fw \/ (f = SOX /\ mentions_financial tgt)).
Proof.
  intros uuid4 now actr tgt res msg act det fw f kw Hkw.
  unfold data_access_event, security_event, configuration_change_event,
    authentication_event, user_management_event, compliance_event,
    mentions_financial.
  rewrite !log_event_event_frameworks.
  unfold implied, category_is, with_kw_details, with_kw_frameworks.
  cbn [category target kw_compliance_frameworks or_default AuditCategory_beq
       orb app].
  rewrite Hkw. cbn [or_default].
  change (contains "financial" (lower "authentication_system")) with false.
  destruct fw; destruct (contains "financial" (lower tgt));
    vm_compute; intuition congruence.
Qed.

(** X3 at a data-access event on a ledger spelt with a capital. *)
Lemma wrapper_events_carry_their_frameworks_witness :
  In SOX
     (compliance_frameworks
        (data_access_event "00000000-0000-4000-8000-00000000000d" ten_o_clock
           "alice" "Financial_Ledger" READ "success" no_kwargs)).
Proof.
  apply (proj2 (proj1 (wrapper_events_carry_their_frameworks
                         "00000000-0000-4000-8000-00000000000d" ten_o_clock
                         "alice" "Financial_Ledger" "success" "" READ [] SOX SOX
                         no_kwargs eq_refl))).
  right. split; reflexivity.
Defined.

Lemma wrappers_call_log_event :
  forall (S : Type) (St : AuditStorage S) uuid4 now actr tgt res msg act det kw
         (lg : AuditLogger S),
    log_data_access uuid4 now actr tgt act res kw lg
    = dispatch now (data_access_event uuid4 now actr tgt act res kw) lg
    /\ log_security_event uuid4 now actr tgt msg kw lg
       = dispatch now (security_event uuid4 now actr tgt msg kw) lg
    /\ log_configuration_change uuid4 now actr tgt det kw lg
       = dispatch now (configuration_change_event uuid4 now actr tgt det kw) lg
    /\ log_user_management uuid4 now actr tgt act kw lg
       = dispatch now (user_management_event uuid4 now actr tgt act kw) lg.
Proof. intros. repeat split; reflexivity. Qed.

(** ** What a passing event looks like *)

Lemma should_log_true :
  forall f e,
    should_log f e = true ->
    priority_get (min_level f) <= priority_get (Some (level e))
    /\ (forall cs, truthy (categories f) = Some cs ->
          mem_category (category e) cs = true)
    /\ (forall acs, truthy (actors f) = Some acs -> mem_str (actor e) acs = true)
    /\ mem_str (actor e) (exclude_actors f) = false
    /\ (forall fws, truthy (filter_frameworks f) = Some fws ->
          fw_inter (compliance_frameworks e) fws <> [])
    /\ (forall s t, time_range f = Some (s, t) ->
          datetime_leb s (timestamp e) = true
          /\ datetime_leb (timestamp e) t = true).
Proof.
  intros f e. unfold should_log.
  destruct (Z.ltb_spec (priority_get (Some (level e))) (priority_get (min_level f)));
    [discriminate|].
  destruct (truthy (categories f)) as [cs|];
    [destruct (mem_category (category e) cs) eqn:Hc; [|discriminate]|];
    (destruct (truthy (actors f)) as [acs|];
     [destruct (mem_str (actor e) acs) eqn:Ha; [|discriminate]|]);
    (destruct (mem_str (actor e) (exclude_actors f)); [discriminate|]);
    (destruct (truthy (filter_frameworks f)) as [fws|];
     [destruct (fw_inter (compliance_frameworks e) fws) eqn:Hf; [discriminate|]|]);
    cbn [negb is_empty];
    (destruct (time_range f) as [[s t]|];
     [destruct (datetime_leb s (timestamp e)) eqn:Hs;
      destruct (datetime_leb (timestamp e) t) eqn:Ht; cbn; try discriminate|]);
    intros _; repeat split; try assumption; try discriminate;
    intros; try congruence;
    match goal with
    | H : Some _ = Some _ |- _ => inversion H; subst; clear H
    end; try assumption; try tauto.
  all: congruence.
Qed.

Lemma on_storage_result :
  forall (S A : Type) (m : prog S A) (lg : AuditLogger S),
    fst (on_storage m lg) = fst (m (storage lg)).
Proof.
  intros S A m lg. unfold on_storage. now destruct (m (storage lg)).
Qed.

Lemma mem_category_one :
  forall c c', mem_category c [c'] = true -> c = c'.
Proof.
  intros c c'. unfold mem_category. cbn. rewrite orb_false_r.
  destruct c, c'; (reflexivity || discriminate).
Qed.

Lemma mem_str_one : forall s s', mem_str s [s'] = true -> s = s'.
Proof.
  intros s s'. unfold mem_str. cbn. rewrite orb_false_r. apply String.eqb_eq.
Qed.

Lemma fw_inter_one :
  forall s f, fw_inter s [f] <> [] -> In f s.
Proof.
  intros s f Hne. unfold fw_inter in Hne.
  destruct (set_inter ComplianceFramework_eq_dec s [f]) as [|x r] eqn:Hi;
    [congruence|].
  assert (Hx : In x (set_inter ComplianceFramework_eq_dec s [f]))
    by (rewrite Hi; now left).
  pose proof (set_inter_elim1 _ _ _ _ Hx) as H1.
  pose proof (set_inter_elim2 _ _ _ _ Hx) as H2.
  destruct H2 as [->|[]]. exact H1.
Qed.

Lemma above_info_not_debug :
  forall l, priority_get (Some INFO) <= priority_get (Some l) -> l <> DEBUG.
Proof. intros l Hl ->. vm_compute in Hl. now apply Hl. Qed.

(** What the file backend returns for a filter, whatever its state. *)
Lemma file_retrieve_events_pass :
  forall uuid4 f limit (st : FileAuditStorage),
    exists events,
      fst (retrieve_events uuid4 (Some f) limit st) = Return events
      /\ Forall (fun e => should_log f e = true) events
      /\ len events <= Z.max 0 limit.
Proof.
  intros uuid4 f limit st.
  cbn [retrieve_events FileAuditStorage_storage].
  rewrite file_retrieve_events_result. eexists. split; [reflexivity|]. split.
  - apply (retrieve_files_pass st uuid4 (Some f)). constructor.
  - etransitivity; [apply retrieve_files_bound|].
    change (len (@nil AuditEvent)) with 0. lia.
Qed.

(** X4.  The query wrappers over the file backend, in every state: each
    returns, never raising, at most its limit of events, and only events
    that match: [get_events_by_actor] events of that actor,
    [get_events_by_category] events of that category,
    [get_security_events] security events inside the window,
    [get_compliance_events] events tagged with the framework inside the
    window; and none of them ever returns a debug event. *)
Theorem file_queries_return_only_matching_events :
  forall (lg : AuditLogger FileAuditStorage) (uuid4 actor_ : string)
         (cat : AuditCategory) (fw : ComplianceFramework)
         (start_time end_time : datetime) (limit : keyword Z),
    (exists events,
        fst (get_events_by_actor uuid4 actor_ limit lg) = Return events
        /\ len events <= Z.max 0 (keyword_or 100 limit)
        /\ Forall (fun e => actor e = actor_ /\ level e <> DEBUG) events)
    /\ (exists events,
          fst (get_events_by_category uuid4 cat limit lg) = Return events
          /\ len events <= Z.max 0 (keyword_or 100 limit)
          /\ Forall (fun e => category e = cat /\ level e <> DEBUG) events)
    /\ (exists events,
          fst (get_security_events uuid4 start_time end_time limit lg)
          = Return events
          /\ len events <= Z.max 0 (keyword_or 100 limit)
          /\ Forall (fun e => category e = SECURITY_EVENT /\ level e <> DEBUG
                              /\ datetime_leb start_time (timestamp e) = true
                              /\ datetime_leb (timestamp e) end_time = true)
                    events)
    /\ (exists events,
          fst (get_compliance_events uuid4 fw start_time end_time lg)
          = Return events
          /\ len events <= 10000
          /\ Forall (fun e => In fw (compliance_frameworks e) /\ level e <> DEBUG
                              /\ datetime_leb start_time (timestamp e) = true
                              /\ datetime_leb (timestamp e) end_time = true)
                    events).
Proof.
  intros lg uuid4 actor_ cat fw start_time end_time limit.
  unfold get_events_by_actor, get_events_by_category, get_security_events,
    get_compliance_events.
  rewrite !on_storage_result.
  repeat split.
  - destruct (file_retrieve_events_pass uuid4
                (new_AuditFilter Omitted None (Some [actor_]) None None None)
                (keyword_or 100 limit) (storage lg)) as (events & Hrun & Hpass & Hlen).
    exists events. repeat split; try assumption.
    eapply Forall_impl; [|exact Hpass]. intros e He.
    destruct (should_log_true _ _ He) as (Hlv & _ & Hact & _).
    split; [apply mem_str_one, Hact; reflexivity|].
    now apply above_info_not_debug.
  - destruct (file_retrieve_events_pass uuid4
                (new_AuditFilter Omitted (Some [cat]) None None None None)
                (keyword_or 100 limit) (storage lg)) as (events & Hrun & Hpass & Hlen).
    exists events. repeat split; try assumption.
    eapply Forall_impl; [|exact Hpass]. intros e He.
    destruct (should_log_true _ _ He) as (Hlv & Hcat & _).
    split; [apply mem_category_one, Hcat; reflexivity|].
    now apply above_info_not_debug.
  - destruct (file_retrieve_events_pass uuid4
                (new_AuditFilter Omitted (Some [SECURITY_EVENT]) None None None
                   (Some (start_time, end_time)))
                (keyword_or 100 limit) (storage lg)) as (events & Hrun & Hpass & Hlen).
    exists events. repeat split; try assumption.
    eapply Forall_impl; [|exact Hpass]. intros e He.
    destruct (should_log_true _ _ He) as (Hlv & Hcat & _ & _ & _ & Htime).
    destruct (Htime _ _ eq_refl) as [Hs Ht].
    split; [apply mem_category_one, Hcat; reflexivity|].
    split; [now apply above_info_not_debug|]. now split.
  - destruct (file_retrieve_events_pass uuid4
                (new_AuditFilter Omitted None None None (Some [fw])
                   (Some (start_time, end_time)))
                10000 (storage lg)) as (events & Hrun & Hpass & Hlen).
    exists events. repeat split; try assumption.
    eapply Forall_impl; [|exact Hpass]. intros e He.
    destruct (should_log_true _ _ He) as (Hlv & _ & _ & _ & Hfw & Htime).
    destruct (Htime _ _ eq_refl) as [Hs Ht].
    split; [apply fw_inter_one, Hfw; reflexivity|].
    split; [now apply above_info_not_debug|]. now split.
Qed.

(** ** The WHERE clauses of the database backend *)

Lemma placeholders_total_app :
  forall ws ws',
    placeholders_total (ws ++ ws')
    = (placeholders_total ws + placeholders_total ws')%nat.
Proof.
  unfold placeholders_total.
  induction ws as [|w ws IH]; intros ws'; cbn [app fold_right]; [reflexivity|].
  rewrite IH. lia.
Qed.

(** A clause whose placeholders are all bound, followed by a condition:
    the conjunction of the two. *)
Lemma where_holds_app :
  forall ws ps w pw r,
    placeholders_total ws = List.length ps ->
    where_holds (ws ++ [w]) (ps ++ pw) r
    = andb (where_holds ws ps r) (where_holds [w] pw r).
Proof.
  induction ws as [|[c n|c] ws IH]; intros ps w pw r Hlen.
  - destruct ps; [reflexivity | discriminate].
  - cbn [app where_holds].
    change (placeholders_total (IN c n :: ws))
      with (n + placeholders_total ws)%nat in Hlen.
    assert (Hn : (n <= List.length ps)%nat) by lia.
    rewrite firstn_app, skipn_app.
    replace (n - List.length ps)%nat with 0%nat by lia.
    cbn [firstn skipn]. rewrite app_nil_r.
    rewrite IH by (rewrite length_skipn; lia).
    now rewrite andb_assoc.
  - change (placeholders_total (BETWEEN c :: ws))
      with (2 + placeholders_total ws)%nat in Hlen.
    destruct ps as [|lo [|hi ps]]; try discriminate.
    cbn [app where_holds]. rewrite IH by (cbn in Hlen; lia).
    now rewrite andb_assoc.
Qed.

Lemma and_where_bound :
  forall q w ps,
    bound q -> placeholders_of w = List.length ps -> bound (and_where q w ps).
Proof.
  intros [ws qs] w ps Hq Hw. unfold bound, and_where in *. cbn [fst snd] in *.
  rewrite placeholders_total_app, length_app. cbn. lia.
Qed.

Lemma where_categories_bound : forall f q, bound q -> bound (where_categories f q).
Proof.
  intros f q Hq. unfold where_categories.
  destruct (truthy (categories f)); [|exact Hq].
  apply and_where_bound; [exact Hq|]. cbn. now rewrite length_map.
Qed.

Lemma where_actors_bound : forall f q, bound q -> bound (where_actors f q).
Proof.
  intros f q Hq. unfold where_actors.
  destruct (truthy (actors f)); [|exact Hq].
  apply and_where_bound; [exact Hq|]. cbn. now rewrite length_map.
Qed.


Lemma existsb_through_map :
  forall (A B : Type) (p : B -> bool) (g : A -> B) l,
    existsb p (map g l) = existsb (fun x => p (g x)) l.
Proof.
  intros A B p g. induction l as [|x l IH]; cbn; [reflexivity|].
  now rewrite IH.
Qed.

Lemma in_categories :
  forall r cs,
    where_holds [IN col_category (List.length cs)]
      (map (fun cat => SText (AuditCategory_value cat)) cs) r
    = existsb (fun c => String.eqb (c_category r) (AuditCategory_value c)) cs.
Proof.
  intros r cs. cbn [where_holds column_of]. rewrite andb_true_r.
  rewrite <- (length_map (fun cat => SText (AuditCategory_value cat)) cs) at 1.
  rewrite firstn_all, existsb_through_map. reflexivity.
Qed.

Lemma in_actors :
  forall r acs,
    where_holds [IN col_actor (List.length acs)] (map SText acs) r
    = mem_str (c_actor r) acs.
Proof.
  intros r acs. cbn [where_holds column_of]. rewrite andb_true_r.
  rewrite <- (length_map SText acs) at 1.
  rewrite firstn_all, existsb_through_map. reflexivity.
Qed.

Lemma where_categories_holds :
  forall f q r,
    bound q ->
    where_holds (fst (where_categories f q)) (snd (where_categories f q)) r
    = andb (where_holds (fst q) (snd q) r)
           (match truthy (categories f) with
            | Some cs =>
                existsb (fun c => String.eqb (c_category r) (AuditCategory_value c)) cs
            | None => true
            end).
Proof.
  intros f q r Hq. unfold where_categories.
  destruct (truthy (categories f)) as [cs|]; [|now rewrite andb_true_r].
  unfold and_where. cbn [fst snd].
  rewrite where_holds_app by exact Hq. now rewrite in_categories.
Qed.

Lemma where_actors_holds :
  forall f q r,
    bound q ->
    where_holds (fst (where_actors f q)) (snd (where_actors f q)) r
    = andb (where_holds (fst q) (snd q) r)
           (match truthy (actors f) with
            | Some acs => mem_str (c_actor r) acs
            | None => true
            end).
Proof.
  intros f q r Hq. unfold where_actors.
  destruct (truthy (actors f)) as [acs|]; [|now rewrite andb_true_r].
  unfold and_where. cbn [fst snd].
  rewrite where_holds_app by exact Hq. now rewrite in_actors.
Qed.




Lemma bind_value_texts :
  forall l, forallb bind_value (map SText l) = true.
Proof. induction l as [|x l IH]; cbn; auto. Qed.

(** The clause of [retrieve_events] binds text only. *)
Lemma retrieve_query_text :
  forall flt, forallb bind_value (snd (retrieve_query flt)) = true.
Proof.
  assert (Hcat : forall f q, forallb bind_value (snd q) = true ->
                   forallb bind_value (snd (where_categories f q)) = true).
  { intros f q Hq. unfold where_categories.
    destruct (truthy (categories f)) as [cs|]; [|exact Hq].
    unfold and_where. cbn [snd]. rewrite forallb_app, Hq.
    rewrite <- (map_map AuditCategory_value SText). apply bind_value_texts. }
  assert (Hact : forall f q, forallb bind_value (snd q) = true ->
                   forallb bind_value (snd (where_actors f q)) = true).
  { intros f q Hq. unfold where_actors.
    destruct (truthy (actors f)) as [acs|]; [|exact Hq].
    unfold and_where. cbn [snd]. rewrite forallb_app, Hq.
    apply bind_value_texts. }
  intros [f|]; [|reflexivity]. unfold retrieve_query.
  set (q1 := match min_level f with Some l => _ | None => _ end).
  assert (H1 : forallb bind_value (snd q1) = true).
  { subst q1. destruct (min_level f); [|reflexivity].
    unfold and_where. cbn [snd app]. apply bind_value_texts. }
  destruct (time_range f) as [[s t]|].
  - unfold and_where. cbn [snd]. rewrite forallb_app, Hact by now apply Hcat.
    reflexivity.
  - now apply Hact, Hcat.
Qed.




(** ** The level condition of the database backend *)

Lemma and_where_gap :
  forall q w ps d,
    placeholders_total (fst q) = (List.length (snd q) + d)%nat ->
    placeholders_of w = List.length ps ->
    placeholders_total (fst (and_where q w ps))
    = (List.length (snd (and_where q w ps)) + d)%nat.
Proof.
  intros [ws qs] w ps d Hq Hw. unfold and_where in *. cbn [fst snd] in *.
  rewrite placeholders_total_app, length_app. cbn. lia.
Qed.

Lemma where_categories_gap :
  forall f q d,
    placeholders_total (fst q) = (List.length (snd q) + d)%nat ->
    placeholders_total (fst (where_categories f q))
    = (List.length (snd (where_categories f q)) + d)%nat.
Proof.
  intros f q d Hq. unfold where_categories.
  destruct (truthy (categories f)); [|exact Hq].
  apply and_where_gap; [exact Hq|]. cbn. now rewrite length_map.
Qed.

Lemma where_actors_gap :
  forall f q d,
    placeholders_total (fst q) = (List.length (snd q) + d)%nat ->
    placeholders_total (fst (where_actors f q))
    = (List.length (snd (where_actors f q)) + d)%nat.
Proof.
  intros f q d Hq. unfold where_actors.
  destruct (truthy (actors f)); [|exact Hq].
  apply and_where_gap; [exact Hq|]. cbn. now rewrite length_map.
Qed.

(** The clause of [retrieve_events] under a minimum level: five
    placeholders for the level, and as many values as the first five names
    of the hierarchy give. *)
Lemma retrieve_query_gap :
  forall f l,
    min_level f = Some l ->
    placeholders_total (fst (retrieve_query (Some f)))
    = (List.length (snd (retrieve_query (Some f)))
       + (5 - List.length (level_hierarchy l)))%nat.
Proof.
  intros f l Hmin. unfold retrieve_query. rewrite Hmin.
  set (q1 := and_where ([], []) (IN col_level 5)
               (map SText (firstn 5 (level_hierarchy l)))).
  assert (H1 : placeholders_total (fst q1)
               = (List.length (snd q1) + (5 - List.length (level_hierarchy l)))%nat)
    by (destruct l; reflexivity).
  assert (H3 := where_actors_gap f _ _ (where_categories_gap f _ _ H1)).
  destruct (time_range f) as [[s t]|]; [|exact H3].
  apply and_where_gap; [exact H3 | reflexivity].
Qed.

(** The upper-case names of the hierarchy against the lower-case value the
    level column holds. *)
Lemma level_condition_false :
  forall l r,
    level_stored r ->
    where_holds [IN col_level 5] (map SText (firstn 5 (level_hierarchy l))) r
    = false.
Proof.
  intros l r [lv Hlv]. cbn [where_holds column_of]. rewrite Hlv.
  destruct l, lv; reflexivity.
Qed.

Lemma and_where_false :
  forall q w ps r,
    bound q ->
    where_holds (fst q) (snd q) r = false ->
    where_holds (fst (and_where q w ps)) (snd (and_where q w ps)) r = false.
Proof.
  intros q w ps r Hb Hq. unfold and_where. cbn [fst snd].
  rewrite where_holds_app by exact Hb. now rewrite Hq.
Qed.

Lemma retrieve_query_level_false :
  forall f l r,
    min_level f = Some l -> (5 <= List.length (level_hierarchy l))%nat ->
    level_stored r ->
    where_holds (fst (retrieve_query (Some f))) (snd (retrieve_query (Some f))) r
    = false.
Proof.
  intros f l r Hmin Hlen Hr. unfold retrieve_query. rewrite Hmin.
  set (q1 := and_where ([], []) (IN col_level 5)
               (map SText (firstn 5 (level_hierarchy l)))).
  assert (Hb1 : bound q1).
  { apply and_where_bound; [reflexivity|]. cbn [placeholders_of].
    rewrite length_map, length_firstn. lia. }
  assert (H1 : where_holds (fst q1) (snd q1) r = false)
    by (apply (level_condition_false l r Hr)).
  assert (Hb2 := where_categories_bound f q1 Hb1).
  assert (H2 : where_holds (fst (where_categories f q1))
                 (snd (where_categories f q1)) r = false)
    by (rewrite where_categories_holds, H1 by exact Hb1; reflexivity).
  assert (Hb3 := where_actors_bound f _ Hb2).
  assert (H3 : where_holds (fst (where_actors f (where_categories f q1)))
                 (snd (where_actors f (where_categories f q1))) r = false)
    by (rewrite where_actors_holds, H2 by exact Hb2; reflexivity).
  destruct (time_range f) as [[s t]|]; [|exact H3].
  now apply and_where_false.
Qed.

Lemma visit_nil : forall (A : Type) p, visit p (@nil A) = [].
Proof.
  intros A. induction p as [|i p IH]; [reflexivity|].
  unfold visit in *. cbn [flat_map]. rewrite IH. now destruct i.
Qed.

Lemma select_events_under_min_level :
  forall order f l limit rows,
    min_level f = Some l -> Forall level_stored rows ->
    let q := retrieve_query (Some f) in
    select_events order (fst q) (snd q ++ [SInteger limit]) rows = Return []
    \/ select_events order (fst q) (snd q ++ [SInteger limit]) rows
       = Raise ProgrammingError
    \/ select_events order (fst q) (snd q ++ [SInteger limit]) rows
       = Raise OverflowError.
Proof.
  intros order f l limit rows Hmin Hrows q.
  pose proof (retrieve_query_gap f l Hmin) as Hgap. fold q in Hgap.
  pose proof (retrieve_query_text (Some f)) as Htext. fold q in Htext.
  unfold select_events, check_bindings, bind_parameters.
  rewrite length_app. cbn [List.length].
  destruct (le_lt_dec 5 (List.length (level_hierarchy l))) as [Hfive|Hshort].
  - replace (5 - List.length (level_hierarchy l))%nat with 0%nat in Hgap by lia.
    rewrite Nat.add_0_r in Hgap. rewrite Hgap, Nat.eqb_refl. cbn [bind].
    rewrite forallb_app, Htext. cbn [forallb bind_value andb].
    rewrite andb_true_r.
    destruct (int64 limit); cbn [bind]; [left | right; right; reflexivity].
    rewrite firstn_app, Nat.sub_diag, firstn_all. cbn [firstn]. rewrite app_nil_r.
    rewrite filter_none.
    + rewrite visit_nil.
      cbn [sort_desc fold_right]. rewrite app_nth2, Nat.sub_diag by lia.
      cbn [nth sql_limit]. destruct (limit <? 0); [reflexivity|].
      now rewrite firstn_nil.
    + intros r Hr. rewrite Forall_forall in Hrows.
      exact (retrieve_query_level_false f l r Hmin Hfive (Hrows r Hr)).
  - right. left.
    assert (Hne : Nat.eqb (placeholders_total (fst q) + 1)
                          (List.length (snd q) + 1) = false)
      by (apply Nat.eqb_neq; lia).
    now rewrite Hne.
Qed.

Lemma db_retrieve_events_under_min_level :
  forall (db : DatabaseAuditStorage) (uuid4 : string) (f : AuditFilter)
         (l : AuditLevel) (limit : Z),
    min_level f = Some l -> Forall level_stored (audit_events db) ->
    fst (db_retrieve_events uuid4 (Some f) limit db) = Return [].
Proof.
  intros [rows order fault errs] uuid4 f l limit Hmin Hrows.
  cbn [audit_events] in Hrows.
  unfold db_retrieve_events, connect, try_catch, pbind, get, lift, ret, raise.
  cbn [db_fault audit_events row_order fst].
  destruct fault; [reflexivity|].
  pose proof (select_events_under_min_level order f l limit rows Hmin Hrows) as Hsel.
  cbv zeta in Hsel.
  destruct (retrieve_query (Some f)) as [ws ps]. cbn [fst snd] in Hsel.
  cbn [audit_events row_order].
  destruct Hsel as [Hsel|[Hsel|Hsel]]; rewrite Hsel; reflexivity.
Qed.

(** X6.  The database backend with a filter that sets a minimum level,
    over any table whose level column holds level values: [retrieve_events]
    returns the empty list, whatever the level, the other criteria, the
    limit, the rows and the order of the engine.  From ERROR up the
    statement has more placeholders than values and the handler answers,
    as it does for a limit that does not fit 64 bits; below, the
    upper-case names match no stored value. *)
Theorem db_retrieval_under_min_level_is_empty :
  forall (rows : list row) (order : engine_order) (fault : bool)
         (errs : list string) (uuid4 : string)
         (f : AuditFilter) (l : AuditLevel) (limit : Z),
    min_level f = Some l -> Forall level_stored rows ->
    fst (retrieve_events uuid4 (Some f) limit
           (mkDatabaseAuditStorage rows order fault errs))
    = Return [].
Proof.
  intros rows order fault errs uuid4 f l limit Hmin Hrows.
  now apply (db_retrieve_events_under_min_level
               (mkDatabaseAuditStorage rows order fault errs) uuid4 f l limit).
Qed.

(** X6 at the default filter, whose minimum level is INFO, and the
    two-row table. *)
Lemma db_retrieval_under_min_level_is_empty_witness :
  fst (retrieve_events ""
         (Some (new_AuditFilter Omitted None None None None None)) 1000
         (mkDatabaseAuditStorage (map stored_row [old_event; new_event])
            sqlite_order false []))
  = Return [].
Proof.
  apply (db_retrieval_under_min_level_is_empty
           (map stored_row [old_event; new_event]) sqlite_order false [] ""
           (new_AuditFilter Omitted None None None None None) INFO 1000 eq_refl).
  repeat constructor; exists INFO; reflexivity.
Defined.


(** ** The queries of AuditLogger over the database backend *)

(** X8.  An AuditLogger over the database backend, the level column of
    its table holding level values: [get_events_by_actor],
    [get_events_by_category], [get_security_events] and
    [get_compliance_events] return the empty list, whatever the table
    holds, and the summary of [generate_audit_report] counts no event:
    each builds its filter with the default minimum level. *)
Theorem db_logger_queries_return_nothing :
  forall (lg : AuditLogger DatabaseAuditStorage) (uuid4 actor : string)
         (category : AuditCategory) (framework : ComplianceFramework)
         (start_time end_time : datetime) (limit : keyword Z),
    Forall level_stored (audit_events (storage lg)) ->
    fst (get_events_by_actor uuid4 actor limit lg) = Return []
    /\ fst (get_events_by_category uuid4 category limit lg) = Return []
    /\ fst (get_security_events uuid4 start_time end_time limit lg) = Return []
    /\ fst (get_compliance_events uuid4 framework start_time end_time lg) = Return []
    /\ fst (generate_audit_report uuid4 start_time end_time lg)
       = Return (mkreport_summary 0 0 0).
Proof.
  intros lg uuid4 actor category framework start_time end_time limit Hrows.
  unfold get_events_by_actor, get_events_by_category, get_security_events,
    get_compliance_events, generate_audit_report.
  assert (Hq : forall f lim,
             min_level f = Some INFO ->
             fst (on_storage (retrieve_events uuid4 (Some f) lim) lg) = Return []).
  { intros f lim Hmin. rewrite on_storage_result.
    now apply (db_retrieve_events_under_min_level (storage lg) uuid4 f INFO lim). }
  repeat split; try (apply Hq; reflexivity).
  unfold pbind.
  specialize (Hq (new_AuditFilter Omitted None None None None
                    (Some (start_time, end_time))) 10000 eq_refl).
  destruct (on_storage _ lg) as [r lg']. cbn [fst] in Hq. rewrite Hq.
  reflexivity.
Qed.

(** X8 at a logger over the two-row table. *)
Lemma db_logger_queries_return_nothing_witness :
  fst (get_events_by_actor "" "alice" Omitted
         (new_AuditLogger (database_of sqlite_order [old_event; new_event] []) None
              false 0))
  = Return [].
Proof.
  apply (db_logger_queries_return_nothing
           (new_AuditLogger (database_of sqlite_order [old_event; new_event] []) None
              false 0)
           "" "alice" DATA_ACCESS GDPR ten_o_clock two_past_ten Omitted).
  repeat constructor; exists INFO; reflexivity.
Defined.

(** ** Storing into the database backend *)










(** ** A row the database backend cannot convert *)

Lemma rows_to_events_raises :
  forall uuid4 rows r x,
    In r rows -> _row_to_event uuid4 r = Raise x ->
    exists x', rows_to_events uuid4 rows = Raise x'.
Proof.
  intros uuid4. induction rows as [|a rows IH]; intros r x Hin Hr; [contradiction|].
  cbn [rows_to_events].
  destruct (_row_to_event uuid4 a) as [ev|xa] eqn:Ha; [|now exists xa].
  destruct Hin as [->|Hin]; [congruence|].
  destruct (IH r x Hin Hr) as [x' Hx']. exists x'. cbn [bind]. now rewrite Hx'.
Qed.

Lemma unconvertible_raises :
  forall uuid4 r, unconvertible r -> exists x, _row_to_event uuid4 r = Raise x.
Proof.
  intros uuid4 r Hr. unfold _row_to_event.
  destruct (AuditLevel_of (c_level r)) as [lv|x] eqn:Hlv; [|now exists x].
  destruct (AuditCategory_of (c_category r)) as [cat|x] eqn:Hcat; [|now exists x].
  destruct (AuditAction_of (c_action r)) as [act|x] eqn:Hact; [|now exists x].
  destruct Hr as [Hr|[Hr|[Hr|Hr]]]; try congruence.
  cbn [bind].
  destruct (fromisoformat (c_timestamp r)) as [ts|x]; [|now exists x].
  cbn [bind].
  destruct (json_loads _) as [det|x]; [|now exists x].
  cbn [bind]. rewrite Hr. now exists TypeError.
Qed.

(** X11.  One row that cannot be converted hides every event of the
    database backend.  When the table holds a row whose level, category
    or action column holds no value of its enumeration, or whose
    frameworks column is NULL, [retrieve_events] without a filter, under
    a limit that cuts no row off, answers the empty list and logs the
    failure, the table left as it was, whatever order the engine lists
    the rows in.  (The file backend skips a malformed line and goes
    on.) *)
Theorem db_malformed_row_hides_every_event :
  forall (rows : list row) (order : engine_order) (errs : list string)
         (uuid4 : string) (limit : Z) (r : row),
    In r rows -> unconvertible r -> lists_each_row order ->
    limit < 0 \/ len rows <= limit ->
    exists x,
      retrieve_events uuid4 None limit
        (mkDatabaseAuditStorage rows order false errs)
      = (Return [],
         mkDatabaseAuditStorage rows order false
           (errs ++ ["Failed to retrieve audit events: " ++ exn_name x])).
Proof.
  intros rows order errs uuid4 limit r Hin Hr Horder Hroom.
  cbn [retrieve_events DatabaseAuditStorage_storage].
  destruct (int64 limit) eqn:Hlimit.
  2:{ exists OverflowError. now rewrite db_retrieve_events_overflow. }
  unfold db_retrieve_events, connect, try_catch, pbind, get, lift, ret.
  cbn [db_fault audit_events row_order retrieve_query app].
  unfold select_events, bind_parameters.
  cbn [placeholders_total fold_right Nat.add check_bindings List.length Nat.eqb
       bind nth firstn where_holds forallb bind_value].
  rewrite Hlimit. cbn [andb bind].
  rewrite (filter_all (fun _ : row => true)) by reflexivity.
  set (listed := visit (order [] (List.length rows)) rows).
  assert (Hlisted : Permutation listed rows) by (apply visit_each_row, Horder).
  assert (Hall : sql_limit (SInteger limit) (sort_desc timestamp_leb listed)
                 = sort_desc timestamp_leb listed).
  { cbn [sql_limit]. destruct (Z.ltb_spec limit 0) as [|Hpos]; [reflexivity|].
    apply firstn_all2.
    rewrite (Permutation_length (sort_desc_Permutation _ timestamp_leb listed)).
    rewrite (Permutation_length Hlisted). unfold len in Hroom. lia. }
  rewrite Hall.
  assert (Hsel : In r (sort_desc timestamp_leb listed)).
  { eapply Permutation_in; [apply Permutation_sym, sort_desc_Permutation|].
    eapply Permutation_in; [apply Permutation_sym, Hlisted | exact Hin]. }
  destruct (unconvertible_raises uuid4 r Hr) as [x Hx].
  destruct (rows_to_events_raises uuid4 _ r x Hsel Hx) as [x' Hx'].
  exists x'. rewrite Hx'. reflexivity.
Qed.

(** X11 at a table that holds the row of [old_event] and a copy of it
    whose level column holds the name INFO rather than the value. *)
Lemma db_malformed_row_hides_every_event_witness :
  fst (retrieve_events "" None 1000
         (mkDatabaseAuditStorage
            [stored_row old_event;
             mkrow "x" (isoformat two_past_ten) "INFO" "data_access" "read"
               "bob" "orders" "success" "read orders" None None None None None
               (Some (Dumped (PList []))) 0 0 None]
            sqlite_order false []))
  = Return [].
Proof.
  destruct (db_malformed_row_hides_every_event
              [stored_row old_event;
               mkrow "x" (isoformat two_past_ten) "INFO" "data_access" "read"
                 "bob" "orders" "success" "read orders" None None None None None
                 (Some (Dumped (PList []))) 0 0 None]
              sqlite_order [] "" 1000
              (mkrow "x" (isoformat two_past_ten) "INFO" "data_access" "read"
                 "bob" "orders" "success" "read orders" None None None None None
                 (Some (Dumped (PList []))) 0 0 None))
    as [x Hx].
  - right. left. reflexivity.
  - left. reflexivity.
  - exact sqlite_order_lists_each_row.
  - right. vm_compute. discriminate.
  - now rewrite Hx.
Defined.

(** ** The worker of the asynchronous logger *)

Lemma process_one_outcome :
  forall (S : Type) (St : AuditStorage S) (now : datetime) (lg : AuditLogger S),
    fst (process_one now lg) = Return tt
    /\ storage (snd (process_one now lg))
       = store_all now (firstn 1 (event_queue lg)) (storage lg)
    /\ event_queue (snd (process_one now lg)) = skipn 1 (event_queue lg)
    /\ handler_calls (snd (process_one now lg)) = handler_calls lg.
Proof.
  intros S St now [st fs a m q hs cs errs]. unfold process_one, pbind at 1, get.
  cbn [event_queue]. destruct q as [|event q].
  - cbn. auto.
  - unfold pbind, modify, try_catch, on_storage, with_queue, logger_log_error,
      modify, ret.
    cbn. destruct (store_event now event st) as [[b|x] st']; cbn; auto.
Qed.

Lemma process_turns_outcome :
  forall (S : Type) (St : AuditStorage S) (now : datetime) (n : nat)
         (lg : AuditLogger S),
    fst (process_turns now n lg) = Return tt
    /\ storage (snd (process_turns now n lg))
       = store_all now (firstn n (event_queue lg)) (storage lg)
    /\ event_queue (snd (process_turns now n lg)) = skipn n (event_queue lg)
    /\ handler_calls (snd (process_turns now n lg)) = handler_calls lg.
Proof.
  intros S St now. induction n as [|n IH]; intros lg.
  - cbn. auto.
  - cbn [process_turns]. unfold pbind.
    destruct (process_one_outcome S St now lg) as (Hr & Hst & Hq & Hc).
    destruct (process_one now lg) as [r lg1]. cbn [fst snd] in *. subst r.
    destruct (IH lg1) as (Hr' & Hst' & Hq' & Hc').
    rewrite Hr', Hst', Hq', Hc', Hst, Hq, Hc.
    repeat split.
    + destruct (event_queue lg) as [|event q]; [now destruct n|].
      cbn [firstn skipn store_all fold_left]. reflexivity.
    + destruct (event_queue lg) as [|event q]; [now destruct n|]. reflexivity.
Qed.

Lemma store_all_app :
  forall (S : Type) (St : AuditStorage S) now es es' (st : S),
    store_all now (es ++ es') st = store_all now es' (store_all now es st).
Proof. intros. unfold store_all. apply fold_left_app. Qed.

(** X12.  The asynchronous logger loses and reorders nothing while its
    queue has room: [log_event] of an event the filters accept leaves the
    storage untouched and puts the event behind those waiting, and the
    worker, given a turn for each, stores the waiting events and then the
    new one, in the order they were logged, and leaves the queue empty.
    The handlers are called once, by [log_event]. *)
Theorem async_events_reach_storage_in_order :
  forall (S : Type) (St : AuditStorage S) (uuid4 : string) (now later : datetime)
         (lv : AuditLevel) (cat : AuditCategory) (act : AuditAction)
         (actr tgt res msg : string) (kw : kwargs) (lg : AuditLogger S),
    let event := log_event_event uuid4 now lv cat act actr tgt res msg kw in
    let logged := snd (log_event uuid4 now lv cat act actr tgt res msg kw lg) in
    let drained :=
      snd (process_turns later (Datatypes.S (List.length (event_queue lg))) logged) in
    async_logging lg = true ->
    rejected (filters lg) event = false ->
    queue_full lg = false ->
    storage logged = storage lg
    /\ event_queue logged = (event_queue lg ++ [event])%list
    /\ storage drained
       = snd (store_event later event
                (store_all later (event_queue lg) (storage lg)))
    /\ event_queue drained = []
    /\ handler_calls drained
       = (handler_calls lg ++ calls_from 0 (event_handlers lg) event)%list.
Proof.
  intros S St uuid4 now later lv cat act actr tgt res msg kw lg event logged
    drained Hasync Haccept Hroom.
  pose proof (log_event_outcome S St uuid4 now lv cat act actr tgt res msg kw lg)
    as Hlog.
  cbv zeta in Hlog. fold event in Hlog. rewrite Haccept, Hasync, Hroom in Hlog.
  fold logged in Hlog. destruct Hlog as (Hcalls & _ & Hst & Hq).
  destruct (process_turns_outcome S St later
              (Datatypes.S (List.length (event_queue lg))) logged)
    as (_ & Hst' & Hq' & Hc').
  fold drained in Hst', Hq', Hc'.
  split; [exact Hst|]. split; [exact Hq|].
  rewrite Hst', Hq', Hc', Hq, Hst, Hcalls.
  assert (Hlen : Datatypes.S (List.length (event_queue lg))
                 = List.length (event_queue lg ++ [event]))
    by (rewrite length_app; cbn; lia).
  rewrite Hlen, firstn_all, skipn_all, store_all_app.
  repeat split.
Qed.

(** X12 at an asynchronous logger over an empty database with an empty
    queue of capacity ten. *)
Lemma async_events_reach_storage_in_order_witness :
  let lg := new_AuditLogger (database_of sqlite_order [] []) None true 10 in
  let logged :=
    snd (log_event "00000000-0000-4000-8000-00000000000a" ten_o_clock INFO
           DATA_ACCESS READ "alice" "orders" "success" "read orders" no_kwargs lg) in
  event_queue logged = [old_event]
  /\ event_queue (snd (process_turns two_past_ten 1 logged)) = [].
Proof.
  intros lg logged.
  destruct (async_events_reach_storage_in_order DatabaseAuditStorage _
              "00000000-0000-4000-8000-00000000000a" ten_o_clock two_past_ten
              INFO DATA_ACCESS READ "alice" "orders" "success" "read orders"
              no_kwargs lg eq_refl eq_refl eq_refl)
    as (_ & Hq & _ & Hq' & _).
  split; [exact Hq | exact Hq'].
Defined.

(** ** Storing into the file backend *)
Lemma prefix_self_append : forall p r, String.prefix p (p ++ r) = true.
Proof.
  induction p as [|c p IH]; intros r; cbn; [now destruct r|].
  destruct (ascii_dec c c) as [_|Hne]; [apply IH | now elim Hne].
Qed.

Lemma contains_append :
  forall p s r, contains p (s ++ p ++ r) = true.
Proof.
  intros p. induction s as [|c s IH]; intros r.
  - cbn [append]. destruct (p ++ r) eqn:Hpr; cbn [contains];
      rewrite <- Hpr, prefix_self_append; reflexivity.
  - cbn [append contains]. rewrite IH. now destruct (String.prefix _ _).
Qed.

Lemma length_append :
  forall a b, String.length (a ++ b) = (String.length a + String.length b)%nat.
Proof. induction a as [|c a IH]; intros b; cbn; [reflexivity | now rewrite IH]. Qed.

Lemma ends_with_gz_log :
  forall x, ends_with ".gz" (x ++ ".log") = false.
Proof.
  induction x as [|c x IH]; [reflexivity|].
  cbn [append ends_with]. rewrite IH.
  assert (Hne : String.eqb ".gz" (String c (x ++ ".log")) = false).
  { apply String.eqb_neq. intros Heq. apply (f_equal String.length) in Heq.
    cbn [String.length] in Heq. rewrite length_append in Heq. cbn in Heq. lia. }
  now rewrite Hne.
Qed.

Lemma strftime_compact_length :
  forall t, String.length (strftime_compact t) = 15%nat.
Proof. intros t. unfold strftime_compact. rewrite !length_append. reflexivity. Qed.

(** The names [_initialize_current_file] builds: the pattern of the
    readers selects them and none reads as a gzip file. *)
Lemma initialized_name :
  forall t,
    let n := "audit_" ++ strftime_compact t ++ ".log" in
    matches_pattern n = true /\ is_gz n = false.
Proof.
  intros t n. subst n. split.
  - unfold matches_pattern. apply andb_true_iff. split; [reflexivity|].
    cbn [append String.length String.substring Nat.sub].
    rewrite length_append, strftime_compact_length.
    cbn [String.length Nat.add].
    assert (Hsub : forall s k, String.length s = k -> String.substring 0 k s = s).
    { induction s as [|c s IH]; intros k Hk; subst k; cbn; [reflexivity|].
      now rewrite IH. }
    rewrite Hsub by (rewrite length_append, strftime_compact_length; reflexivity).
    apply (contains_append ".log" (strftime_compact t) "").
  - unfold is_gz.
    change ("audit_" ++ strftime_compact t ++ ".log")
      with ("audit_" ++ (strftime_compact t ++ ".log")).
    assert (Happ : forall a b c, a ++ (b ++ c) = (a ++ b) ++ c).
    { induction a as [|x a IH]; intros b c; cbn; [reflexivity | now rewrite IH]. }
    rewrite Happ, ends_with_gz_log. reflexivity.
Qed.

Lemma find_file_split :
  forall n d f,
    NoDup (map path_name d) -> find_file n d = Some f ->
    path_name f = n
    /\ exists d1 d2,
         d = (d1 ++ f :: d2)%list
         /\ Forall (fun g => String.eqb (path_name g) n = false) d1
         /\ Forall (fun g => String.eqb (path_name g) n = false) d2.
Proof.
  intros n. induction d as [|h d IH]; intros f Hnd Hfind; [discriminate|].
  unfold find_file in *. cbn [find map] in *.
  inversion Hnd as [|? ? Hnotin Hnd']; subst.
  destruct (String.eqb (path_name h) n) eqn:Hh.
  - injection Hfind as <-. apply String.eqb_eq in Hh. split; [exact Hh|].
    exists [], d. split; [reflexivity|]. split; [constructor|].
    apply Forall_forall. intros g Hg. apply String.eqb_neq. intros Heq.
    apply Hnotin. rewrite Hh, <- Heq. now apply in_map.
  - destruct (IH f Hnd' Hfind) as (Hname & d1 & d2 & Hd & H1 & H2).
    split; [exact Hname|]. exists (h :: d1), d2.
    split; [now rewrite Hd|]. split; [now constructor | exact H2].
Qed.

Lemma find_file_none :
  forall n d,
    find_file n d = None ->
    Forall (fun g => String.eqb (path_name g) n = false) d.
Proof.
  intros n. induction d as [|h d IH]; intros Hfind; [constructor|].
  unfold find_file in *. cbn [find] in *.
  destruct (String.eqb (path_name h) n) eqn:Hh; [discriminate|].
  constructor; auto.
Qed.





Lemma file_events_with_directory :
  forall st d uuid4 filter f,
    file_events (with_directory st d) uuid4 filter f = file_events st uuid4 filter f.
Proof. reflexivity. Qed.











(** ** The files rotation keeps *)

Lemma filter_filter :
  forall (A : Type) (p q : A -> bool) l,
    filter p (filter q l) = filter (fun x => andb (q x) (p x)) l.
Proof.
  intros A p q. induction l as [|x l IH]; cbn; [reflexivity|].
  destruct (q x); cbn; [destruct (p x)|]; now rewrite IH.
Qed.

Lemma filter_Permutation :
  forall (A : Type) (p : A -> bool) l l',
    Permutation l l' -> Permutation (filter p l) (filter p l').
Proof.
  intros A p l l' H. induction H as [|x l l' H IH|x y l|l l' l'' H1 IH1 H2 IH2]; cbn.
  - constructor.
  - destruct (p x); [now constructor | exact IH].
  - destruct (p x), (p y); try apply Permutation_refl. apply perm_swap.
  - eapply Permutation_trans; eassumption.
Qed.

(** Unlinking the files of [dels] one after the other. *)
Lemma unlink_all :
  forall (dels d : list log_file),
    fold_left (fun d old_file => unlink (path_name old_file) d) dels d
    = filter (fun g => negb (mem_str (path_name g) (map path_name dels))) d.
Proof.
  induction dels as [|x dels IH]; intros d; cbn [fold_left map].
  - cbn. now rewrite filter_all.
  - rewrite IH. unfold unlink. rewrite filter_filter. apply filter_ext.
    intros g. unfold mem_str. cbn [existsb].
    destruct (String.eqb (path_name g) (path_name x)); reflexivity.
Qed.

Lemma firstn_survive :
  forall (l1 l2 : list log_file),
    NoDup (map path_name (l1 ++ l2)) ->
    filter (fun g => negb (mem_str (path_name g) (map path_name l2))) (l1 ++ l2)
    = l1.
Proof.
  intros l1 l2 Hnd. rewrite filter_app.
  rewrite (filter_all _ l1), (filter_none _ l2); [apply app_nil_r| |].
  - intros g Hg. apply negb_false_iff, mem_str_In. now apply in_map.
  - intros g Hg. apply negb_true_iff. apply not_true_is_false. intros Hin.
    apply mem_str_In in Hin. rewrite map_app in Hnd.
    revert Hnd Hin. generalize (map path_name l2) as names.
    induction l1 as [|h l1 IH]; intros names Hnd Hin; [contradiction|].
    cbn [map app] in Hnd. inversion Hnd as [|? ? Hnotin Hnd']; subst.
    destruct Hg as [->|Hg].
    + apply Hnotin. apply in_or_app. now right.
    + now apply (IH Hg names).
Qed.


(** X14.  [_cleanup_old_files] on a directory that holds no two files of
    one name, [max_files] not negative.  When the directory refuses writes
    and the pattern selects more than [max_files] files, the [OSError] of
    the first [unlink] leaves the call and no file is deleted.  Otherwise
    the call returns and, of the files the pattern selects, the
    [max_files] first of the list sorted by modification time stay and
    every other one is deleted, so that no deleted file is newer than a
    kept one; a file the pattern does not select is left alone. *)
Theorem cleanup_old_files_keeps_the_newest :
  forall st : FileAuditStorage,
    distinct_names st -> 0 <= max_files st ->
    if andb (disk_fault st) (max_files st <? len (glob st))
    then _cleanup_old_files st = (Raise OSError, st)
    else
      fst (_cleanup_old_files st) = Return tt
      /\ Permutation (glob (snd (_cleanup_old_files st)))
           (firstn (Z.to_nat (max_files st)) (sort_desc mtime_leb (glob st)))
      /\ len (glob (snd (_cleanup_old_files st))) <= max_files st
      /\ (forall kept gone,
            In kept (glob (snd (_cleanup_old_files st))) ->
            In gone (glob st) -> ~ In gone (glob (snd (_cleanup_old_files st))) ->
            mtime_leb gone kept = true)
      /\ filter (fun f => negb (matches_pattern (path_name f)))
           (log_directory (snd (_cleanup_old_files st)))
         = filter (fun f => negb (matches_pattern (path_name f))) (log_directory st).
Proof.
  intros st Hnd Hmax.
  assert (Hlen : List.length (sort_desc mtime_leb (glob st))
                 = List.length (glob st))
    by (apply Permutation_length, sort_desc_Permutation).
  assert (Hslice : slice_from (max_files st) (sort_desc mtime_leb (glob st))
                   = skipn (Z.to_nat (max_files st)) (sort_desc mtime_leb (glob st))).
  { unfold slice_from. now destruct (Z.ltb_spec (max_files st) 0) as [|_]; [lia|]. }
  assert (Hrun : andb (disk_fault st) (max_files st <? len (glob st)) = false ->
                 _cleanup_old_files st
                 = (Return tt,
                    with_directory st
                      (fold_left (fun d old_file => unlink (path_name old_file) d)
                         (slice_from (max_files st) (sort_desc mtime_leb (glob st)))
                         (log_directory st)))).
  { intros Hcase. destruct (disk_fault st) eqn:Hd;
      [|now apply cleanup_old_files_ok].
    cbn [andb] in Hcase. apply Z.ltb_ge in Hcase.
    unfold _cleanup_old_files, pbind, get. rewrite unlink_each_outcome, Hd.
    rewrite Hslice, skipn_all2 by (unfold len in Hcase; lia).
    cbn. now rewrite with_directory_same. }
  destruct (andb (disk_fault st) (max_files st <? len (glob st))) eqn:Hcase.
  { apply andb_true_iff in Hcase. destruct Hcase as [Hd Hmany].
    apply Z.ltb_lt in Hmany.
    unfold _cleanup_old_files, pbind, get. rewrite unlink_each_outcome, Hd.
    rewrite Hslice.
    destruct (skipn _ _) eqn:Hskip; [|reflexivity].
    exfalso. apply (f_equal (@List.length _)) in Hskip.
    rewrite length_skipn in Hskip. cbn in Hskip. unfold len in Hmany. lia. }
  rewrite (Hrun eq_refl). clear Hrun Hcase. cbn [fst snd].
  split; [reflexivity|].
  rewrite Hslice. clear Hslice Hlen.
  set (sorted := sort_desc mtime_leb (glob st)).
  set (k := Z.to_nat (max_files st)).
  rewrite unlink_all.
  assert (Hsorted : Permutation sorted (glob st)) by apply sort_desc_Permutation.
  assert (Hnames : NoDup (map path_name sorted)).
  { eapply Permutation_NoDup; [apply Permutation_map, Permutation_sym, Hsorted|].
    unfold glob. now apply NoDup_map_filter. }
  assert (Hkept : Permutation
                    (glob (with_directory st
                             (filter (fun g => negb (mem_str (path_name g)
                                                       (map path_name (skipn k sorted))))
                                     (log_directory st))))
                    (firstn k sorted)).
  { unfold glob at 1. cbn [log_directory with_directory].
    rewrite filter_filter.
    rewrite (filter_ext _ (fun x => andb (matches_pattern (path_name x))
                                     (negb (mem_str (path_name x)
                                              (map path_name (skipn k sorted))))))
      by (intros x; apply andb_comm).
    rewrite <- filter_filter. fold (glob st).
    eapply Permutation_trans;
      [apply filter_Permutation, Permutation_sym, Hsorted|].
    pose proof (firstn_survive (firstn k sorted) (skipn k sorted)) as Hsurvive.
    rewrite firstn_skipn in Hsurvive. rewrite (Hsurvive Hnames).
    apply Permutation_refl. }
  split; [exact Hkept|]. split; [|split].
  - unfold len. rewrite (Permutation_length Hkept), length_firstn. lia.
  - intros kept gone Hk Hg Hng.
    apply (descending_app mtime_leb (firstn k sorted) (skipn k sorted)).
    + rewrite firstn_skipn. apply sort_desc_descending.
      * intros a b. apply datetime_leb_total.
      * intros a b c. apply datetime_leb_trans.
    + exact (Permutation_in _ Hkept Hk).
    + apply (Permutation_in _ (Permutation_sym Hsorted)) in Hg.
      rewrite <- (firstn_skipn k sorted) in Hg.
      apply in_app_or in Hg. destruct Hg as [Hg|Hg]; [|exact Hg].
      exfalso. apply Hng. exact (Permutation_in _ (Permutation_sym Hkept) Hg).
  - cbn [log_directory with_directory]. rewrite filter_filter.
    apply filter_ext_in. intros g Hg.
    destruct (matches_pattern (path_name g)) eqn:Hm; cbn [negb andb];
      [now rewrite andb_false_r|].
    rewrite andb_true_r. apply negb_true_iff, not_true_is_false. intros Hin.
    apply mem_str_In, in_map_iff in Hin. destruct Hin as (x & Hx & Hxin).
    assert (Hxs : In x sorted)
      by (rewrite <- (firstn_skipn k sorted); apply in_or_app; now right).
    apply (Permutation_in _ Hsorted) in Hxs. unfold glob in Hxs.
    apply filter_In in Hxs. destruct Hxs as [_ Hxm].
    rewrite Hx in Hxm. congruence.
Qed.

(** X14 at a directory of three archives with room for two: the oldest
    is deleted. *)
Lemma cleanup_old_files_keeps_the_newest_witness :
  fst (_cleanup_old_files crowded_store) = Return tt
  /\ len (glob (snd (_cleanup_old_files crowded_store))) <= 2
  /\ map path_name (log_directory (snd (_cleanup_old_files crowded_store)))
     = ["audit_20240101_100002.log.gz"; "audit_20240101_100001.log.gz"].
Proof.
  assert (Hnd : distinct_names crowded_store).
  { unfold distinct_names. vm_compute. repeat constructor.
    - intros [H|[H|[]]]; discriminate H.
    - intros [H|[]]; discriminate H.
    - intros []. }
  assert (Hmax : 0 <= max_files crowded_store) by (vm_compute; discriminate).
  pose proof (cleanup_old_files_keeps_the_newest crowded_store Hnd Hmax) as Hthm.
  change (andb (disk_fault crowded_store)
            (max_files crowded_store <? len (glob crowded_store)))
    with false in Hthm.
  cbv iota in Hthm. destruct Hthm as (Hrun & _ & Hlen & _).
  split; [exact Hrun|]. split; [exact Hlen|].
  vm_compute. reflexivity.
Defined.

(** ** The counts of generate_audit_report *)

Lemma lookup_dict_set_same :
  forall (A : Type) k (v : A) d, lookup k (dict_set k v d) = Some v.
Proof.
  intros A k v. induction d as [|[k' v'] d IH]; cbn.
  - now rewrite String.eqb_refl.
  - destruct (String.eqb k k') eqn:Hk; cbn; rewrite Hk; [reflexivity | exact IH].
Qed.

Lemma lookup_dict_set_other :
  forall (A : Type) k k0 (v : A) d,
    k <> k0 -> lookup k (dict_set k0 v d) = lookup k d.
Proof.
  intros A k k0 v d Hne. induction d as [|[k' v'] d IH]; cbn.
  - apply String.eqb_neq in Hne. now rewrite Hne.
  - destruct (String.eqb k0 k') eqn:Hk0; cbn.
    + apply String.eqb_eq in Hk0. subst k'.
      apply String.eqb_neq in Hne. now rewrite Hne.
    + now rewrite IH.
Qed.

Lemma lookup_None_keys :
  forall (A : Type) k (d : list (string * A)),
    lookup k d = None <-> ~ In k (map fst d).
Proof.
  intros A k. induction d as [|[k' v'] d IH]; cbn; [tauto|].
  destruct (String.eqb_spec k k') as [->|Hne].
  - split; [discriminate | intros H; elim H; now left].
  - rewrite IH. split; [intros H [Heq|Hin]; [now elim Hne | now elim H] | tauto].
Qed.

Lemma keys_dict_set :
  forall (A : Type) k (v : A) d,
    map fst (dict_set k v d)
    = match lookup k d with
      | Some _ => map fst d
      | None => (map fst d ++ [k])%list
      end.
Proof.
  intros A k v. induction d as [|[k' v'] d IH]; cbn; [reflexivity|].
  destruct (String.eqb k k'); cbn; [reflexivity|].
  rewrite IH. now destruct (lookup k d).
Qed.

Lemma NoDup_dict_set :
  forall (A : Type) k (v : A) d,
    NoDup (map fst d) -> NoDup (map fst (dict_set k v d)).
Proof.
  intros A k v d Hnd. rewrite keys_dict_set.
  destruct (lookup k d) eqn:Hk; [exact Hnd|].
  apply lookup_None_keys in Hk.
  apply NoDup_app; [exact Hnd | repeat constructor; intros [] |].
  intros a Ha [<-|[]]. contradiction.
Qed.

Lemma counts_total_dict_set :
  forall k v d,
    counts_total (dict_set k v d) = counts_total d - dict_get k d 0 + v.
Proof.
  intros k v. unfold dict_get, counts_total.
  induction d as [|[k' v'] d IH]; cbn; [lia|].
  destruct (String.eqb k k'); cbn; [lia|]. rewrite IH. lia.
Qed.

Lemma count_if_cons :
  forall p e es, count_if p (e :: es) = (if p e then 1 else 0) + count_if p es.
Proof.
  intros p e es. unfold count_if, len. cbn [filter].
  destruct (p e); cbn [List.length]; lia.
Qed.

Lemma count_if_nonneg : forall p es, 0 <= count_if p es.
Proof. intros. unfold count_if, len. lia. Qed.

Lemma count_if_le : forall p es, count_if p es <= len es.
Proof.
  intros p es. unfold count_if, len.
  pose proof (filter_length_le p es). lia.
Qed.

(** The counting loop, from any dict of counts. *)
Lemma counting_loop :
  forall (key : AuditEvent -> string) events d,
    NoDup (map fst d) ->
    let d' :=
      fold_left (fun d event =>
                   dict_set (key event) (dict_get (key event) d 0 + 1) d)
                events d in
    NoDup (map fst d')
    /\ counts_total d' = counts_total d + len events
    /\ forall k,
         dict_get k d' 0
         = dict_get k d 0 + count_if (fun e => String.eqb (key e) k) events
         /\ (lookup k d' = None ->
             lookup k d = None
             /\ count_if (fun e => String.eqb (key e) k) events = 0).
Proof.
  intros key. induction events as [|e es IH]; intros d Hnd; cbn [fold_left].
  - cbv zeta. split; [exact Hnd|]. split; [unfold len; cbn; lia|].
    intros k. unfold count_if, len. cbn. split; [lia | auto].
  - set (d1 := dict_set (key e) (dict_get (key e) d 0 + 1) d).
    destruct (IH d1 (NoDup_dict_set _ _ _ _ Hnd)) as (Hnd' & Htot & Hk).
    cbv zeta. split; [exact Hnd'|]. split.
    + rewrite Htot. unfold d1. rewrite counts_total_dict_set.
      unfold len. cbn [List.length]. lia.
    + intros k. destruct (Hk k) as [Hget Hnone]. rewrite count_if_cons.
      destruct (String.eqb_spec (key e) k) as [<-|Hne].
      * split.
        -- rewrite Hget. unfold d1, dict_get at 1.
           rewrite lookup_dict_set_same. lia.
        -- intros Hl. destruct (Hnone Hl) as [Hl1 _].
           unfold d1 in Hl1. rewrite lookup_dict_set_same in Hl1. discriminate.
      * assert (Hsame : lookup k d1 = lookup k d)
          by (apply lookup_dict_set_other; congruence).
        split.
        -- rewrite Hget. unfold dict_get. rewrite Hsame. lia.
        -- intros Hl. destruct (Hnone Hl) as [Hl1 Hc].
           rewrite Hsame in Hl1. split; [exact Hl1 | lia].
Qed.

Lemma counts_positive :
  forall (key : AuditEvent -> string) events d,
    (forall k n, lookup k d = Some n -> 1 <= n) ->
    forall k n,
      lookup k (fold_left (fun d event =>
                             dict_set (key event) (dict_get (key event) d 0 + 1) d)
                          events d) = Some n ->
      1 <= n.
Proof.
  intros key. induction events as [|e es IH]; intros d Hd k n; cbn [fold_left].
  - apply Hd.
  - apply IH. intros k' n'.
    destruct (String.eqb_spec k' (key e)) as [->|Hne].
    + rewrite lookup_dict_set_same. intros [= <-]. unfold dict_get.
      destruct (lookup (key e) d) as [m|] eqn:Hm; [|lia].
      specialize (Hd _ _ Hm). lia.
    + rewrite lookup_dict_set_other by exact Hne. apply Hd.
Qed.

Lemma counted_by_counts :
  forall key events, counts_of key events (counted_by key events).
Proof.
  intros key events. unfold counts_of, counted_by.
  destruct (counting_loop key events [] (NoDup_nil _)) as (Hnd & Htot & Hk).
  cbv zeta in *. split; [exact Hnd|]. split; [rewrite Htot; cbn; lia|].
  intros k. destruct (Hk k) as [Hget Hnone].
  set (d := fold_left _ events []) in *.
  set (n := count_if (fun e => String.eqb (key e) k) events) in *.
  unfold dict_get in Hget. cbn [lookup] in Hget.
  destruct (lookup k d) as [m|] eqn:Hm.
  - assert (Hpos : 1 <= m).
    { apply (counts_positive key events [] (fun k n H => ltac:(discriminate)) k).
      exact Hm. }
    destruct (Z.eqb_spec n 0); [lia|]. f_equal. lia.
  - destruct (Hnone eq_refl) as [_ Hz]. now rewrite Hz.
Qed.

Lemma In_lookup :
  forall (A : Type) k (v : A) d,
    NoDup (map fst d) -> In (k, v) d -> lookup k d = Some v.
Proof.
  intros A k v. induction d as [|[k' v'] d IH]; intros Hnd Hin; [contradiction|].
  cbn [map fst] in Hnd. inversion Hnd as [|? ? Hnotin Hnd']; subst.
  cbn [lookup]. destruct Hin as [[= -> ->]|Hin].
  - now rewrite String.eqb_refl.
  - destruct (String.eqb_spec k k') as [->|_]; [|now apply IH].
    elim Hnotin. change k' with (fst (k', v)). now apply in_map.
Qed.

Lemma counts_of_positive :
  forall key events d k n, counts_of key events d -> In (k, n) d -> 1 <= n.
Proof.
  intros key events d k n (Hnd & _ & Hk) Hin.
  pose proof (In_lookup _ _ _ _ Hnd Hin) as Hl. rewrite Hk in Hl. cbv zeta in Hl.
  pose proof (count_if_nonneg (fun e => String.eqb (key e) k) events).
  destruct (Z.eqb_spec (count_if (fun e => String.eqb (key e) k) events) 0);
    [discriminate|].
  injection Hl as <-. lia.
Qed.

Lemma len_le_counts_total :
  forall d : list (string * Z),
    (forall k n, In (k, n) d -> 1 <= n) -> len d <= counts_total d.
Proof.
  unfold len, counts_total.
  induction d as [|[k n] d IH]; intros Hpos; cbn [List.length fold_right snd]; [lia|].
  specialize (Hpos k n (or_introl eq_refl)) as Hn.
  assert (Hrest : forall k n, In (k, n) d -> 1 <= n)
    by (intros k' n' Hin; apply (Hpos k' n'); now right).
  specialize (IH Hrest). lia.
Qed.

(** X15.  The counts of [generate_audit_report] over any list of events:
    [events_by_level], [events_by_category], [events_by_actor] and
    [events_by_day] each hold a key exactly when an event has it, once,
    with the number of those events, and add up to [total_events];
    [unique_actors] is at most [total_events]; [top_actors] holds at most
    ten entries of [events_by_actor], and no actor left out has a higher
    count than one listed. *)
Theorem audit_report_counts_are_frequencies :
  forall events : list AuditEvent,
    counts_of (fun e => AuditLevel_value (level e)) events (events_by_level events)
    /\ counts_of (fun e => AuditCategory_value (category e)) events
         (events_by_category events)
    /\ counts_of actor events (events_by_actor events)
    /\ counts_of (fun e => strftime_date (timestamp e)) events
         (events_by_day events)
    /\ 0 <= unique_actors events <= len events
    /\ len (top_actors events) <= 10
    /\ incl (top_actors events) (events_by_actor events)
    /\ (forall a b,
          In a (top_actors events) -> In b (events_by_actor events) ->
          ~ In b (top_actors events) -> snd b <= snd a).
Proof.
  intros events.
  split; [apply counted_by_counts|]. split; [apply counted_by_counts|].
  split; [apply counted_by_counts|]. split; [apply counted_by_counts|].
  pose proof (counted_by_counts actor events) as Hactors.
  fold (events_by_actor events) in Hactors.
  split.
  { unfold unique_actors. split; [apply len_nonneg|].
    pose proof Hactors as (_ & Htot & _). rewrite <- Htot.
    apply len_le_counts_total. intros k n Hin.
    now apply (counts_of_positive actor events (events_by_actor events) k n). }
  unfold top_actors.
  set (leb := fun a b : string * Z => snd a <=? snd b).
  set (sorted := sort_desc leb (events_by_actor events)).
  assert (Hperm : Permutation sorted (events_by_actor events))
    by apply sort_desc_Permutation.
  split.
  { unfold len. rewrite length_firstn. lia. }
  split.
  { intros x Hx. apply (Permutation_in _ Hperm).
    rewrite <- (firstn_skipn 10 sorted). apply in_or_app. now left. }
  intros a b Ha Hb Hnb.
  apply Z.leb_le.
  apply (descending_app leb (firstn 10 sorted) (skipn 10 sorted)).
  - rewrite firstn_skipn. apply sort_desc_descending.
    + intros x y Hxy. unfold leb in *. apply Z.leb_le. apply Z.leb_gt in Hxy. lia.
    + intros x y z Hxy Hyz. unfold leb in *.
      apply Z.leb_le in Hxy, Hyz. apply Z.leb_le. lia.
  - exact Ha.
  - apply (Permutation_in _ (Permutation_sym Hperm)) in Hb.
    rewrite <- (firstn_skipn 10 sorted) in Hb.
    apply in_app_or in Hb. destruct Hb as [Hb|Hb]; [contradiction | exact Hb].
Qed.

(** ** The reports of AuditReporter *)

Lemma counts_total_map :
  forall (A : Type) (name : A -> string) (count : A -> Z) (all : list A),
    counts_total (map (fun c => (name c, count c)) all)
    = fold_right (fun c n => count c + n) 0 all.
Proof.
  intros A name count. unfold counts_total.
  induction all as [|c all IH]; cbn; [reflexivity | now rewrite IH].
Qed.

(** Counting the events member by member of an enumeration, each event
    belonging to exactly one member, counts every event once. *)
Lemma partition_counts :
  forall (A : Type) (belongs : AuditEvent -> A -> bool) (all : list A) events,
    (forall e, fold_right (fun c n => (if belongs e c then 1 else 0) + n) 0 all = 1) ->
    fold_right (fun c n => count_if (fun e => belongs e c) events + n) 0 all
    = len events.
Proof.
  intros A belongs all events Hone.
  induction events as [|e es IH].
  - clear Hone. unfold count_if, len. cbn [filter List.length].
    induction all as [|c all IHa]; cbn [fold_right]; [reflexivity|].
    rewrite IHa. reflexivity.
  - assert (Hsplit : forall l,
               fold_right (fun c n => count_if (fun e0 => belongs e0 c) (e :: es) + n)
                          0 l
               = fold_right (fun c n => (if belongs e c then 1 else 0) + n) 0 l
                 + fold_right (fun c n => count_if (fun e0 => belongs e0 c) es + n)
                              0 l).
    { induction l as [|c l IHl]; cbn [fold_right]; [reflexivity|].
      rewrite IHl, count_if_cons. lia. }
    rewrite Hsplit, Hone, IH. unfold len. cbn [List.length]. lia.
Qed.

Lemma sample_length :
  forall events : list AuditEvent,
    len (map to_dict (firstn 100 events)) = Z.min 100 (len events).
Proof.
  intros events. unfold len. rewrite length_map, length_firstn. lia.
Qed.

(** X16.  [_generate_generic_compliance_report] over any list of events:
    the count of every category and of every level is listed, zero
    included, in the order of the enumeration; the counts by category add
    up to [total_events] and so do the counts by level; the sample holds
    the first hundred events, or all when there are fewer. *)
Theorem generic_report_counts_partition_the_events :
  forall (framework : ComplianceFramework) (events : list AuditEvent)
         (days_back : Z),
    let r := _generate_generic_compliance_report framework events days_back in
    generic_total_events r = len events
    /\ map fst (generic_events_by_category r)
       = map AuditCategory_value all_AuditCategory
    /\ map fst (generic_events_by_level r) = map AuditLevel_value all_AuditLevel
    /\ counts_total (generic_events_by_category r) = len events
    /\ counts_total (generic_events_by_level r) = len events
    /\ (forall c,
          lookup (AuditCategory_value c) (generic_events_by_category r)
          = Some (count_if (fun e => AuditCategory_beq (category e) c) events))
    /\ (forall l,
          lookup (AuditLevel_value l) (generic_events_by_level r)
          = Some (count_if (fun e => AuditLevel_beq (level e) l) events))
    /\ generic_events r = map to_dict (firstn 100 events)
    /\ len (generic_events r) = Z.min 100 (len events).
Proof.
  intros framework events days_back r. subst r.
  unfold _generate_generic_compliance_report.
  cbn [generic_total_events generic_events_by_category generic_events_by_level
       generic_events].
  split; [reflexivity|].
  split; [now rewrite map_map|]. split; [now rewrite map_map|].
  split.
  { rewrite counts_total_map.
    apply (partition_counts AuditCategory
             (fun e c => AuditCategory_beq (category e) c)).
    intros e. destruct (category e); reflexivity. }
  split.
  { rewrite counts_total_map.
    apply (partition_counts AuditLevel (fun e l => AuditLevel_beq (level e) l)).
    intros e. destruct (level e); reflexivity. }
  split; [intros c; destruct c; reflexivity|].
  split; [intros l; destruct l; reflexivity|].
  split; [reflexivity | apply sample_length].
Qed.

Lemma count_if_filter_le :
  forall p q events, count_if p (filter q events) <= len (filter q events).
Proof. intros. apply count_if_le. Qed.

Lemma len_filter_le :
  forall (p : AuditEvent -> bool) events, len (filter p events) <= len events.
Proof. intros p events. apply (count_if_le p events). Qed.

Lemma disjoint_counts :
  forall (p q : AuditEvent -> bool) events,
    (forall e, andb (p e) (q e) = false) ->
    count_if p events + count_if q events <= len events.
Proof.
  intros p q events Hpq. induction events as [|e es IH].
  - unfold count_if, len. cbn. lia.
  - rewrite !count_if_cons.
    replace (len (e :: es)) with (1 + len es)
      by (unfold len; cbn [List.length]; lia).
    specialize (Hpq e). destruct (p e), (q e); try discriminate; lia.
Qed.

(** X17.  The report [generate_compliance_report] builds from the events
    retrieved for a framework: [total_events] is their number and the
    sample their first hundred; the [framework] entry is the upper-case
    name for SOX, GDPR and PCI_DSS and the lower-case value for every
    other framework; a count taken among the financial (SOX) or the
    payment (PCI_DSS) events does not exceed their number, which does not
    exceed [total_events]; and the entries of [key_controls],
    [rights_exercised] and [security_requirements] that repeat a count of
    the report carry the same number. *)
Theorem framework_reports_are_consistent :
  forall (framework : ComplianceFramework) (events : list AuditEvent)
         (days_back : Z),
    let r := framework_report framework events days_back in
    report_total_events r = len events
    /\ report_events r = map to_dict (firstn 100 events)
    /\ len (report_events r) = Z.min 100 (len events)
    /\ (report_framework r = ComplianceFramework_value framework
        <-> framework <> SOX /\ framework <> GDPR /\ framework <> PCI_DSS)
    /\ match r with
       | SoxReport s =>
           framework = SOX
           /\ 0 <= financial_reporting_access s <= financial_data_events s
           /\ financial_data_events s <= sox_total_events s
           /\ system_changes s = configuration_changes s
           /\ configuration_changes s <= sox_total_events s
           /\ data_access_events s <= sox_total_events s
           /\ privileged_access s <= sox_total_events s
       | GdprReport g =>
           framework = GDPR
           /\ exercised_data_exports g = data_exports g
           /\ exercised_data_deletions g = data_deletions g
           /\ data_deletions g <= gdpr_total_events g
           /\ data_exports g <= gdpr_total_events g
           /\ personal_data_events g <= gdpr_total_events g
           /\ consent_events g <= gdpr_total_events g
           /\ access_requests g <= gdpr_total_events g
       | PciReport p =>
           framework = PCI_DSS
           /\ access_control p = authorization_events p
           /\ authentication p = authentication_events p
           /\ 0 <= cardholder_data_access p <= payment_related_events p
           /\ payment_related_events p <= pci_total_events p
           /\ authentication_events p + authorization_events p <= pci_total_events p
       | GenericReport g =>
           generic_framework g = ComplianceFramework_value framework
       end.
Proof.
  intros framework events days_back r. subst r.
  split; [destruct framework; reflexivity|].
  split; [destruct framework; reflexivity|].
  split; [destruct framework; apply sample_length|].
  split.
  { destruct framework; cbn; split;
      try (intros [H1 [H2 H3]]; congruence);
      try (intros _; repeat split; discriminate);
      try discriminate; try reflexivity. }
  destruct framework; cbn [framework_report]; try reflexivity.
  - unfold _generate_sox_report.
    cbn [financial_reporting_access financial_data_events sox_total_events
         system_changes configuration_changes data_access_events
         privileged_access].
    repeat split; try apply count_if_le; try apply len_filter_le;
      try apply count_if_nonneg.
  - unfold _generate_gdpr_report.
    cbn [exercised_data_exports data_exports exercised_data_deletions
         data_deletions gdpr_total_events personal_data_events consent_events
         access_requests].
    repeat split; apply count_if_le.
  - unfold _generate_pci_report.
    cbn [access_control authorization_events authentication
         authentication_events cardholder_data_access payment_related_events
         pci_total_events].
    repeat split; try apply count_if_le; try apply len_filter_le;
      try apply count_if_nonneg.
    apply disjoint_counts. intros e. now destruct (category e).
Qed.

Lemma file_compliance_events :
  forall (lg : AuditLogger FileAuditStorage) uuid4 fw start_time end_time,
    exists events,
      fst (get_compliance_events uuid4 fw start_time end_time lg) = Return events
      /\ len events <= 10000
      /\ Forall (fun e => In fw (compliance_frameworks e) /\ level e <> DEBUG
                          /\ datetime_leb start_time (timestamp e) = true
                          /\ datetime_leb (timestamp e) end_time = true)
                events.
Proof.
  intros lg uuid4 fw start_time end_time.
  unfold get_compliance_events. rewrite on_storage_result.
  destruct (file_retrieve_events_pass uuid4
              (new_AuditFilter Omitted None None None (Some [fw])
                 (Some (start_time, end_time)))
              10000 (storage lg)) as (events & Hrun & Hpass & Hlen).
  exists events. repeat split; try assumption.
  eapply Forall_impl; [|exact Hpass]. intros e He.
  destruct (should_log_true _ _ He) as (Hlv & _ & _ & _ & Hfw & Htime).
  destruct (Htime _ _ eq_refl) as [Hs Ht].
  split; [apply fw_inter_one, Hfw; reflexivity|].
  split; [now apply above_info_not_debug|]. now split.
Qed.

Lemma generate_compliance_report_result :
  forall (S : Type) (St : AuditStorage S) (lg : AuditLogger S) uuid4 fw
         start_time end_time days_back events,
    fst (get_compliance_events uuid4 fw start_time end_time lg) = Return events ->
    fst (generate_compliance_report uuid4 fw start_time end_time days_back lg)
    = Return (framework_report fw events days_back).
Proof.
  intros S St lg uuid4 fw start_time end_time days_back events Hrun.
  unfold generate_compliance_report, pbind.
  destruct (get_compliance_events uuid4 fw start_time end_time lg) as [r lg'].
  cbn [fst] in Hrun. now rewrite Hrun.
Qed.

(** X18.  [generate_compliance_report] by backend.  Over the database
    backend, whose level column holds level values, the report of every
    framework is the report of no event, whatever the table holds.  Over
    the file backend it is the report of at most 10000 events, each
    tagged with the framework, above DEBUG and inside the window. *)
Theorem compliance_reports_by_backend :
  forall (dl : AuditLogger DatabaseAuditStorage)
         (fl : AuditLogger FileAuditStorage) (uuid4 : string)
         (framework : ComplianceFramework) (start_time end_time : datetime)
         (days_back : Z),
    Forall level_stored (audit_events (storage dl)) ->
    (fst (generate_compliance_report uuid4 framework start_time end_time
            days_back dl)
     = Return (framework_report framework [] days_back)
     /\ report_total_events (framework_report framework [] days_back) = 0
     /\ report_events (framework_report framework [] days_back) = [])
    /\ exists events,
         fst (generate_compliance_report uuid4 framework start_time end_time
                days_back fl)
         = Return (framework_report framework events days_back)
         /\ report_total_events (framework_report framework events days_back)
            <= 10000
         /\ Forall (fun e => In framework (compliance_frameworks e)
                             /\ level e <> DEBUG
                             /\ datetime_leb start_time (timestamp e) = true
                             /\ datetime_leb (timestamp e) end_time = true)
                   events.
Proof.
  intros dl fl uuid4 framework start_time end_time days_back Hrows.
  split.
  - split; [|split; destruct framework; reflexivity].
    apply generate_compliance_report_result.
    unfold get_compliance_events. rewrite on_storage_result.
    now apply (db_retrieve_events_under_min_level (storage dl) uuid4 _ INFO 10000).
  - destruct (file_compliance_events fl uuid4 framework start_time end_time)
      as (events & Hrun & Hlen & Hall).
    exists events.
    split; [now apply generate_compliance_report_result|].
    split; [|exact Hall].
    destruct framework; exact Hlen.
Qed.

(** X18 at a database that holds two data-access events, both tagged
    GDPR, and the file backend that holds the same two. *)
Lemma compliance_reports_by_backend_witness :
  fst (generate_compliance_report "" GDPR ten_o_clock three_past_ten 30
         (new_AuditLogger (database_of sqlite_order [old_event; new_event] []) None
              false 0))
  = Return (framework_report GDPR [] 30).
Proof.
  apply (compliance_reports_by_backend
           (new_AuditLogger (database_of sqlite_order [old_event; new_event] []) None
              false 0)
           (new_AuditLogger two_event_store None false 0)
           "" GDPR ten_o_clock three_past_ten 30).
  repeat constructor; exists INFO; reflexivity.
Defined.

(** ** Logging to the file backend and asking for the event *)






(** ** Rotation *)

Lemma ends_with_append : forall suffix x, ends_with suffix (x ++ suffix) = true.
Proof.
  intros suffix. induction x as [|c x IH]; cbn [append].
  - destruct suffix; cbn [ends_with]; now rewrite String.eqb_refl.
  - cbn [ends_with]. rewrite IH. now destruct (String.eqb _ _).
Qed.

Lemma append_assoc :
  forall a b c : string, a ++ (b ++ c) = (a ++ b) ++ c.
Proof. induction a as [|x a IH]; intros b c; cbn; [reflexivity | now rewrite IH]. Qed.

Lemma substring_all :
  forall s, String.substring 0 (String.length s) s = s.
Proof. induction s as [|c s IH]; cbn; [reflexivity | now rewrite IH]. Qed.

(** The archive of a file named by [_initialize_current_file]: the
    pattern of the readers selects it, it reads as a gzip file, and it is
    another name. *)
Lemma archive_name :
  forall t,
    let n := "audit_" ++ strftime_compact t ++ ".log" in
    matches_pattern (n ++ ".gz") = true
    /\ is_gz (n ++ ".gz") = true
    /\ String.eqb (n ++ ".gz") n = false.
Proof.
  intros t n. subst n. split; [|split].
  - unfold matches_pattern. apply andb_true_iff. split; [reflexivity|].
    cbn [append String.length String.substring Nat.sub].
    rewrite <- !append_assoc, Nat.sub_0_r, substring_all.
    apply (contains_append ".log" (strftime_compact t) ".gz").
  - unfold is_gz. rewrite ends_with_append, length_append. cbn. reflexivity.
  - apply String.eqb_neq. intros Heq. apply (f_equal String.length) in Heq.
    rewrite length_append in Heq. cbn in Heq. lia.
Qed.

Lemma unlink_split :
  forall n (d1 d2 : list log_file) f,
    path_name f = n ->
    Forall (fun g => String.eqb (path_name g) n = false) d1 ->
    Forall (fun g => String.eqb (path_name g) n = false) d2 ->
    unlink n (d1 ++ f :: d2) = (d1 ++ d2)%list.
Proof.
  intros n d1 d2 f Hf H1 H2. unfold unlink. rewrite filter_app. cbn [filter].
  rewrite Hf, String.eqb_refl. cbn [negb].
  rewrite !filter_all; [reflexivity| |];
    intros g Hg; apply negb_true_iff;
    [rewrite Forall_forall in H2 | rewrite Forall_forall in H1]; auto.
Qed.

(** [_compress_file] on the current file, text, no archive of its name
    in the way: the readers find the same events, now in the archive. *)
Lemma compress_file_keeps_the_events :
  forall st now f uuid4 flt,
    disk_fault st = false -> distinct_names st -> current_file_initialized st ->
    find_file (current_file st) (log_directory st) = Some f ->
    st_encoding f = Utf8 ->
    find_file (current_file st ++ ".gz") (log_directory st) = None ->
    fst (_compress_file now f st) = Return tt
    /\ current_file (snd (_compress_file now f st)) = current_file st
    /\ max_files (snd (_compress_file now f st)) = max_files st
    /\ distinct_names (snd (_compress_file now f st))
    /\ List.length (glob (snd (_compress_file now f st))) = List.length (glob st)
    /\ Permutation
         (flat_map (file_events (snd (_compress_file now f st)) uuid4 flt)
            (glob (snd (_compress_file now f st))))
         (flat_map (file_events st uuid4 flt) (glob st)).
Proof.
  intros st now f uuid4 flt Hfault Hnd [t Hname] Hfind Henc Hfree.
  destruct (find_file_split _ _ _ Hnd Hfind) as (Hfname & d1 & d2 & Hd & H1 & H2).
  destruct (initialized_name t) as [Hmatch Hgz].
  destruct (archive_name t) as (Hamatch & Hagz & Hane).
  cbv zeta in Hmatch, Hgz, Hamatch, Hagz, Hane.
  rewrite <- Hname in Hmatch, Hgz, Hamatch, Hagz, Hane.
  unfold _compress_file, write_guard, pbind, get, modify, ret, raise.
  rewrite Hfault. cbn [fst snd].
  set (copy := mklog_file (path_name f ++ ".gz") now (st_size f)
                 match st_encoding f with Utf8 => Gzip | _ => Undecodable end
                 (file_lines f)).
  assert (Hput : put_file copy (log_directory st) = (log_directory st ++ [copy])%list).
  { unfold put_file. cbn [path_name copy]. now rewrite Hfname, Hfree. }
  assert (Hdir : unlink (path_name f) (put_file copy (log_directory st))
                 = (d1 ++ d2 ++ [copy])%list).
  { rewrite Hput, Hd. unfold unlink. rewrite filter_app.
    fold (unlink (path_name f) (d1 ++ f :: d2)).
    rewrite (unlink_split (path_name f) d1 d2 f eq_refl)
      by (rewrite Hfname; assumption).
    cbn [filter path_name copy]. rewrite Hfname, Hane. cbn [negb].
    now rewrite <- app_assoc. }
  rewrite Hdir.
  split; [reflexivity|]. split; [reflexivity|]. split; [reflexivity|].
  assert (Hfree' : ~ In (current_file st ++ ".gz") (map path_name (d1 ++ d2))).
  { intros Hin. apply in_map_iff in Hin. destruct Hin as (g & Hg & Hgin).
    pose proof (find_file_none _ _ Hfree) as Hnone.
    rewrite Forall_forall in Hnone.
    assert (Hgd : In g (log_directory st)).
    { rewrite Hd. apply in_app_or in Hgin. apply in_or_app.
      destruct Hgin; [now left | right; now right]. }
    specialize (Hnone g Hgd). rewrite Hg, String.eqb_refl in Hnone. discriminate. }
  split.
  { unfold distinct_names in *. cbn [log_directory with_directory].
    rewrite app_assoc, map_app. cbn [map path_name copy].
    rewrite Hd, map_app in Hnd. cbn [map] in Hnd.
    apply NoDup_remove_1 in Hnd. rewrite <- map_app in Hnd.
    apply NoDup_app; [exact Hnd | repeat constructor; intros [] |].
    intros a Ha [<-|[]]. rewrite Hfname in Ha. contradiction. }
  unfold glob. cbn [log_directory with_directory]. rewrite Hd.
  rewrite !filter_app. cbn [filter path_name copy].
  rewrite Hfname, Hmatch, Hamatch.
  split.
  { rewrite !length_app. cbn [List.length]. lia. }
  change (file_events (with_directory st (d1 ++ d2 ++ [copy])) uuid4 flt)
    with (file_events st uuid4 flt).
  rewrite !flat_map_app. cbn [flat_map]. rewrite app_nil_r.
  assert (Hsame : file_events st uuid4 flt copy = file_events st uuid4 flt f).
  { unfold file_events, readable. cbn [st_encoding path_name file_lines copy].
    now rewrite Henc, Hfname, Hagz, Hgz. }
  rewrite Hsame. apply Permutation_app_head, Permutation_app_comm.
Qed.

Lemma cleanup_within_max_files :
  forall st,
    0 <= max_files st -> len (glob st) <= max_files st ->
    _cleanup_old_files st = (Return tt, with_directory st (log_directory st)).
Proof.
  intros st Hmax Hroom. unfold _cleanup_old_files, pbind, get, modify, slice_from.
  destruct (Z.ltb_spec (max_files st) 0) as [|_]; [lia|].
  rewrite skipn_all2; [cbn; unfold ret; now rewrite with_directory_same|].
  rewrite (Permutation_length (sort_desc_Permutation _ mtime_leb (glob st))).
  unfold len in Hroom. lia.
Qed.

(** X20.  Rotation loses no event while [max_files] leaves room.  On a
    directory that can be written and holds no two files of one name, the
    current file named by [_initialize_current_file], text and at or above
    the rotation size, no archive of its name in the way when files are
    compressed, and no more files than [max_files]:
    [_rotate_file_if_needed] names a new current file after the clock,
    keeps the names distinct, and the readers find the same events as
    before, each once; without compression the directory is untouched. *)
Theorem rotation_keeps_the_events :
  forall (st : FileAuditStorage) (now : datetime) (f : log_file)
         (uuid4 : string) (flt : option AuditFilter),
    disk_fault st = false -> distinct_names st -> current_file_initialized st ->
    find_file (current_file st) (log_directory st) = Some f ->
    max_file_size st <= st_size f ->
    st_encoding f = Utf8 ->
    (compress_old_files st = true ->
     find_file (current_file st ++ ".gz") (log_directory st) = None) ->
    len (glob st) <= max_files st ->
    fst (_rotate_file_if_needed now st) = Return tt
    /\ current_file (snd (_rotate_file_if_needed now st))
       = "audit_" ++ strftime_compact now ++ ".log"
    /\ distinct_names (snd (_rotate_file_if_needed now st))
    /\ Permutation
         (flat_map (file_events (snd (_rotate_file_if_needed now st)) uuid4 flt)
            (glob (snd (_rotate_file_if_needed now st))))
         (flat_map (file_events st uuid4 flt) (glob st))
    /\ (compress_old_files st = false ->
        log_directory (snd (_rotate_file_if_needed now st)) = log_directory st).
Proof.
  intros st now f uuid4 flt Hfault Hnd Hname Hfind Hsize Henc Hfree Hroom.
  assert (Hmax : 0 <= max_files st) by (pose proof (len_nonneg _ (glob st)); lia).
  assert (Hrot : exists st',
             _rotate_file_if_needed now st = (Return tt, st')
             /\ current_file st' = "audit_" ++ strftime_compact now ++ ".log"
             /\ distinct_names st'
             /\ Permutation (flat_map (file_events st' uuid4 flt) (glob st'))
                  (flat_map (file_events st uuid4 flt) (glob st))
             /\ (compress_old_files st = false ->
                 log_directory st' = log_directory st)).
  { unfold _rotate_file_if_needed. unfold pbind at 1. unfold get. rewrite Hfind.
    destruct (Z.geb_spec (st_size f) (max_file_size st)) as [_|]; [|lia].
    unfold when. destruct (compress_old_files st) eqn:Hcompress.
    - destruct (compress_file_keeps_the_events st now f uuid4 flt Hfault Hnd Hname
                  Hfind Henc (Hfree eq_refl))
        as (Hrun & Hcur & Hmf & Hnd1 & Hlen & Hperm).
      unfold pbind at 1.
      destruct (_compress_file now f st) as [r st1]. cbn [fst snd] in *. subst r.
      unfold pbind, _initialize_current_file, modify.
      rewrite cleanup_within_max_files.
      + eexists. split; [reflexivity|]. split; [reflexivity|].
        split; [exact Hnd1|]. split; [exact Hperm | discriminate].
      + cbn [max_files with_current_file]. lia.
      + cbn [max_files with_current_file]. unfold len, glob in *.
        cbn [log_directory with_current_file]. lia.
    - unfold pbind, ret, _initialize_current_file, modify.
      rewrite cleanup_within_max_files.
      + eexists. split; [reflexivity|]. split; [reflexivity|].
        split; [exact Hnd|]. split; [apply Permutation_refl | reflexivity].
      + cbn [max_files with_current_file]. lia.
      + cbn [max_files with_current_file]. exact Hroom. }
  destruct Hrot as (st' & Hrun & Hrest). rewrite Hrun. cbn [fst snd].
  split; [reflexivity | exact Hrest].
Qed.

(** X20 at a backend whose one file is due for rotation. *)
Lemma rotation_keeps_the_events_witness :
  fst (_rotate_file_if_needed two_past_ten rotation_due_store) = Return tt
  /\ current_file (snd (_rotate_file_if_needed two_past_ten rotation_due_store))
     = "audit_" ++ strftime_compact two_past_ten ++ ".log".
Proof.
  set (f := mklog_file "audit_20240101_100000.log" ten_o_clock
              (line_bytes (Plain (to_json old_event))) Utf8
              [Plain (to_json old_event)]).
  assert (Hfind : find_file (current_file rotation_due_store)
                    (log_directory rotation_due_store) = Some f)
    by (vm_compute; reflexivity).
  assert (Hnd : distinct_names rotation_due_store)
    by (unfold distinct_names; vm_compute; repeat constructor; intros []).
  assert (Hname : current_file_initialized rotation_due_store)
    by (exists ten_o_clock; reflexivity).
  assert (Hsize : max_file_size rotation_due_store <= st_size f)
    by (vm_compute; discriminate).
  assert (Hfree : compress_old_files rotation_due_store = true ->
                  find_file (current_file rotation_due_store ++ ".gz")
                    (log_directory rotation_due_store) = None)
    by (intros _; reflexivity).
  assert (Hroom : len (glob rotation_due_store) <= max_files rotation_due_store)
    by (vm_compute; discriminate).
  destruct (rotation_keeps_the_events rotation_due_store two_past_ten f "" None
              eq_refl Hnd Hname Hfind Hsize eq_refl Hfree Hroom)
    as (Hrun & Hcur & _).
  split; [exact Hrun | exact Hcur].
Defined.

(** ** The frameworks of the events the readers rebuild *)

Lemma post_init_carries_implied :
  forall u e, carries_implied (__post_init__ u e).
Proof.
  intros u e f Hf.
  assert (Himplied : implied (__post_init__ u e) = implied e).
  { unfold implied, category_is.
    destruct (post_init_fields u e) as (_ & _ & Hc & _ & _ & Ht & _).
    cbv zeta in Hc, Ht. now rewrite Hc, Ht. }
  rewrite Himplied in Hf.
  rewrite post_init_frameworks, assign_frameworks_update.
  now apply fw_update_has.
Qed.

Ltac bind_inversion H :=
  repeat match type of H with
         | bind ?m _ = Return _ =>
             let a := fresh "a" in
             destruct m as [a|] ; cbn [bind] in H; [|discriminate H]
         end.

Lemma dict_to_event_carries_implied :
  forall u data e, dict_to_event u data = Return e -> carries_implied e.
Proof.
  intros u data e H. unfold dict_to_event in H. bind_inversion H.
  injection H as <-. apply post_init_carries_implied.
Qed.

Lemma decode_line_carries_implied :
  forall st u l e, decode_line st u l = Return e -> carries_implied e.
Proof.
  intros st u l e H. unfold decode_line in H. bind_inversion H.
  unfold _dict_to_event in H. destruct a0; try discriminate.
  now apply (dict_to_event_carries_implied u items).
Qed.

Lemma row_to_event_carries_implied :
  forall u r e, _row_to_event u r = Return e -> carries_implied e.
Proof.
  intros u r e H. unfold _row_to_event in H. bind_inversion H.
  injection H as <-. apply post_init_carries_implied.
Qed.

Lemma rows_to_events_carry_implied :
  forall u rows events,
    rows_to_events u rows = Return events -> Forall carries_implied events.
Proof.
  intros u. induction rows as [|r rows IH]; intros events H; cbn [rows_to_events] in H.
  - injection H as <-. constructor.
  - destruct (_row_to_event u r) as [e|] eqn:He; cbn [bind] in H; [|discriminate].
    destruct (rows_to_events u rows) as [es|]; cbn [bind] in H; [|discriminate].
    injection H as <-.
    constructor; [now apply (row_to_event_carries_implied u r) | now apply IH].
Qed.

Lemma retrieve_lines_carry_implied :
  forall st u flt limit ls events,
    Forall carries_implied events ->
    Forall carries_implied (retrieve_lines st u flt limit ls events).
Proof.
  intros st u flt limit. induction ls as [|l r IH]; intros events Hev.
  - exact Hev.
  - cbn [retrieve_lines]. destruct (len events >=? limit); [exact Hev|].
    destruct (decode_line st u l) as [e|] eqn:He; [|now apply IH].
    apply IH. destruct (passes flt e); [|exact Hev].
    apply Forall_app. split; [exact Hev|].
    constructor; [now apply (decode_line_carries_implied st u l) | constructor].
Qed.

Lemma retrieve_files_carry_implied :
  forall st u flt limit fs events errs,
    Forall carries_implied events ->
    Forall carries_implied (fst (retrieve_files st u flt limit fs events errs)).
Proof.
  intros st u flt limit. induction fs as [|f r IH]; intros events errs Hev.
  - exact Hev.
  - cbn [retrieve_files]. destruct (len events >=? limit); [exact Hev|].
    destruct (readable f); apply IH; [|exact Hev].
    now apply retrieve_lines_carry_implied.
Qed.

Lemma db_retrieve_events_carry_implied :
  forall u flt limit db,
    exists events,
      fst (db_retrieve_events u flt limit db) = Return events
      /\ Forall carries_implied events.
Proof.
  intros u flt limit [rows order fault errs].
  unfold db_retrieve_events, connect, try_catch, pbind, get, lift, ret, raise.
  cbn [db_fault audit_events row_order].
  destruct fault; [exists []; split; [reflexivity | constructor]|].
  destruct (retrieve_query flt) as [ws ps]. cbn [audit_events row_order].
  destruct (select_events order ws (ps ++ [SInteger limit]) rows) as [selected|x];
    [|exists []; split; [reflexivity | constructor]].
  destruct (rows_to_events u selected) as [events|x] eqn:Hev;
    [|exists []; split; [reflexivity | constructor]].
  exists events. split; [reflexivity|].
  now apply (rows_to_events_carry_implied u selected).
Qed.

(** X21.  The frameworks of a stored event are derived again when it is
    read: every event [retrieve_events] returns, from the file backend
    and from the database backend, in every state and for every filter,
    carries each framework its category and target imply, whatever the
    stored record lists; so a data-access event read back is tagged
    GDPR. *)
Theorem events_read_back_carry_their_frameworks :
  forall (st : FileAuditStorage) (db : DatabaseAuditStorage) (uuid4 : string)
         (flt : option AuditFilter) (limit : Z),
    (exists events,
        fst (retrieve_events uuid4 flt limit st) = Return events
        /\ Forall carries_implied events
        /\ Forall (fun e => category e = DATA_ACCESS ->
                            In GDPR (compliance_frameworks e)) events)
    /\ (exists events,
          fst (retrieve_events uuid4 flt limit db) = Return events
          /\ Forall carries_implied events
          /\ Forall (fun e => category e = DATA_ACCESS ->
                              In GDPR (compliance_frameworks e)) events).
Proof.
  intros st db uuid4 flt limit.
  assert (Hgdpr : forall events,
             Forall carries_implied events ->
             Forall (fun e => category e = DATA_ACCESS ->
                              In GDPR (compliance_frameworks e)) events).
  { intros events Hall. eapply Forall_impl; [|exact Hall].
    intros e He Hcat. apply He. unfold implied, category_is. rewrite Hcat.
    now left. }
  split.
  - cbn [retrieve_events FileAuditStorage_storage].
    rewrite file_retrieve_events_result. eexists. split; [reflexivity|].
    assert (Hall : Forall carries_implied
                     (fst (retrieve_files st uuid4 flt limit
                             (sort_desc mtime_leb (glob st)) [] [])))
      by (apply retrieve_files_carry_implied; constructor).
    split; [exact Hall | now apply Hgdpr].
  - cbn [retrieve_events DatabaseAuditStorage_storage].
    destruct (db_retrieve_events_carry_implied uuid4 flt limit db)
      as (events & Hrun & Hall).
    exists events. split; [exact Hrun|]. split; [exact Hall | now apply Hgdpr].
Qed.

(** ** A key the lines were not written under *)

Lemma foreign_line_raises :
  forall st u l, foreign_line st l -> exists x, decode_line st u l = Raise x.
Proof.
  intros st u l [Henc Hl]. unfold decode_line. rewrite Henc.
  destruct l as [d|k d]; [now exists InvalidToken|].
  apply Nat.eqb_neq in Hl. rewrite Hl. now exists InvalidToken.
Qed.

Lemma retrieve_lines_foreign :
  forall st u flt limit ls events,
    Forall (foreign_line st) ls ->
    retrieve_lines st u flt limit ls events = events.
Proof.
  intros st u flt limit. induction ls as [|l r IH]; intros events Hls; [reflexivity|].
  inversion Hls as [|? ? Hl Hr]; subst. cbn [retrieve_lines].
  destruct (len events >=? limit); [reflexivity|].
  destruct (foreign_line_raises st u l Hl) as [x Hx]. rewrite Hx. now apply IH.
Qed.

Lemma retrieve_files_foreign :
  forall st u flt limit fs events errs,
    Forall (fun f => Forall (foreign_line st) (file_lines f)) fs ->
    fst (retrieve_files st u flt limit fs events errs) = events.
Proof.
  intros st u flt limit. induction fs as [|f r IH]; intros events errs Hfs;
    [reflexivity|].
  inversion Hfs as [|? ? Hf Hr]; subst. cbn [retrieve_files].
  destruct (len events >=? limit); [reflexivity|].
  destruct (readable f); [|now apply IH].
  rewrite retrieve_lines_foreign by exact Hf. now apply IH.
Qed.

Lemma count_lines_foreign :
  forall st u flt ls count,
    Forall (foreign_line st) ls -> count_lines st u flt ls count = count.
Proof.
  intros st u flt. induction ls as [|l r IH]; intros count Hls; [reflexivity|].
  inversion Hls as [|? ? Hl Hr]; subst. cbn [count_lines].
  destruct (foreign_line_raises st u l Hl) as [x Hx]. rewrite Hx. now apply IH.
Qed.

Lemma count_files_foreign :
  forall st u flt fs count errs,
    Forall (fun f => Forall (foreign_line st) (file_lines f)) fs ->
    fst (count_files st u flt fs count errs) = count.
Proof.
  intros st u flt. induction fs as [|f r IH]; intros count errs Hfs; [reflexivity|].
  inversion Hfs as [|? ? Hf Hr]; subst. cbn [count_files].
  destruct (readable f); [|now apply IH].
  rewrite count_lines_foreign by exact Hf. now apply IH.
Qed.

(** X22.  An encrypting file backend opened without a key draws a new
    one, and reads nothing that was written before: over a directory
    whose lines are in the clear or tokens of other keys, [retrieve_events]
    returns the empty list and [get_event_count] zero, for every filter
    and limit; each such line is skipped as malformed. *)
Theorem fresh_key_reads_nothing :
  forall (d : list log_file) (now : datetime) (max_file_size max_files : Z)
         (compress_old_files : bool) (generated_key : fernet_key)
         (uuid4 : string) (flt : option AuditFilter) (limit : Z),
    let st :=
      new_FileAuditStorage now d max_file_size max_files compress_old_files
        true None generated_key in
    (forall f k text,
        In f d -> In (Token k text) (file_lines f) -> k <> generated_key) ->
    fst (retrieve_events uuid4 flt limit st) = Return []
    /\ fst (get_event_count uuid4 flt st) = Return 0.
Proof.
  intros d now max_file_size max_files compress_old_files generated_key uuid4
    flt limit st Hkeys.
  assert (Hforeign : forall fs,
             incl fs d ->
             Forall (fun f => Forall (foreign_line st) (file_lines f)) fs).
  { intros fs Hincl. apply Forall_forall. intros f Hf.
    apply Forall_forall. intros l Hl. split; [reflexivity|].
    destruct l as [text|k text]; [exact I|].
    exact (Hkeys f k text (Hincl f Hf) Hl). }
  assert (Hglob : incl (glob st) d).
  { intros f Hf. unfold glob in Hf. apply filter_In in Hf. apply Hf. }
  cbn [retrieve_events get_event_count FileAuditStorage_storage].
  rewrite file_retrieve_events_result, file_get_event_count_result.
  split; f_equal.
  - apply retrieve_files_foreign, Hforeign.
    intros f Hf. apply Hglob.
    eapply Permutation_in; [apply sort_desc_Permutation | exact Hf].
  - apply count_files_foreign, Hforeign, Hglob.
Qed.

(** X22 at the directory of the backend that stored two events under
    key 1, opened again with key 2. *)
Lemma fresh_key_reads_nothing_witness :
  fst (retrieve_events "" None 1000
         (new_FileAuditStorage two_past_ten
            [mklog_file "audit_20240101_100000.log" ten_o_clock 0 Utf8
               [Token 1%nat (to_json old_event); Token 1%nat (to_json new_event)]]
            1000 10 true true None 2%nat))
  = Return [].
Proof.
  apply (fresh_key_reads_nothing
           [mklog_file "audit_20240101_100000.log" ten_o_clock 0 Utf8
              [Token 1%nat (to_json old_event); Token 1%nat (to_json new_event)]]
           two_past_ten 1000 10 true 2%nat "" None 1000).
  intros f k text [<-|[]] [[= <- _]|[[= <- _]|[]]]; discriminate.
Defined.

(** ** The checksum column *)

Lemma insert_desc_map :
  forall (A B : Type) (h : A -> B) (leb : B -> B -> bool) x l,
    insert_desc leb (h x) (map h l)
    = map h (insert_desc (fun a b => leb (h a) (h b)) x l).
Proof.
  intros A B h leb x. induction l as [|y l IH]; cbn [map insert_desc]; [reflexivity|].
  destruct (leb (h y) (h x)); cbn [map]; [reflexivity | now rewrite IH].
Qed.

Lemma sort_desc_map :
  forall (A B : Type) (h : A -> B) (leb : B -> B -> bool) l,
    sort_desc leb (map h l) = map h (sort_desc (fun a b => leb (h a) (h b)) l).
Proof.
  intros A B h leb. induction l as [|x l IH]; [reflexivity|].
  cbn [map sort_desc fold_right].
  change (fold_right (insert_desc leb) [] (map h l)) with (sort_desc leb (map h l)).
  now rewrite IH, insert_desc_map.
Qed.

Lemma where_holds_with_checksum :
  forall ws ps r c, where_holds ws ps (with_checksum r c) = where_holds ws ps r.
Proof.
  induction ws as [|[col n|col] ws IH]; intros ps r c; cbn [where_holds];
    [reflexivity| |].
  - rewrite IH. now destruct col.
  - destruct ps as [|lo [|hi ps]]; try reflexivity. rewrite IH. now destruct col.
Qed.

Lemma rows_to_events_with_checksum :
  forall u (forged : row -> option string) rows,
    rows_to_events u (map (fun r => with_checksum r (forged r)) rows)
    = rows_to_events u rows.
Proof.
  intros u forged. induction rows as [|r rows IH]; [reflexivity|].
  cbn [map rows_to_events]. rewrite IH. reflexivity.
Qed.

Lemma select_with_checksum :
  forall (forged : row -> option string) ws ps rows,
    filter (where_holds ws ps) (map (fun r => with_checksum r (forged r)) rows)
    = map (fun r => with_checksum r (forged r)) (filter (where_holds ws ps) rows).
Proof.
  intros forged ws ps rows. rewrite filter_through_map. f_equal.
  apply filter_ext. intros r. apply where_holds_with_checksum.
Qed.

(** X23.  The checksum the database backend stores with a row is never
    read again: whatever is put in the checksum column of the rows,
    [retrieve_events] and [get_event_count] answer as they do on the
    table as it was, for every filter and limit.  A row altered after it
    was stored is returned like any other. *)
Theorem stored_checksum_is_never_checked :
  forall (rows : list row) (forged : row -> option string)
         (order : engine_order) (fault : bool)
         (errs : list string) (uuid4 : string) (flt : option AuditFilter)
         (limit : Z),
    let altered := map (fun r => with_checksum r (forged r)) rows in
    fst (retrieve_events uuid4 flt limit
           (mkDatabaseAuditStorage altered order fault errs))
    = fst (retrieve_events uuid4 flt limit
             (mkDatabaseAuditStorage rows order fault errs))
    /\ fst (get_event_count uuid4 flt
              (mkDatabaseAuditStorage altered order fault errs))
       = fst (get_event_count uuid4 flt
                (mkDatabaseAuditStorage rows order fault errs)).
Proof.
  intros rows forged order fault errs uuid4 flt limit altered. subst altered.
  cbn [retrieve_events get_event_count DatabaseAuditStorage_storage].
  unfold db_retrieve_events, db_get_event_count, connect, try_catch, pbind, get,
    lift, ret, raise.
  cbn [db_fault audit_events row_order]. destruct fault; [split; reflexivity|].
  split.
  - destruct (retrieve_query flt) as [ws ps]. cbn [audit_events row_order].
    unfold select_events.
    destruct (check_bindings (placeholders_total ws + 1) (ps ++ [SInteger limit]))
      as [[]|x]; cbn [bind]; [|reflexivity].
    destruct (bind_parameters (ps ++ [SInteger limit])) as [[]|x]; cbn [bind];
      [|reflexivity].
    rewrite select_with_checksum, length_map, visit_map.
    rewrite (sort_desc_map row row (fun r => with_checksum r (forged r))
               timestamp_leb).
    change (fun a b : row =>
              timestamp_leb (with_checksum a (forged a)) (with_checksum b (forged b)))
      with timestamp_leb.
    assert (Hlimit : forall v (l : list row),
               sql_limit v (map (fun r => with_checksum r (forged r)) l)
               = map (fun r => with_checksum r (forged r)) (sql_limit v l)).
    { intros [s|n] l; cbn [sql_limit]; [reflexivity|].
      destruct (n <? 0); [reflexivity | now rewrite firstn_map]. }
    rewrite Hlimit, rows_to_events_with_checksum.
    destruct (rows_to_events uuid4 _); reflexivity.
  - destruct (count_query flt) as [ws ps]. cbn [audit_events].
    unfold select_count.
    destruct (check_bindings (placeholders_total ws) ps) as [[]|x]; cbn [bind];
      [|reflexivity].
    rewrite select_with_checksum. unfold len. now rewrite length_map.
Qed.

(** ** Logging to the database backend and asking for the event *)



